(** * Log-pattern classification and embedding engine

    A shallow embedding of the classification core of the repository:
    [log_patterns.py] (the pattern record and its [matches] method, the
    pattern store), [add_pattern.py] ([parse_line], [validate_regex], the
    interactive [main] loop), [embeddings.py] (the utility index and the
    embedding reducer) and [llm_parser.py] (oracle-driven ingestion).

    Conventions of the embedding.
    - A Python [str] is a Rocq [string]; a character is a code point below
      256, so the whitespace and line-boundary tables below are the
      restrictions of Python's tables to that range.
    - A raised exception is a value of [py A]; [try]/[except] is a match
      on it.
    - A [dict] that the code iterates is an association list in insertion
      order; a [dict] that is only looked up is a [gmap]; a [set] is a
      [gset].
    - The numpy vector of the reducer holds float64 counts; every value
      it takes is a whole number obtained by adding 1 repeatedly, which
      float64 represents exactly below 2^53, so a coordinate is a [Z]. *)

From Stdlib Require Import ZArith List Ascii String Bool Lia Sorting.Sorted.
From stdpp Require Import base option list gmap sets strings sorting.

Local Open Scope string_scope.

(** ** Python exceptions *)

Inductive exn : Type :=
| re_error
| KeyError
| IndexError
| TypeError
| JSONDecodeError
| RuntimeError
| EOFError.

Inductive py (A : Type) : Type :=
| Return (a : A)
| Raise (e : exn).

Arguments Return {A} a.
Arguments Raise {A} e.

Definition py_bind {A B} (m : py A) (k : A -> py B) : py B :=
  match m with
  | Return a => k a
  | Raise e => Raise e
  end.

Notation "x <~ m ;; k" := (py_bind m (fun x => k))
  (at level 100, m at next level, right associativity).

(** ** Python string primitives *)

Module PyStr.

Definition code (c : ascii) : N := N_of_ascii c.

(** [str.isspace] on one character. *)
Definition isspace (c : ascii) : bool :=
  let n := code c in
  ((9 <=? n) && (n <=? 13) || (28 <=? n) && (n <=? 32)
   || (n =? 133) || (n =? 160))%N.

(** The line boundaries of [str.splitlines]; CR LF counts as one. *)
Definition is_linebreak (c : ascii) : bool :=
  let n := code c in
  ((10 <=? n) && (n <=? 13) || (28 <=? n) && (n <=? 30) || (n =? 133))%N.

Definition is_cr (c : ascii) : bool := (code c =? 13)%N.
Definition is_lf (c : ascii) : bool := (code c =? 10)%N.

Fixpoint lstrip (s : string) : string :=
  match s with
  | EmptyString => EmptyString
  | String c s' => if isspace c then lstrip s' else s
  end.

Fixpoint rstrip (s : string) : string :=
  match s with
  | EmptyString => EmptyString
  | String c s' =>
      match rstrip s' with
      | EmptyString => if isspace c then EmptyString else String c EmptyString
      | r => String c r
      end
  end.

Definition strip (s : string) : string := rstrip (lstrip s).

(** Truthiness of a [str]: non-empty. *)
Definition truthy (s : string) : bool :=
  match s with EmptyString => false | _ => true end.

Fixpoint splitlines (s : string) : list string :=
  match s with
  | EmptyString => []
  | String c s' =>
      if is_cr c then
        match s' with
        | String d s'' =>
            if is_lf d then EmptyString :: splitlines s''
            else EmptyString :: splitlines s'
        | EmptyString => [EmptyString]
        end
      else if is_linebreak c then EmptyString :: splitlines s'
      else
        match splitlines s' with
        | [] => [String c EmptyString]
        | l :: ls => String c l :: ls
        end
  end.

Fixpoint all_space (s : string) : bool :=
  match s with
  | EmptyString => true
  | String c s' => isspace c && all_space s'
  end.

End PyStr.

(** ** The regular-expression engine

    The code calls Python's [re] module: [re.compile] raises [re.error]
    on a malformed expression, and [match] on a compiled expression looks
    for a match at the start of the string. *)

Class RegexEngine := {
  compiled : Type;
  re_compile : string -> option compiled;
  compiled_match : compiled -> string -> bool
}.

Section Engine.
Context `{RegexEngine}.

(** [re.compile(regex)]: a compiled expression or [re.error].  What
    else [re] can raise (an [OverflowError] for a repeat count of
    2^32 - 1 or more) has no place here: where a lemma below limits the
    exceptions of a function, it does so within this model. *)
Definition py_compile (regex : string) : py compiled :=
  match re_compile regex with
  | Some c => Return c
  | None => Raise re_error
  end.

(** [bool(re.match(regex, line))] *)
Definition re_match (regex line : string) : py bool :=
  c <~ py_compile regex ;; Return (compiled_match c line).

End Engine.

(** ** A model of Python's [re] for the expressions the repository uses

    Literals, [.], [^], [$], escapes ([\d \w \s] and their complements,
    control characters, escaped punctuation), bracket classes with ranges
    and negation, groups (capturing and [(?:...)]), alternation and the
    quantifiers [* + ? {m} {m,} {m,n}] with an optional lazy mark.
    Laziness does not change whether a match exists, so the matcher
    ignores it.  Expressions outside this fragment (look-around,
    back-references, named groups, inline flags, the assertions
    [\b \B \A \Z], numeric and hexadecimal escapes, possessive
    quantifiers) are rejected by [parse]; the instance says nothing about
    what Python does with them. *)

Module PyRe.

Local Open Scope char_scope.
Local Open Scope list_scope.

Inductive category : Type := Digit | Word | Space.

Inductive cset_item : Type :=
| CChar (c : ascii)
| CRange (lo hi : ascii)
| CCat (neg : bool) (k : category).

Inductive re : Type :=
| Empty
| Lit (c : ascii)
| AnyChar
| CSet (neg : bool) (items : list cset_item)
| Bol
| Eol
| Cat (r1 r2 : re)
| Alt (r1 r2 : re)
| Star (r : re).

Definition between (lo hi n : N) : bool := ((lo <=? n) && (n <=? hi))%N.

Definition is_digit (c : ascii) : bool := between 48 57 (PyStr.code c).

(** [str.isalnum() or c == '_'] below code point 256. *)
Definition is_word (c : ascii) : bool :=
  let n := PyStr.code c in
  between 48 57 n || between 65 90 n || between 97 122 n || (n =? 95)%N
  || (n =? 170)%N || (n =? 178)%N || (n =? 179)%N || (n =? 181)%N
  || (n =? 185)%N || (n =? 186)%N || between 188 190 n
  || between 192 214 n || between 216 246 n || between 248 255 n.

Definition cat_mem (k : category) (c : ascii) : bool :=
  match k with
  | Digit => is_digit c
  | Word => is_word c
  | Space => PyStr.isspace c
  end.

Definition item_mem (it : cset_item) (c : ascii) : bool :=
  match it with
  | CChar d => Ascii.eqb c d
  | CRange lo hi => between (PyStr.code lo) (PyStr.code hi) (PyStr.code c)
  | CCat neg k => xorb neg (cat_mem k c)
  end.

Definition set_mem (neg : bool) (items : list cset_item) (c : ascii) : bool :=
  xorb neg (existsb (fun it => item_mem it c) items).

(** [$] without MULTILINE: at the end, or before a final newline. *)
Definition at_end (s : list ascii) : bool :=
  match s with
  | [] => true
  | [c] => PyStr.is_lf c
  | _ => false
  end.

(** *** Matching

    [mt r bol s k]: can [r] consume a prefix of [s] (which starts at
    position 0 of the subject iff [bol]) so that the continuation [k]
    accepts what is left.  An iteration of a starred expression must
    consume something, which bounds the iterations by the length of
    [s]. *)
Definition star_loop
    (step : bool -> list ascii -> (bool -> list ascii -> bool) -> bool)
    (k : bool -> list ascii -> bool)
    : nat -> bool -> list ascii -> bool :=
  fix star (n : nat) (b : bool) (s0 : list ascii) {struct n} : bool :=
    match n with
    | O => k b s0
    | S n' =>
        step b s0
          (fun b' s' =>
             if (length s' <? length s0)%nat then star n' b' s' else false)
        || k b s0
    end.

Fixpoint mt (r : re) (bol : bool) (s : list ascii)
    (k : bool -> list ascii -> bool) {struct r} : bool :=
  match r with
  | Empty => k bol s
  | Lit c =>
      match s with
      | d :: s' => if Ascii.eqb d c then k false s' else false
      | [] => false
      end
  | AnyChar =>
      match s with
      | d :: s' => if PyStr.is_lf d then false else k false s'
      | [] => false
      end
  | CSet neg items =>
      match s with
      | d :: s' => if set_mem neg items d then k false s' else false
      | [] => false
      end
  | Bol => if bol then k bol s else false
  | Eol => if at_end s then k bol s else false
  | Cat r1 r2 => mt r1 bol s (fun b' s' => mt r2 b' s' k)
  | Alt r1 r2 => mt r1 bol s k || mt r2 bol s k
  | Star r1 => star_loop (mt r1) k (length s) bol s
  end.

(** [compiled.match(line) is not None] *)
Definition match_prefix (r : re) (line : string) : bool :=
  mt r true (list_ascii_of_string line) (fun _ _ => true).

(** *** What an expression denotes

    [Matches r bol w t]: [r] matches exactly [w] when [w] starts at
    position 0 iff [bol] and is followed by [t]. *)
Definition still_bol (bol : bool) (w : list ascii) : bool :=
  bol && match w with [] => true | _ => false end.

Inductive Matches : re -> bool -> list ascii -> list ascii -> Prop :=
| MEmpty bol t : Matches Empty bol [] t
| MLit c bol t : Matches (Lit c) bol [c] t
| MAny d bol t : PyStr.is_lf d = false -> Matches AnyChar bol [d] t
| MSet neg items d bol t :
    set_mem neg items d = true -> Matches (CSet neg items) bol [d] t
| MBol t : Matches Bol true [] t
| MEol bol t : at_end t = true -> Matches Eol bol [] t
| MCat r1 r2 bol w1 w2 t :
    Matches r1 bol w1 (w2 ++ t) ->
    Matches r2 (still_bol bol w1) w2 t ->
    Matches (Cat r1 r2) bol (w1 ++ w2) t
| MAltL r1 r2 bol w t : Matches r1 bol w t -> Matches (Alt r1 r2) bol w t
| MAltR r1 r2 bol w t : Matches r2 bol w t -> Matches (Alt r1 r2) bol w t
| MStar0 r bol t : Matches (Star r) bol [] t
| MStarS r bol w1 w2 t :
    Matches r bol w1 (w2 ++ t) ->
    Matches (Star r) (still_bol bol w1) w2 t ->
    Matches (Star r) bol (w1 ++ w2) t.

Fixpoint has_eol (r : re) : bool :=
  match r with
  | Eol => true
  | Cat r1 r2 | Alt r1 r2 => has_eol r1 || has_eol r2
  | Star r1 => has_eol r1
  | _ => false
  end.

(** A continuation-passing matcher is correct when, for every
    continuation, it succeeds exactly on the splits the relation
    allows. *)
Definition mt_correct (r : re) : Prop :=
  forall bol s k,
    mt r bol s k = true <->
    exists w t, s = w ++ t /\ Matches r bol w t /\
                k (still_bol bol w) t = true.

(** *** Parsing the concrete syntax *)

Fixpoint power (r : re) (n : nat) : re :=
  match n with
  | O => Empty
  | S n' => Cat r (power r n')
  end.

Fixpoint upto (r : re) (n : nat) : re :=
  match n with
  | O => Empty
  | S n' => Alt (Cat r (upto r n')) Empty
  end.

(** [r{lo,hi}]; no upper bound when [hi] is [None]. *)
Definition rep (r : re) (lo : nat) (hi : option nat) : re :=
  match hi with
  | None => Cat (power r lo) (Star r)
  | Some h => Cat (power r lo) (upto r (h - lo))
  end.

Definition is_ascii_alnum (c : ascii) : bool :=
  let n := PyStr.code c in
  between 48 57 n || between 65 90 n || between 97 122 n.

(** The character or category an escape [\e] stands for; [None] is a
    bad (or unsupported) escape. *)
Definition parse_escape (in_class : bool) (e : ascii) : option cset_item :=
  if Ascii.eqb e "d" then Some (CCat false Digit)
  else if Ascii.eqb e "D" then Some (CCat true Digit)
  else if Ascii.eqb e "w" then Some (CCat false Word)
  else if Ascii.eqb e "W" then Some (CCat true Word)
  else if Ascii.eqb e "s" then Some (CCat false Space)
  else if Ascii.eqb e "S" then Some (CCat true Space)
  else if Ascii.eqb e "n" then Some (CChar "010")
  else if Ascii.eqb e "t" then Some (CChar "009")
  else if Ascii.eqb e "r" then Some (CChar "013")
  else if Ascii.eqb e "f" then Some (CChar "012")
  else if Ascii.eqb e "v" then Some (CChar "011")
  else if Ascii.eqb e "a" then Some (CChar "007")
  else if Ascii.eqb e "b" && in_class then Some (CChar "008")
  else if is_ascii_alnum e then None
  else Some (CChar e).

Definition class_atom (s : list ascii) : option (cset_item * list ascii) :=
  match s with
  | [] => None
  | c :: rest =>
      if Ascii.eqb c "\" then
        match rest with
        | e :: rest' =>
            match parse_escape true e with
            | Some it => Some (it, rest')
            | None => None
            end
        | [] => None
        end
      else Some (CChar c, rest)
  end.

(** The items of a bracket class up to its closing bracket; a bracket
    in first position is a literal. *)
Fixpoint class_items (n : nat) (first : bool) (s : list ascii)
    : option (list cset_item * list ascii) :=
  match n with
  | O => None
  | S n' =>
      match s with
      | [] => None
      | c :: rest =>
          if Ascii.eqb c "]" && negb first then Some ([], rest)
          else
            match class_atom s with
            | None => None
            | Some (lo, s1) =>
                match s1 with
                | d :: s2 =>
                    if Ascii.eqb d "-" then
                      match s2 with
                      | [] => None
                      | e :: s3 =>
                          if Ascii.eqb e "]" then Some ([lo; CChar "-"], s3)
                          else
                            match class_atom s2 with
                            | Some (CChar b, s4) =>
                                match lo with
                                | CChar a =>
                                    if (PyStr.code a <=? PyStr.code b)%N then
                                      match class_items n' false s4 with
                                      | Some (items, r) =>
                                          Some (CRange a b :: items, r)
                                      | None => None
                                      end
                                    else None
                                | _ => None
                                end
                            | _ => None
                            end
                      end
                    else
                      match class_items n' false s1 with
                      | Some (items, r) => Some (lo :: items, r)
                      | None => None
                      end
                | [] => None
                end
            end
      end
  end.

Fixpoint read_digits (acc : option nat) (s : list ascii)
    : option nat * list ascii :=
  match s with
  | c :: rest =>
      if is_digit c then
        let d := N.to_nat (PyStr.code c - 48) in
        read_digits (Some (match acc with Some a => 10 * a + d | None => d end)%nat)
          rest
      else (acc, s)
  | [] => (acc, s)
  end.

Inductive quant : Type :=
| NoQuant
| Quant (lo : nat) (hi : option nat) (rest : list ascii)
| BadQuant.

(** A quantifier at the head of [s].  A brace that does not open a
    well-formed count is an ordinary character. *)
Definition read_quant (s : list ascii) : quant :=
  match s with
  | [] => NoQuant
  | c :: rest =>
      if Ascii.eqb c "*" then Quant 0 None rest
      else if Ascii.eqb c "+" then Quant 1 None rest
      else if Ascii.eqb c "?" then Quant 0 (Some 1%nat) rest
      else if Ascii.eqb c "{" then
        match rest with
        | [] => NoQuant
        | d :: _ =>
            if Ascii.eqb d "}" then NoQuant
            else
              let '(lo, s1) := read_digits None rest in
              let '(comma, hi, s2) :=
                match s1 with
                | e :: s1' =>
                    if Ascii.eqb e "," then
                      let '(h, s2) := read_digits None s1' in (true, h, s2)
                    else (false, lo, s1)
                | [] => (false, lo, s1)
                end in
              match s2 with
              | f :: s3 =>
                  if Ascii.eqb f "}" then
                    let mn := match lo with Some m => m | None => O end in
                    match hi with
                    | Some h =>
                        if (h <? mn)%nat then BadQuant
                        else Quant mn (Some h) s3
                    | None => if comma then Quant mn None s3 else NoQuant
                    end
                  else NoQuant
              | [] => NoQuant
              end
        end
      else NoQuant
  end.

Inductive kind : Type := KPlain | KAnchor.

(** The quantifier, if any, that follows an atom.  An anchor cannot be
    repeated, and a repeat cannot be repeated again. *)
Definition parse_quant (a : re) (k : kind) (s : list ascii)
    : option (re * list ascii) :=
  match read_quant s with
  | NoQuant => Some (a, s)
  | BadQuant => None
  | Quant lo hi rest =>
      match k with
      | KAnchor => None
      | KPlain =>
          let rest' :=
            match rest with
            | c :: r => if Ascii.eqb c "?" then r else rest
            | [] => rest
            end in
          match read_quant rest' with
          | NoQuant => Some (rep a lo hi, rest')
          | _ => None
          end
      end
  end.

Fixpoint parse_alt (n : nat) (s : list ascii) {struct n}
    : option (re * list ascii) :=
  match n with
  | O => None
  | S n' =>
      match parse_seq n' s with
      | None => None
      | Some (r1, s1) =>
          match s1 with
          | c :: s2 =>
              if Ascii.eqb c "|" then
                match parse_alt n' s2 with
                | Some (r2, s3) => Some (Alt r1 r2, s3)
                | None => None
                end
              else Some (r1, s1)
          | [] => Some (r1, s1)
          end
      end
  end

with parse_seq (n : nat) (s : list ascii) {struct n}
    : option (re * list ascii) :=
  match n with
  | O => None
  | S n' =>
      match s with
      | [] => Some (Empty, s)
      | c :: _ =>
          if Ascii.eqb c "|" || Ascii.eqb c ")" then Some (Empty, s)
          else
            match parse_atom n' s with
            | None => None
            | Some (a, k, s1) =>
                match parse_quant a k s1 with
                | None => None
                | Some (p, s2) =>
                    match parse_seq n' s2 with
                    | Some (r, s3) => Some (Cat p r, s3)
                    | None => None
                    end
                end
            end
      end
  end

with parse_atom (n : nat) (s : list ascii) {struct n}
    : option (re * kind * list ascii) :=
  match n with
  | O => None
  | S n' =>
      match s with
      | [] => None
      | c :: rest =>
          if Ascii.eqb c "(" then
            let body :=
              match rest with
              | q :: rest1 =>
                  if Ascii.eqb q "?" then
                    match rest1 with
                    | e :: rest2 => if Ascii.eqb e ":" then Some rest2 else None
                    | [] => None
                    end
                  else Some rest
              | [] => Some rest
              end in
            match body with
            | None => None
            | Some b =>
                match parse_alt n' b with
                | Some (r, d :: s2) =>
                    if Ascii.eqb d ")" then Some (r, KPlain, s2) else None
                | _ => None
                end
            end
          else if Ascii.eqb c "[" then
            let '(neg, s1) :=
              match rest with
              | d :: rest1 => if Ascii.eqb d "^" then (true, rest1) else (false, rest)
              | [] => (false, rest)
              end in
            match class_items (S (length s1)) true s1 with
            | Some (items, s2) => Some (CSet neg items, KPlain, s2)
            | None => None
            end
          else if Ascii.eqb c "." then Some (AnyChar, KPlain, rest)
          else if Ascii.eqb c "^" then Some (Bol, KAnchor, rest)
          else if Ascii.eqb c "$" then Some (Eol, KAnchor, rest)
          else if Ascii.eqb c "\" then
            match rest with
            | e :: rest1 =>
                match parse_escape false e with
                | Some (CChar l) => Some (Lit l, KPlain, rest1)
                | Some it => Some (CSet false [it], KPlain, rest1)
                | None => None
                end
            | [] => None
            end
          else
            match read_quant s with
            | NoQuant => Some (Lit c, KPlain, rest)
            | _ => None
            end
      end
  end.

(** [re.compile]: the whole expression must be consumed; a closing
    parenthesis that is left over is unbalanced. *)
Definition parse (regex : string) : option re :=
  let s := list_ascii_of_string regex in
  match parse_alt (3 * length s + 3) s with
  | Some (r, []) => Some r
  | _ => None
  end.

End PyRe.

#[export] Instance py_re : RegexEngine := {|
  compiled := PyRe.re;
  re_compile := PyRe.parse;
  compiled_match := PyRe.match_prefix
|}.

(** ** log_patterns.py *)

Module log_patterns.

Record LogPattern : Type := {
  id : Z;
  regex : string;
  utility_name : string;
  is_error : bool;
  need_reviewing : bool
}.

Section Matching.
Context `{RegexEngine}.

(** [LogPattern.matches]: [re.error] is caught and turned into
    [False]. *)
Definition matches (self : LogPattern) (line : string) : py bool :=
  match re_match (regex self) line with
  | Raise re_error => Return false
  | r => r
  end.

End Matching.

(** The [patterns] table.  Rows are kept in rowid order, which is the
    order in which [SELECT * FROM patterns] returns them; a new row gets
    one more than the largest rowid in use (1 for an empty table).
    [lastrowid] is that for ids from 0 to 2^63 - 2; at the largest
    rowid SQLite picks an unused one at random. *)
Record LogPatternStore : Type := { rows : list LogPattern }.

Definition lastrowid (rs : list LogPattern) : Z :=
  foldr (fun p m => Z.max (id p) m) 0%Z rs.

Definition add_pattern (self : LogPatternStore)
    (regex utility_name : string) (is_error need_reviewing : bool)
    : Z * LogPatternStore :=
  let i := (lastrowid (rows self) + 1)%Z in
  (i, {| rows := rows self ++
                 [{| id := i; regex := regex; utility_name := utility_name;
                     is_error := is_error;
                     need_reviewing := need_reviewing |}] |}).

Definition get_all_patterns (self : LogPatternStore) : list LogPattern :=
  rows self.

Definition delete_pattern (self : LogPatternStore) (pattern_id : Z)
    : bool * LogPatternStore :=
  (existsb (fun p => Z.eqb (id p) pattern_id) (rows self),
   {| rows := filter (fun p => id p ≠ pattern_id) (rows self) |}).

End log_patterns.

(** ** add_pattern.py *)

Module add_pattern.
Import log_patterns.

(** [str.lower] below code point 256. *)
Definition lower_char (c : ascii) : ascii :=
  let n := PyStr.code c in
  if PyRe.between 65 90 n || PyRe.between 192 214 n || PyRe.between 216 222 n
  then ascii_of_N (n + 32) else c.

Fixpoint lower (s : string) : string :=
  match s with
  | EmptyString => EmptyString
  | String c s' => String (lower_char c) (lower s')
  end.

Section WithEngine.
Context `{RegexEngine}.

Definition invalid_regex_warning (p : LogPattern) : string :=
  "Warning: Invalid regex pattern in database: " ++ regex p.

(** [parse_line]: the lines it prints, and what it returns. *)
Fixpoint parse_line (line : string) (patterns : list LogPattern)
    : list string * py (option LogPattern) :=
  match patterns with
  | [] => ([], Return None)
  | pattern :: rest =>
      match matches pattern line with
      | Return true => ([], Return (Some pattern))
      | Return false => parse_line line rest
      | Raise re_error =>
          let '(out, r) := parse_line line rest in
          (invalid_regex_warning pattern :: out, r)
      | Raise e => ([], Raise e)
      end
  end.

(** [validate_regex]: the diagnostics it prints on a failure do not
    change what it returns. *)
Definition validate_regex (pattern line : string) : bool :=
  match py_compile pattern with
  | Return c => if compiled_match c line then true else false
  | Raise _ => false
  end.

(** The loop of [main] that reads a regex until one validates or the
    user picks 3 ("Cancel pattern creation"); [None] is [EOFError]. *)
Fixpoint read_regex (line : string) (stdin : list string)
    : option (string * list string) :=
  match stdin with
  | [] => None
  | r :: rest =>
      let regex := PyStr.strip r in
      if negb (PyStr.truthy regex) then read_regex line rest
      else if validate_regex regex line then Some (regex, rest)
      else
        match rest with
        | [] => None
        | ch :: rest' =>
            let choice := PyStr.strip ch in
            if String.eqb choice "2" then read_regex line rest'
            else if String.eqb choice "3" then Some (regex, rest')
            else read_regex line rest'
        end
  end.

(** The loop of [main] that reads [y] or [n]. *)
Fixpoint read_error_flag (stdin : list string)
    : option (string * list string) :=
  match stdin with
  | [] => None
  | a :: rest =>
      let error_str := lower (PyStr.strip a) in
      if String.eqb error_str "y" || String.eqb error_str "n"
      then Some (error_str, rest)
      else read_error_flag rest
  end.

(** [main]: the store when the program stops, which it does on the
    [EOFError] of the first [input()] past the end of [stdin].  Every
    turn of the outer loop reads at least one line, so [fuel] above
    the length of [stdin] is never used up. *)
Fixpoint main_loop (fuel : nat) (pattern_store : LogPatternStore)
    (stdin : list string) : LogPatternStore :=
  match fuel with
  | O => pattern_store
  | S fuel' =>
      match stdin with
      | [] => pattern_store
      | l :: in1 =>
          let line := PyStr.strip l in
          if negb (PyStr.truthy line) then main_loop fuel' pattern_store in1
          else
            let patterns := get_all_patterns pattern_store in
            match parse_line line patterns with
            | (_, Raise _) => pattern_store
            | (_, Return (Some matching_pattern)) =>
                match in1 with
                | [] => pattern_store
                | a :: in2 =>
                    let action := PyStr.strip (lower a) in
                    if String.eqb action "d" then
                      main_loop fuel'
                        (snd (delete_pattern pattern_store
                                (id matching_pattern))) in2
                    else main_loop fuel' pattern_store in2
                end
            | (_, Return None) =>
                match in1 with
                | [] => pattern_store
                | a :: in2 =>
                    if negb (String.eqb (lower a) "y")
                    then main_loop fuel' pattern_store in2
                    else
                      match read_regex line in2 with
                      | None => pattern_store
                      | Some (regex, in3) =>
                          if negb (PyStr.truthy regex)
                          then main_loop fuel' pattern_store in3
                          else
                            match in3 with
                            | [] => pattern_store
                            | u :: in4 =>
                                let utility := PyStr.strip u in
                                if negb (PyStr.truthy utility)
                                then main_loop fuel' pattern_store in4
                                else
                                  match read_error_flag in4 with
                                  | None => pattern_store
                                  | Some (error_str, in5) =>
                                      main_loop fuel'
                                        (snd (add_pattern pattern_store
                                                regex utility
                                                (String.eqb error_str "y")
                                                true))
                                        in5
                                  end
                            end
                      end
                end
            end
      end
  end.

Definition main (pattern_store : LogPatternStore) (stdin : list string)
    : LogPatternStore :=
  main_loop (S (length stdin)) pattern_store stdin.

End WithEngine.

End add_pattern.

(** ** embeddings.py *)

Module embeddings.
Import log_patterns.

(** [str <= str]: code points compared lexicographically. *)
Definition str_le (a b : string) : Prop := String.leb a b = true.

#[export] Instance str_le_dec (a b : string) : Decision (str_le a b).
Proof. unfold str_le. apply _. Defined.

(** [sorted(names)] *)
Definition sorted (names : list string) : list string :=
  merge_sort str_le names.

(** [enumerate(l)] *)
Definition enumerate {A} (l : list A) : list (nat * A) :=
  imap (fun idx x => (idx, x)) l.

(** [utility_patterns[k].append(v)], after creating the entry when the
    key is new; the dictionary keeps its keys in insertion order. *)
Fixpoint dict_append (d : list (string * list (string * bool)))
    (k : string) (v : string * bool) : list (string * list (string * bool)) :=
  match d with
  | [] => [(k, [v])]
  | (k', vs) :: d' =>
      if String.eqb k' k then (k', (vs ++ [v])%list) :: d'
      else (k', vs) :: dict_append d' k v
  end.

Record EmbeddingGenerator : Type := {
  _utility_mapping : gmap string nat;
  _patterns_by_utility : list (string * list (string * bool))
}.

(** [_initialize_mappings], from the snapshot that
    [pattern_store.get_all_patterns()] returned. *)
Definition _initialize_mappings (patterns : list LogPattern)
    : EmbeddingGenerator :=
  let utility_patterns :=
    foldl (fun d pattern =>
             dict_append d (utility_name pattern)
               (regex pattern, is_error pattern))
          [] patterns in
  {| _utility_mapping :=
       foldl (fun m '(idx, name) => <[name := idx]> m) ∅
             (enumerate (sorted (utility_patterns.*1)));
     _patterns_by_utility := utility_patterns |}.

Definition dimension (self : EmbeddingGenerator) : nat :=
  size (_utility_mapping self).

(** [embedding[utility_idx] += 1] *)
Definition increment (utility_idx : nat) (embedding : list Z)
    : py (list Z) :=
  match embedding !! utility_idx with
  | Some v => Return (<[utility_idx := (v + 1)%Z]> embedding)
  | None => Raise IndexError
  end.

Section WithEngine.
Context `{RegexEngine}.

(** The innermost loop of [generate_embedding], over the patterns of
    one utility; it stops at the first pattern that matches. *)
Fixpoint scan_patterns (line : string) (utility_idx : nat)
    (patterns : list (string * bool)) (embedding : list Z)
    : py (list Z) :=
  match patterns with
  | [] => Return embedding
  | (regex, is_error) :: rest =>
      match re_match regex line with
      | Return true =>
          if is_error then increment utility_idx embedding
          else Return embedding
      | Return false => scan_patterns line utility_idx rest embedding
      | Raise re_error => scan_patterns line utility_idx rest embedding
      | Raise e => Raise e
      end
  end.

(** The loop over [self._patterns_by_utility.items()]. *)
Fixpoint scan_utilities (self : EmbeddingGenerator) (line : string)
    (items : list (string * list (string * bool))) (embedding : list Z)
    : py (list Z) :=
  match items with
  | [] => Return embedding
  | (utility_name, patterns) :: rest =>
      match _utility_mapping self !! utility_name with
      | None => Raise KeyError
      | Some utility_idx =>
          embedding' <~ scan_patterns line utility_idx patterns embedding ;;
          scan_utilities self line rest embedding'
      end
  end.

(** The loop over [log_content.splitlines()]. *)
Fixpoint scan_lines (self : EmbeddingGenerator) (lines : list string)
    (embedding : list Z) : py (list Z) :=
  match lines with
  | [] => Return embedding
  | line :: rest =>
      if negb (PyStr.truthy (PyStr.strip line))
      then scan_lines self rest embedding
      else
        embedding' <~ scan_utilities self line
                        (_patterns_by_utility self) embedding ;;
        scan_lines self rest embedding'
  end.

Definition generate_embedding (self : EmbeddingGenerator)
    (log_content : string) : py (list Z) :=
  scan_lines self (PyStr.splitlines log_content)
    (replicate (dimension self) 0%Z).

End WithEngine.

End embeddings.

(** ** llm_parser.py *)

Module llm_parser.
Import log_patterns.
Local Open Scope list_scope.

(** What comes back from the oracle for one query, after [ask_llm] and
    [json.loads]: the request failed ([ask_llm] raised [RuntimeError]),
    the text is not JSON, the JSON is not an object (indexing it raises
    [TypeError]), or it is an object, here with string values (a value
    that is null, a number or a list is not represented; a null or a
    list as utility name makes the [INSERT] fail, a number is stored as
    text). *)
Inductive llm_reply : Type :=
| AskFailed
| NotJson
| NotObject
| Object (fields : gmap string string).

(** The oracle is outside the program: the reply to the [n]-th query
    of a run, made for [line]. *)
Definition oracle : Type := nat -> string -> llm_reply.

Record LLMParser : Type := {
  pattern_store : LogPatternStore;
  _patterns : option (list LogPattern)
}.

(** The [patterns] property: loads the snapshot on first use. *)
Definition patterns (self : LLMParser) : list LogPattern * LLMParser :=
  match _patterns self with
  | Some ps => (ps, self)
  | None =>
      let ps := get_all_patterns (pattern_store self) in
      (ps, {| pattern_store := pattern_store self; _patterns := Some ps |})
  end.

Definition _update_patterns (self : LLMParser)
    (regex utility_name : string) (is_error : bool) : Z * LLMParser :=
  let '(pattern_id, store') :=
    add_pattern (pattern_store self) regex utility_name is_error true in
  let new_pattern :=
    {| id := pattern_id; regex := regex; utility_name := utility_name;
       is_error := is_error; need_reviewing := true |} in
  (pattern_id,
   {| pattern_store := store';
      _patterns := (fun ps => ps ++ [new_pattern]) <$> _patterns self |}).

(** [result[key]] *)
Definition getitem (result : gmap string string) (key : string)
    : py string :=
  match result !! key with
  | Some v => Return v
  | None => Raise KeyError
  end.

(** One line of the summary that [process_unprocessed_log] prints for a
    line of the log. *)
Inductive event : Type :=
| Matched (matching_pattern : LogPattern)
| Added (pattern_id : Z) (utility regex : string) (is_error : bool)
| SkippedDuplicate
| FailedToCreate.

Record run_state : Type := {
  self : LLMParser;
  new_patterns : gset string;
  llm_queries : nat;
  stdin : list string;
  stdout : list event
}.

Definition with_self (st : run_state) (self' : LLMParser) : run_state :=
  {| self := self'; new_patterns := new_patterns st;
     llm_queries := llm_queries st; stdin := stdin st;
     stdout := stdout st |}.

Definition print (st : run_state) (ev : event) : run_state :=
  {| self := self st; new_patterns := new_patterns st;
     llm_queries := llm_queries st; stdin := stdin st;
     stdout := stdout st ++ [ev] |}.

(** [llm_queries += 1] *)
Definition count_query (st : run_state) : run_state :=
  {| self := self st; new_patterns := new_patterns st;
     llm_queries := S (llm_queries st); stdin := stdin st;
     stdout := stdout st |}.

(** What [process_unprocessed_log] does with a result of
    [analyze_line_with_llm]: the pattern is stored, and added to the
    cache, unless its regex was already created for this log. *)
Definition ingest (st : run_state) (result : string * string * bool)
    : run_state :=
  let '(regex, utility, is_error) := result in
  if decide (regex ∉ new_patterns st) then
    let '(pattern_id, self') :=
      _update_patterns (self st) regex utility is_error in
    {| self := self'; new_patterns := new_patterns st ∪ {[regex]};
       llm_queries := llm_queries st; stdin := stdin st;
       stdout := stdout st ++ [Added pattern_id utility regex is_error] |}
  else print st SkippedDuplicate.

Inductive status : Type :=
| Next
| Break
| Raised (e : exn).

Section WithEngine.
Context `{RegexEngine}.

Definition analyze_line_with_llm (reply : llm_reply) (line : string)
    : py (option (string * string * bool)) :=
  let body : py (option (string * string * bool)) :=
    result <~ match reply with
              | AskFailed => Raise RuntimeError
              | NotJson => Raise JSONDecodeError
              | NotObject => Raise TypeError
              | Object fields => Return fields
              end ;;
    regex <~ getitem result "regex" ;;
    _ <~ py_compile regex ;;
    m <~ re_match regex line ;;
    if negb m then Return None
    else
      utility <~ getitem result "utility_name" ;;
      Return (Some (regex, utility, false)) in
  match body with
  | Return r => Return r
  | Raise JSONDecodeError => Raise RuntimeError
  | Raise KeyError => Raise RuntimeError
  | Raise re_error => Return None
  | Raise _ => Return None
  end.

(** "Try existing patterns first". *)
Fixpoint find_match (line : string) (patterns : list LogPattern)
    : py (option LogPattern) :=
  match patterns with
  | [] => Return None
  | pattern :: rest =>
      match matches pattern line with
      | Return true => Return (Some pattern)
      | Return false => find_match line rest
      | Raise re_error => find_match line rest
      | Raise e => Raise e
      end
  end.

(** The pause after every tenth line. *)
Definition pause (line_num : nat) (st : run_state) : run_state * status :=
  if (line_num mod 10 =? 0)%nat then
    match stdin st with
    | [] => (st, Raised EOFError)
    | a :: rest =>
        let st' := {| self := self st; new_patterns := new_patterns st;
                      llm_queries := llm_queries st; stdin := rest;
                      stdout := stdout st |} in
        if String.eqb (add_pattern.lower a) "q" then (st', Break)
        else (st', Next)
    end
  else (st, Next).

(** The body of the loop of [process_unprocessed_log] for a line that
    is not blank. *)
Definition process_line (ask : oracle) (st : run_state)
    (line_num : nat) (line : string) : run_state * status :=
  let '(ps, self1) := patterns (self st) in
  let st1 := with_self st self1 in
  match find_match line ps with
  | Raise e => (st1, Raised e)
  | Return (Some matching_pattern) =>
      pause line_num (print st1 (Matched matching_pattern))
  | Return None =>
      let st2 := count_query st1 in
      match analyze_line_with_llm (ask (llm_queries st2) line) line with
      | Raise e => (st2, Raised e)
      | Return (Some result) => pause line_num (ingest st2 result)
      | Return None => pause line_num (print st2 FailedToCreate)
      end
  end.

(** The loop over [enumerate(log.log.splitlines(), 1)]. *)
Fixpoint process_lines (ask : oracle) (st : run_state)
    (lines : list (nat * string)) : run_state * py unit :=
  match lines with
  | [] => (st, Return tt)
  | (line_num, line) :: rest =>
      if negb (PyStr.truthy (PyStr.strip line))
      then process_lines ask st rest
      else
        match process_line ask st line_num line with
        | (st', Next) => process_lines ask st' rest
        | (st', Break) => (st', Return tt)
        | (st', Raised e) => (st', Raise e)
        end
  end.

(** [process_unprocessed_log], given the text of the log that the log
    store picked ([None] when none is left).  The log store itself
    only hands out that text and records the processed flag. *)
Definition process_unprocessed_log (ask : oracle) (parser : LLMParser)
    (log : option string) (input : list string)
    : run_state * py bool :=
  let st0 := {| self := parser; new_patterns := ∅; llm_queries := 0;
                stdin := input; stdout := [] |} in
  match log with
  | None => (st0, Return false)
  | Some text =>
      let '(st, r) :=
        process_lines ask st0
          (imap (fun i line => (S i, line)) (PyStr.splitlines text)) in
      (st, _ <~ r ;; Return true)
  end.

End WithEngine.

End llm_parser.

(** ** Vocabulary of the statements

    What the loops above compute, said without the loops. *)

Module Spec.
Import log_patterns.
Local Open Scope list_scope.

(** A line feed, the separator between the lines of a log. *)
Definition newline : string := String "010"%char EmptyString.

(** [not line.strip()] *)
Definition blank (line : string) : bool :=
  negb (PyStr.truthy (PyStr.strip line)).

(** The lines of a text that the loops look at. *)
Definition real_lines (text : string) : list string :=
  List.filter (fun l => negb (blank l)) (PyStr.splitlines text).

(** The rows of a snapshot that belong to utility [u], as the pairs
    that [_initialize_mappings] groups. *)
Definition patterns_of (u : string) (ps : list LogPattern)
    : list (string * bool) :=
  List.map (fun p => (regex p, is_error p))
    (List.filter (fun p => String.eqb (utility_name p) u) ps).

(** The utility names of a snapshot, as a set. *)
Definition utilities (ps : list LogPattern) : gset string :=
  list_to_set (utility_name <$> ps).

(** [d.get(u, [])] on a dictionary kept as an association list. *)
Fixpoint dict_get (d : list (string * list (string * bool))) (u : string)
    : list (string * bool) :=
  match d with
  | [] => []
  | (k, vs) :: d' => if String.eqb k u then vs else dict_get d' u
  end.

(** Coordinate-wise sum. *)
Definition vadd (a b : list Z) : list Z := zip_with Z.add a b.

Definition vsum (n : nat) (vs : list (list Z)) : list Z :=
  foldr vadd (replicate n 0%Z) vs.

Section WithEngine.
Context `{RegexEngine}.

(** Does [regex] compile and match [line] from its start? *)
Definition accepts (regex line : string) : bool :=
  match re_compile regex with
  | Some c => compiled_match c line
  | None => false
  end.

(** The error flag of the first pair of [patterns] whose regex
    accepts [line]. *)
Definition first_hit (line : string) (patterns : list (string * bool))
    : option bool :=
  snd <$> List.find (fun rp => accepts (fst rp) line) patterns.

Definition counts_as_error (line : string)
    (patterns : list (string * bool)) : bool :=
  match first_hit line patterns with
  | Some true => true
  | _ => false
  end.

(** By how much one line raises coordinate [j] when the loop over
    [items] uses the index [m]. *)
Fixpoint hit_count (m : gmap string nat) (line : string) (j : nat)
    (items : list (string * list (string * bool))) : Z :=
  match items with
  | [] => 0
  | (u, patterns) :: rest =>
      ((if bool_decide (m !! u = Some j) && counts_as_error line patterns
        then 1 else 0)
       + hit_count m line j rest)%Z
  end.

Fixpoint line_total (m : gmap string nat)
    (items : list (string * list (string * bool))) (j : nat)
    (lines : list string) : Z :=
  match lines with
  | [] => 0
  | l :: rest =>
      ((if blank l then 0 else hit_count m l j items)
       + line_total m items j rest)%Z
  end.

(** The vector that the loops build from [lines], coordinate by
    coordinate. *)
Definition total_vector (self : embeddings.EmbeddingGenerator)
    (lines : list string) : list Z :=
  (fun j => line_total (embeddings._utility_mapping self)
              (embeddings._patterns_by_utility self) j lines)
    <$> seq 0 (embeddings.dimension self).

(** How many of [lines] count as an error of utility [u]. *)
Definition error_lines (u : string) (ps : list LogPattern)
    (lines : list string) : Z :=
  Z.of_nat
    (length (List.filter (fun l => counts_as_error l (patterns_of u ps))
               lines)).

End WithEngine.

(** Rows in rowid order. *)
Definition ids_increasing (ps : list LogPattern) : Prop :=
  StronglySorted (fun p q => (id p < id q)%Z) ps.

(** The grouping and the index of a generator built from [ps]. *)
Definition grouped (ps : list LogPattern)
    : list (string * list (string * bool)) :=
  embeddings._patterns_by_utility (embeddings._initialize_mappings ps).

(** [{name: idx for idx, name in enumerate(names)}] *)
Definition index_of (names : list string) : gmap string nat :=
  foldl (fun m '(idx, name) => <[name := idx]> m) ∅ (embeddings.enumerate names).

(** Every key of the grouping has a coordinate inside the vector. *)
Definition indexed (m : gmap string nat) (n : nat)
    (items : list (string * list (string * bool))) : Prop :=
  forall u, u ∈ items.*1 -> exists i, m !! u = Some i /\ i < n.

(** The rows that a session has added to the store of [st0] by the time
    it is in [st]: none of them is an error pattern, no regex occurs
    twice among them, and their regexes are what [llm_parser.new_patterns] has
    gained. *)
Definition grown (st0 st : llm_parser.run_state) : Prop :=
  exists added,
    rows (llm_parser.pattern_store (llm_parser.self st))
      = rows (llm_parser.pattern_store (llm_parser.self st0)) ++ added
    /\ Forall (fun p => is_error p = false) added
    /\ NoDup (regex <$> added)
    /\ (forall r, r ∈ llm_parser.new_patterns st <->
                  r ∈ llm_parser.new_patterns st0 \/ r ∈ regex <$> added)
    /\ (forall r, r ∈ regex <$> added -> r ∉ llm_parser.new_patterns st0).

(** In a run of [process_unprocessed_log] a regex in [new_patterns] is
    the regex of a cached pattern, so a line for which the oracle
    proposes it again is matched by that pattern before the oracle is
    asked: the summary of a run never shows "skipping duplicate". *)
Definition covered (st : llm_parser.run_state) : Prop :=
  (forall r, r ∈ llm_parser.new_patterns st ->
     exists p, p ∈ (llm_parser.patterns (llm_parser.self st)).1 /\ regex p = r)
  /\ llm_parser.SkippedDuplicate ∉ llm_parser.stdout st.

(** The pattern id that a line of the ingestion summary shows. *)
Definition shown_id (ev : llm_parser.event) : option Z :=
  match ev with
  | llm_parser.Added pattern_id _ _ _ => Some pattern_id
  | _ => None
  end.

End Spec.

(** ** The scenario of the specification's section 8 *)

Module Scenario.
Import log_patterns.

Definition userdel_pattern : LogPattern :=
  {| id := 1; regex := "^userdel\[\d+\]: delete user '(.*)'$";
     utility_name := "userdel"; is_error := false;
     need_reviewing := true |}.

Definition build_pattern : LogPattern :=
  {| id := 2; regex := "^Building target platforms: (\w+)$";
     utility_name := "build"; is_error := false; need_reviewing := true |}.

Definition pattern_set : list LogPattern := [userdel_pattern; build_pattern].

Definition syslog_line : string :=
  "<86>May 16 05:13:18 userdel[616177]: delete user 'rooter'".

Definition build_line : string := "Building target platforms: x86_64".

Definition log_text : string := syslog_line ++ Spec.newline ++ build_line.

(** The build pattern without its final [$]. *)
Definition open_ended : LogPattern :=
  {| id := 3; regex := "^Building target platforms: (\w+)";
     utility_name := "build"; is_error := false; need_reviewing := true |}.

(** The userdel pattern without its initial [^]. *)
Definition unanchored : LogPattern :=
  {| id := 4; regex := "userdel\[\d+\]: delete user '(.*)'$";
     utility_name := "userdel"; is_error := false;
     need_reviewing := true |}.

(** A stored row whose regex does not compile. *)
Definition bad_pattern : LogPattern :=
  {| id := 1; regex := "(unclosed"; utility_name := "u";
     is_error := false; need_reviewing := true |}.

Definition empty_store : LogPatternStore := {| rows := [] |}.

(** What the user types into [add_pattern.main]: a line, yes to a new
    pattern, a regex that does not compile, 3 to cancel, then answers
    to the two prompts that follow. *)
Definition cancel_script : list string :=
  ["x"; "y"; "(unclosed"; "3"; "u"; "n"].

(** An oracle that proposes the same regex for every line, and a log of
    two lines of which the regex matches the first only. *)
Definition same_proposal : llm_parser.oracle :=
  fun _ _ =>
    llm_parser.Object {[ "regex" := "^a$"; "utility_name" := "u" ]}.

Definition two_lines : string := "a" ++ Spec.newline ++ "b".

(** Two error patterns of different utilities that both accept a line
    starting with "make: error". *)
Definition make_error : LogPattern :=
  {| id := 1; regex := "^make: .*$"; utility_name := "make";
     is_error := true; need_reviewing := false |}.

Definition any_error : LogPattern :=
  {| id := 2; regex := "^.*error"; utility_name := "generic";
     is_error := true; need_reviewing := false |}.

Definition error_line : string := "make: error 2".

Definition three_utilities : list LogPattern :=
  [ {| id := 1; regex := "npm ERR!.*"; utility_name := "npm";
       is_error := true; need_reviewing := true |};
    {| id := 2; regex := "gcc:.*error:.*"; utility_name := "gcc";
       is_error := true; need_reviewing := true |};
    {| id := 3; regex := "make\[\d+\]:.*"; utility_name := "make";
       is_error := true; need_reviewing := true |};
    {| id := 4; regex := "gcc:.*warning:.*"; utility_name := "gcc";
       is_error := false; need_reviewing := true |} ].

End Scenario.

(** ** log_patterns.py, the rest of the store *)

Module log_patterns_more.
Import log_patterns.

(** [get_pattern]: the row with that id, if there is one. *)
Definition get_pattern (self : LogPatternStore) (pattern_id : Z)
    : option LogPattern :=
  List.find (fun p => Z.eqb (id p) pattern_id) (rows self).

(** A row after [UPDATE patterns SET need_reviewing = FALSE]. *)
Definition reviewed (p : LogPattern) : LogPattern :=
  {| id := id p; regex := regex p; utility_name := utility_name p;
     is_error := is_error p; need_reviewing := false |}.

Definition review (pattern_id : Z) (p : LogPattern) : LogPattern :=
  if Z.eqb (id p) pattern_id then reviewed p else p.

Definition mark_reviewed (self : LogPatternStore) (pattern_id : Z)
    : LogPatternStore :=
  {| rows := review pattern_id <$> rows self |}.

End log_patterns_more.

(** ** embeddings.py, the [utility_names] property *)

Module embeddings_more.
Import embeddings.

(** The key of [sorted(..., key=lambda x: x[1])]. *)
Definition by_index (a b : string * nat) : Prop := a.2 <= b.2.

#[export] Instance by_index_dec (a b : string * nat) : Decision (by_index a b).
Proof. unfold by_index. apply _. Defined.

(** [utility_names]: the names in the order of their indices.  The
    items of the dictionary are taken in the order of a [gmap], which
    is not the insertion order of the Python dictionary; the two agree
    after sorting as soon as no two names share an index. *)
Definition utility_names (self : EmbeddingGenerator) : list string :=
  (merge_sort by_index (map_to_list (_utility_mapping self))).*1.

End embeddings_more.

(** ** More vocabulary *)

Module SpecMore.
Import log_patterns.

Section WithEngine.
Context `{RegexEngine}.

(** Does [re.compile(regex)] succeed? *)
Definition compiles (regex : string) : bool :=
  match re_compile regex with
  | Some _ => true
  | None => false
  end.

End WithEngine.

(** What holds of a row of the store while [main] runs, given the rows
    [before] it started: the row was there from the start, or it was
    entered with a regex and a utility name that are not empty and is
    flagged for review. *)
Definition kept_or_entered (before : list LogPattern) (p : LogPattern)
    : Prop :=
  p ∈ before
  \/ (PyStr.truthy (regex p) = true /\ PyStr.truthy (utility_name p) = true
      /\ need_reviewing p = true).

(** The same three error patterns in two store orders that keep the
    order within each utility. *)
Definition make_first : list LogPattern :=
  [ {| id := 1; regex := "^make: .*$"; utility_name := "make";
       is_error := true; need_reviewing := false |};
    {| id := 2; regex := "^gcc: error"; utility_name := "gcc";
       is_error := true; need_reviewing := false |};
    {| id := 3; regex := "^make\[\d+\]: .*$"; utility_name := "make";
       is_error := false; need_reviewing := false |} ].

Definition gcc_first : list LogPattern :=
  [ {| id := 1; regex := "^gcc: error"; utility_name := "gcc";
       is_error := true; need_reviewing := false |};
    {| id := 2; regex := "^make: .*$"; utility_name := "make";
       is_error := true; need_reviewing := false |};
    {| id := 3; regex := "^make\[\d+\]: .*$"; utility_name := "make";
       is_error := false; need_reviewing := false |} ].

End SpecMore.

(** ** llm_parser.py, what a run leaves behind *)

Module llm_parser_more.
Import log_patterns llm_parser.

(** The row that an "Added new pattern" entry of the summary stands
    for. *)
Definition event_row (ev : event) : option LogPattern :=
  match ev with
  | Added pattern_id utility regex is_error =>
      Some {| id := pattern_id; regex := regex; utility_name := utility;
              is_error := is_error; need_reviewing := true |}
  | _ => None
  end.

(** The entries of the summary that follow a query to the oracle. *)
Definition after_query (ev : event) : bool :=
  match ev with
  | Matched _ => false
  | _ => true
  end.

(** What matching and counting use of a row: everything but the
    utility name. *)
Definition matching_view (p : LogPattern) : Z * string * bool * bool :=
  (id p, regex p, is_error p, need_reviewing p).

(** The cache, when loaded, has the rows of the store, utility names
    apart: a utility name that the oracle gave as a number is kept as
    it came in the cache and as text in the store. *)
Definition agrees (parser : LLMParser) : Prop :=
  match _patterns parser with
  | None => True
  | Some ps =>
      matching_view <$> ps = matching_view <$> rows (pattern_store parser)
  end.

(** A reply that cannot make [analyze_line_with_llm] raise: the request
    failed, the JSON is not an object, or the object has both keys. *)
Definition well_formed (reply : llm_reply) : Prop :=
  match reply with
  | AskFailed | NotObject => True
  | NotJson => False
  | Object fields =>
      is_Some (fields !! "regex") /\ is_Some (fields !! "utility_name")
  end.

Section WithEngine.
Context `{RegexEngine}.

(** What holds of a row that a run over [lines] has added. *)
Definition from_oracle (lines : list string) (p : LogPattern) : Prop :=
  need_reviewing p = true /\ is_error p = false
  /\ exists l, l ∈ lines /\ Spec.blank l = false
              /\ Spec.accepts (regex p) l = true.

(** The rows that the summary reports are the rows that the store has
    gained. *)
Definition logged (lines : list string) (parser : LLMParser)
    (st : run_state) : Prop :=
  rows (pattern_store (self st))
    = (rows (pattern_store parser) ++ omap event_row (stdout st))%list
  /\ Forall (from_oracle lines) (omap event_row (stdout st)).

(** The counter of queries agrees with the summary. *)
Definition counted (st : run_state) : Prop :=
  llm_queries st = length (List.filter after_query (stdout st)).

End WithEngine.

(** A parser as [LLMParser()] builds it over a store. *)
Definition new_parser (store : LogPatternStore) : LLMParser :=
  {| pattern_store := store; _patterns := None |}.

End llm_parser_more.

(** ** log_storage.py *)

Module log_storage.
Local Open Scope list_scope.

Record LogFile : Type := {
  id : Z;
  packet_name : string;
  architecture : string;
  date : string;
  error : bool;
  log : string;
  processed : bool
}.

(** The [logs] table, rows in rowid order as for the patterns, and
    with the same range of ids for [lastrowid]. *)
Record LogStorage : Type := { rows : list LogFile }.

Definition lastrowid (rs : list LogFile) : Z :=
  foldr (fun l m => Z.max (id l) m) 0%Z rs.

Definition add_log (self : LogStorage)
    (packet_name architecture date : string) (error : bool) (log : string)
    (processed : bool) : Z * LogStorage :=
  let i := (lastrowid (rows self) + 1)%Z in
  (i, {| rows := rows self ++
                 [{| id := i; packet_name := packet_name;
                     architecture := architecture; date := date;
                     error := error; log := log;
                     processed := processed |}] |}).

Definition get_log (self : LogStorage) (log_id : Z) : option LogFile :=
  List.find (fun l => Z.eqb (id l) log_id) (rows self).

Definition get_all_logs (self : LogStorage) : list LogFile := rows self.

(** A row after [UPDATE logs SET processed = TRUE]. *)
Definition done (l : LogFile) : LogFile :=
  {| id := id l; packet_name := packet_name l;
     architecture := architecture l; date := date l; error := error l;
     log := log l; processed := true |}.

Definition mark (log_id : Z) (l : LogFile) : LogFile :=
  if Z.eqb (id l) log_id then done l else l.

Definition mark_as_processed (self : LogStorage) (log_id : Z) : LogStorage :=
  {| rows := mark log_id <$> rows self |}.

(** [WHERE processed = FALSE] *)
Definition unprocessed (rs : list LogFile) : list LogFile :=
  List.filter (fun l => negb (processed l)) rs.

(** [LIMIT n]: a negative [n] is no limit. *)
Definition sql_limit {A} (n : Z) (rs : list A) : list A :=
  if (n <? 0)%Z then rs else take (Z.to_nat n) rs.

Definition get_first_unprocessed_log (self : LogStorage) : option LogFile :=
  head (sql_limit 1 (unprocessed (rows self))).

(** [ORDER BY RANDOM()]: the rows sorted by a key drawn for each of
    them; [random i] is the key that the [i]-th row of the selection
    gets. *)
Definition by_key (a b : Z * LogFile) : Prop := (a.1 <= b.1)%Z.

#[export] Instance by_key_dec (a b : Z * LogFile) : Decision (by_key a b).
Proof. unfold by_key. apply _. Defined.

Definition order_by_random (random : nat -> Z) (rs : list LogFile)
    : list LogFile :=
  (merge_sort by_key (imap (fun i l => (random i, l)) rs)).*2.

(** [get_random_unprocessed_log]: [rows[0]] of the shuffled selection,
    [None] when [fetchall()] is empty. *)
Definition get_random_unprocessed_log (random : nat -> Z)
    (self : LogStorage) (limit : Z) : option LogFile :=
  head (sql_limit limit (order_by_random random (unprocessed (rows self)))).

End log_storage.

(** ** llm_parser.py, with the log store *)

Module llm_parser_run.
Import llm_parser.
Local Open Scope list_scope.

Section WithEngine.
Context `{RegexEngine}.

(** [process_unprocessed_log] as a whole: the log is drawn from the log
    store and is marked as processed once the loop over its lines has
    ended without an exception. *)
Definition process_unprocessed_log (random : nat -> Z) (ask : oracle)
    (parser : LLMParser) (logs : log_storage.LogStorage)
    (input : list string)
    : run_state * log_storage.LogStorage * py bool :=
  let log := log_storage.get_random_unprocessed_log random logs 30 in
  let '(st, r) :=
    llm_parser.process_unprocessed_log ask parser
      (log_storage.log <$> log) input in
  match log, r with
  | Some l, Return _ =>
      (st, log_storage.mark_as_processed logs (log_storage.id l), r)
  | _, _ => (st, logs, r)
  end.

(** [run]: [while self.process_unprocessed_log(): pass].  The [k]-th
    call draws its own random keys and gets its own replies.  [None]
    is a loop that [fuel] calls did not end. *)
Fixpoint run_loop (fuel k : nat) (random : nat -> nat -> Z)
    (ask : nat -> oracle) (parser : LLMParser)
    (logs : log_storage.LogStorage) (input : list string)
    : option (LLMParser * log_storage.LogStorage * list string * py unit) :=
  match fuel with
  | O => None
  | S fuel' =>
      match process_unprocessed_log (random k) (ask k) parser logs input with
      | (st, logs', Return true) =>
          run_loop fuel' (S k) random ask (self st) logs' (stdin st)
      | (st, logs', Return false) =>
          Some (self st, logs', stdin st, Return tt)
      | (st, logs', Raise e) => Some (self st, logs', stdin st, Raise e)
      end
  end.

Definition run (random : nat -> nat -> Z) (ask : nat -> oracle)
    (parser : LLMParser) (logs : log_storage.LogStorage)
    (input : list string)
    : option (LLMParser * log_storage.LogStorage * list string * py unit) :=
  run_loop (S (length (log_storage.unprocessed (log_storage.rows logs))))
    0 random ask parser logs input.

End WithEngine.

End llm_parser_run.

(** ** interactive_parser.py *)

Module interactive_parser.
Import log_patterns.
Local Open Scope list_scope.

Record InteractiveParser : Type := {
  log_storage : log_storage.LogStorage;
  pattern_store : LogPatternStore
}.

(** [get_unprocessed_log]: [limit] is left at its default. *)
Definition get_unprocessed_log (random : nat -> Z) (self : InteractiveParser)
    : option log_storage.LogFile :=
  log_storage.get_random_unprocessed_log random (log_storage self) 30.

Section WithEngine.
Context `{RegexEngine}.

(** [len(match.groups())]: the number of capturing groups of the
    compiled expression. *)
Variable groups : compiled -> nat.

Definition invalid_regex_warning (p : LogPattern) : string :=
  "Warning: Invalid regex pattern: " ++ regex p.

(** [parse_line]: the lines it prints, and what it returns. *)
Fixpoint parse_line (line : string) (patterns : list LogPattern)
    : list string * py (option LogPattern) :=
  match patterns with
  | [] => ([], Return None)
  | pattern :: rest =>
      match matches pattern line with
      | Return true => ([], Return (Some pattern))
      | Return false => parse_line line rest
      | Raise re_error =>
          let '(out, r) := parse_line line rest in
          (invalid_regex_warning pattern :: out, r)
      | Raise e => ([], Raise e)
      end
  end.

(** The first loop of [ask_for_new_pattern]: the input that is left,
    and the regex it ends with; [None] is the user giving up with [q]
    or with choice 4. *)
Fixpoint read_pattern (line : string) (stdin : list string)
    : list string * py (option string) :=
  match stdin with
  | [] => ([], Raise EOFError)
  | r :: in1 =>
      let regex := PyStr.strip r in
      if String.eqb (add_pattern.lower regex) "q" then (in1, Return None)
      else
        match re_compile regex with
        | Some pattern =>
            (* the capture groups of the match, if there are any *)
            let captures (rest : list string) :=
              if compiled_match pattern line && (0 <? groups pattern)%nat
              then
                match rest with
                | [] => ([], Raise EOFError)
                | a :: rest' =>
                    if negb (String.eqb (add_pattern.lower a) "y")
                    then read_pattern line rest'
                    else (rest', Return (Some regex))
                end
              else (rest, Return (Some regex)) in
            if negb (compiled_match pattern line) then
              match in1 with
              | [] => ([], Raise EOFError)
              | retry :: in2 =>
                  if String.eqb (add_pattern.lower retry) "y"
                  then read_pattern line in2
                  else if String.eqb (add_pattern.lower retry) "n" then
                    match in2 with
                    | [] => ([], Raise EOFError)
                    | a :: in3 =>
                        if negb (String.eqb (add_pattern.lower a) "y")
                        then read_pattern line in3
                        else captures in3
                    end
                  else captures in2
              end
            else captures in1
        | None =>
            match in1 with
            | [] => ([], Raise EOFError)
            | ch :: in2 =>
                let choice := PyStr.strip ch in
                if String.eqb choice "2" then read_pattern line in2
                else if String.eqb choice "3" then read_pattern line in2
                else if String.eqb choice "4" then (in2, Return None)
                else read_pattern line in2
            end
        end
  end.

(** The loop that reads [y] or [n]. *)
Fixpoint read_error_flag (stdin : list string)
    : list string * py string :=
  match stdin with
  | [] => ([], Raise EOFError)
  | a :: rest =>
      let error_str := add_pattern.lower (PyStr.strip a) in
      if String.eqb error_str "y" || String.eqb error_str "n"
      then (rest, Return error_str)
      else read_error_flag rest
  end.

(** [ask_for_new_pattern]: [None] stands for the triple of [None]s. *)
Definition ask_for_new_pattern (line : string) (stdin : list string)
    : list string * py (option (string * string * bool)) :=
  match read_pattern line stdin with
  | (in1, Raise e) => (in1, Raise e)
  | (in1, Return None) => (in1, Return None)
  | (in1, Return (Some regex)) =>
      match in1 with
      | [] => ([], Raise EOFError)
      | u :: in2 =>
          let utility := PyStr.strip u in
          match read_error_flag in2 with
          | (in3, Raise e) => (in3, Raise e)
          | (in3, Return error_str) =>
              (in3, Return (Some (regex, utility, String.eqb error_str "y")))
          end
      end
  end.

(** What the loop of [process_log] carries from line to line: the
    store, the local list [patterns] and the input that is left. *)
Record loop_state : Type := {
  store : LogPatternStore;
  patterns : list LogPattern;
  stdin : list string
}.

(** "Allow user to skip to next file", every tenth line. *)
Definition ask_continue (i : nat) (st : loop_state)
    : loop_state * llm_parser.status :=
  if (i mod 10 =? 0)%nat then
    match stdin st with
    | [] => (st, llm_parser.Raised EOFError)
    | a :: rest =>
        let st' := {| store := store st; patterns := patterns st;
                      stdin := rest |} in
        if negb (String.eqb (add_pattern.lower a) "y")
        then (st', llm_parser.Break)
        else (st', llm_parser.Next)
    end
  else (st, llm_parser.Next).

(** The body of the loop of [process_log] for a line that is not
    blank. *)
Definition process_line (st : loop_state) (i : nat) (line : string)
    : loop_state * llm_parser.status :=
  match parse_line line (patterns st) with
  | (_, Raise e) => (st, llm_parser.Raised e)
  | (_, Return (Some matching_pattern)) => ask_continue i st
  | (_, Return None) =>
      match stdin st with
      | [] => (st, llm_parser.Raised EOFError)
      | a :: in1 =>
          let st1 := {| store := store st; patterns := patterns st;
                        stdin := in1 |} in
          if String.eqb (add_pattern.lower a) "y" then
            match ask_for_new_pattern line in1 with
            | (in2, Raise e) =>
                ({| store := store st; patterns := patterns st;
                    stdin := in2 |}, llm_parser.Raised e)
            | (in2, Return None) =>
                (* [continue]: the question after ten lines is skipped *)
                ({| store := store st; patterns := patterns st;
                    stdin := in2 |}, llm_parser.Next)
            | (in2, Return (Some (regex, utility, is_error))) =>
                let '(pattern_id, store') :=
                  add_pattern (store st) regex utility is_error true in
                ask_continue i
                  {| store := store'; patterns := get_all_patterns store';
                     stdin := in2 |}
            end
          else ask_continue i st1
      end
  end.

(** The loop over [enumerate(lines, 1)]. *)
Fixpoint process_lines (st : loop_state) (lines : list (nat * string))
    : loop_state * py unit :=
  match lines with
  | [] => (st, Return tt)
  | (i, line) :: rest =>
      if negb (PyStr.truthy (PyStr.strip line))
      then process_lines st rest
      else
        match process_line st i line with
        | (st', llm_parser.Next) => process_lines st' rest
        | (st', llm_parser.Break) => (st', Return tt)
        | (st', llm_parser.Raised e) => (st', Raise e)
        end
  end.

(** [process_log]: the log is marked as processed when the loop has
    ended without an exception. *)
Definition process_log (self : InteractiveParser)
    (log : log_storage.LogFile) (input : list string)
    : InteractiveParser * list string * py unit :=
  let st0 := {| store := pattern_store self;
                patterns := get_all_patterns (pattern_store self);
                stdin := input |} in
  let lines := PyStr.splitlines (log_storage.log log) in
  match process_lines st0 (imap (fun i line => (S i, line)) lines) with
  | (st, Return _) =>
      ({| log_storage :=
            log_storage.mark_as_processed (log_storage self)
              (log_storage.id log);
          pattern_store := store st |}, stdin st, Return tt)
  | (st, Raise e) =>
      ({| log_storage := log_storage self; pattern_store := store st |},
       stdin st, Raise e)
  end.

(** [run]: the [k]-th turn of the loop draws its own random keys.
    [None] is a loop that [fuel] turns did not end. *)
Fixpoint run_loop (fuel k : nat) (random : nat -> nat -> Z)
    (self : InteractiveParser) (input : list string)
    : option (InteractiveParser * list string * py unit) :=
  match fuel with
  | O => None
  | S fuel' =>
      match get_unprocessed_log (random k) self with
      | None => Some (self, input, Return tt)
      | Some log =>
          match process_log self log input with
          | (self', in1, Raise e) => Some (self', in1, Raise e)
          | (self', in1, Return _) =>
              match in1 with
              | [] => Some (self', [], Raise EOFError)
              | a :: in2 =>
                  if negb (String.eqb (add_pattern.lower a) "y")
                  then Some (self', in2, Return tt)
                  else run_loop fuel' (S k) random self' in2
              end
          end
      end
  end.

Definition run (random : nat -> nat -> Z) (self : InteractiveParser)
    (input : list string)
    : option (InteractiveParser * list string * py unit) :=
  run_loop
    (S (length (log_storage.unprocessed
                  (log_storage.rows (log_storage self)))))
    0 random self input.

End WithEngine.

End interactive_parser.

(** ** interactive_parser.py, what its loops keep *)

Module interactive_parser_more.
Import Spec SpecMore log_patterns interactive_parser.
Local Open Scope list_scope.

Section WithEngine.
Context `{RegexEngine}.

(** What [read_pattern] can end with. *)
Definition read_pattern_ok (stdin : list string)
    (out : list string * py (option string)) : Prop :=
  match out.2 with
  | Raise e => e = EOFError
  | Return None => length out.1 < length stdin
  | Return (Some regex) =>
      compiles regex = true /\ add_pattern.lower regex <> "q"
      /\ length out.1 < length stdin
  end.

(** What [ask_for_new_pattern] can end with. *)
Definition ask_ok (stdin : list string)
    (out : list string * py (option (string * string * bool))) : Prop :=
  match out.2 with
  | Raise e => e = EOFError
  | Return None => length out.1 < length stdin
  | Return (Some (regex, utility, is_error)) =>
      compiles regex = true /\ add_pattern.lower regex <> "q"
      /\ length out.1 < length stdin
  end.

(** What holds between the state at the start of the loop of
    [process_log] and a later one: the local list is the content of the
    store, and the store has gained [added]. *)
Definition extended (st0 st : loop_state) (added : list LogPattern) : Prop :=
  rows (store st) = rows (store st0) ++ added
  /\ patterns st = rows (store st)
  /\ Forall (fun p => compiles (regex p) = true
                      /\ add_pattern.lower (regex p) <> "q"
                      /\ need_reviewing p = true) added
  /\ (ids_increasing (rows (store st0)) -> ids_increasing (rows (store st))).

End WithEngine.

End interactive_parser_more.

(** ** process_errors.py *)

Module process_errors.
Local Open Scope list_scope.

Definition ERROR_KEYWORDS : list string :=
  [ "\berror\b"; "\bfailed\b"; "\bfailure\b"; "\bfatal\b"; "\berror:";
    "\bfailed:"; "\bfailure:"; "\bfatal:"; "\bundefined reference\b";
    "\bcannot find\b"; "\bnot found\b"; "\bcompilation failed\b";
    "\bcommand failed\b"; "make: \*\*\* \["; "\bsegmentation fault\b";
    "\bassertion failed\b"; "\bpermission denied\b"; "\bno such file\b";
    "\bsyntax error\b"; "\blinker error\b"; "\bmissing\b"; "\brequired by\b";
    "\bconflicts\b" ].

(** [s.startswith(prefix)] *)
Fixpoint startswith (s prefix : string) : bool :=
  match prefix, s with
  | EmptyString, _ => true
  | String c prefix', String d s' => Ascii.eqb c d && startswith s' prefix'
  | String _ _, EmptyString => false
  end.

(** [s.endswith(suffix)] *)
Definition endswith (s suffix : string) : bool :=
  let n := String.length s in
  let m := String.length suffix in
  (m <=? n)%nat && String.eqb (String.substring (n - m) m s) suffix.

(** [range(start, stop)] *)
Definition range (start stop : Z) : list Z := seqZ start (stop - start).

(** [lines[i]]: a negative index counts from the end. *)
Definition getitem (lines : list string) (i : Z) : py string :=
  let n := Z.of_nat (length lines) in
  let j := if (i <? 0)%Z then (i + n)%Z else i in
  if (j <? 0)%Z then Raise IndexError
  else
    match lines !! Z.to_nat j with
    | Some line => Return line
    | None => Raise IndexError
    end.

Section WithSearch.

(** [re.compile(pattern, re.IGNORECASE).search(line)] finds something.
    The expressions use [\b], which is outside the fragment of
    [PyRe], so the search is left to the caller. *)
Variable search : string -> string -> bool.

(** The lines that the loop of [find_error_windows] passes over. *)
Definition skipped (line : string) : bool :=
  startswith line "+"
  || search "\bwarning\b" line
  || (startswith (add_pattern.lower line) "checking"
      && endswith (PyStr.rstrip (add_pattern.lower line)) "yes").

(** [any(pattern.search(line) for pattern in ERROR_PATTERNS)] *)
Definition has_keyword (line : string) : bool :=
  existsb (fun pattern => search pattern line) ERROR_KEYWORDS.

(** The loop of [find_error_windows] over [enumerate(lines)]; [len] is
    [len(lines)]. *)
Fixpoint scan (len window_size : Z) (numbered : list (nat * string))
    (line_numbers : gset Z) : gset Z :=
  match numbered with
  | [] => line_numbers
  | (i, line) :: rest =>
      let line := PyStr.strip line in
      if skipped line then scan len window_size rest line_numbers
      else if has_keyword line then
        let start := Z.max 0 (Z.of_nat i - window_size) in
        let stop := Z.min len (Z.of_nat i + window_size + 1) in
        scan len window_size rest
          (line_numbers ∪ list_to_set (range start stop))
      else scan len window_size rest line_numbers
  end.

Definition find_error_windows (lines : list string) (window_size : Z)
    : gset Z :=
  scan (Z.of_nat (length lines)) window_size (embeddings.enumerate lines) ∅.

(** The loop of [process_log_file] that writes [lines[i]] for the
    sorted line numbers: what has been written, and whether indexing
    raised. *)
Fixpoint write_lines (lines : list string) (line_numbers : list Z)
    (written : list string) : list string * py unit :=
  match line_numbers with
  | [] => (written, Return tt)
  | i :: rest =>
      match getitem lines i with
      | Return line => write_lines lines rest (written ++ [line])
      | Raise e => (written, Raise e)
      end
  end.

(** [process_log_file] on the lines that [readlines()] gave: what it
    returns, and the content of the output file ([None] when the file
    is not opened).  An exception inside is caught and turned into
    [False]. *)
Definition process_log_file (lines : list string)
    : bool * option (list string) :=
  let line_numbers := find_error_windows lines 2 in
  if decide (line_numbers = ∅) then (false, None)
  else
    match write_lines lines (merge_sort Z.le (elements line_numbers)) [] with
    | (written, Return _) => (true, Some written)
    | (written, Raise _) => (false, Some written)
    end.

(** A line that opens a window: not passed over, and with a keyword. *)
Definition reported (line : string) : bool :=
  negb (skipped (PyStr.strip line)) && has_keyword (PyStr.strip line).

(** The lines of [lines] whose number [find_error_windows] returns, in
    the order of the file. *)
Definition window_lines (lines : list string) (window_size : Z)
    : list string :=
  (filter (fun il : nat * string =>
             Z.of_nat il.1 ∈ find_error_windows lines window_size)
          (embeddings.enumerate lines)).*2.

End WithSearch.

End process_errors.

(** ** update_utilities.py *)

Module update_utilities.
Import log_patterns.
Local Open Scope list_scope.

(** SQLite's [LOWER]: only the letters A to Z change. *)
Definition LOWER_char (c : ascii) : ascii :=
  let n := PyStr.code c in
  if PyRe.between 65 90 n then ascii_of_N (n + 32) else c.

Fixpoint LOWER (s : string) : string :=
  match s with
  | EmptyString => EmptyString
  | String c s' => String (LOWER_char c) (LOWER s')
  end.

(** [load_whitelist], from the lines of the file. *)
Definition load_whitelist (file : list string) : gset string :=
  list_to_set
    ((fun line => add_pattern.lower (PyStr.strip line))
       <$> List.filter (fun line => PyStr.truthy (PyStr.strip line)) file).

(** [UPDATE patterns SET regex = LOWER(regex)] on one row. *)
Definition lower_regex (p : LogPattern) : LogPattern :=
  {| id := id p; regex := LOWER (regex p); utility_name := utility_name p;
     is_error := is_error p; need_reviewing := need_reviewing p |}.

(** [UPDATE patterns SET utility_name = LOWER(utility_name)] on one
    row. *)
Definition lower_utility_name (p : LogPattern) : LogPattern :=
  {| id := id p; regex := regex p; utility_name := LOWER (utility_name p);
     is_error := is_error p; need_reviewing := need_reviewing p |}.

(** [UPDATE patterns SET utility_name = 'unknown', need_reviewing = 1
    WHERE utility_name = ?] on one row. *)
Definition set_unknown (util : string) (p : LogPattern) : LogPattern :=
  if String.eqb (utility_name p) util then
    {| id := id p; regex := regex p; utility_name := "unknown";
       is_error := is_error p; need_reviewing := true |}
  else p.

(** [update_utilities], on the table and the lines of the whitelist
    file ([None] when the file is missing).  The columns of type TEXT
    are [regex] and [utility_name]; the set [invalid_utilities] is gone
    through in the order of its elements. *)
Definition update_utilities (store : LogPatternStore)
    (whitelist_file : option (list string)) : LogPatternStore :=
  match whitelist_file with
  | None => store
  | Some file =>
      let whitelist := load_whitelist file in
      let lowered := lower_utility_name <$> (lower_regex <$> rows store) in
      let db_utilities : gset string :=
        list_to_set (utility_name <$> lowered) in
      let invalid_utilities := db_utilities ∖ whitelist in
      if decide (invalid_utilities = ∅) then {| rows := lowered |}
      else
        {| rows := foldl (fun rs util => set_unknown util <$> rs) lowered
                     (elements invalid_utilities) |}
  end.

(** What [update_utilities] makes of one row. *)
Definition normalised (whitelist : gset string) (p : LogPattern)
    : LogPattern :=
  if decide (LOWER (utility_name p) ∈ whitelist) then
    {| id := id p; regex := LOWER (regex p);
       utility_name := LOWER (utility_name p);
       is_error := is_error p; need_reviewing := need_reviewing p |}
  else
    {| id := id p; regex := LOWER (regex p); utility_name := "unknown";
       is_error := is_error p; need_reviewing := true |}.

(** A pattern with a class in upper case, and a line it matches. *)
Definition word_pattern : LogPattern :=
  {| id := 1; regex := "^\S+: error"; utility_name := "gcc";
     is_error := true; need_reviewing := false |}.

Definition word_line : string := "gcc: error: no input files".

End update_utilities.

(** ** Stores for the examples *)

Module ScenarioMore.
Import log_patterns.

(** A log table with one processed log and one that is not. *)
Definition two_logs : log_storage.LogStorage :=
  {| log_storage.rows :=
       [ {| log_storage.id := 1; log_storage.packet_name := "bash";
            log_storage.architecture := "x86_64";
            log_storage.date := "1715836398.0"; log_storage.error := true;
            log_storage.log := "make: error 2";
            log_storage.processed := true |};
         {| log_storage.id := 2; log_storage.packet_name := "gcc";
            log_storage.architecture := "x86_64";
            log_storage.date := "1715836399.0"; log_storage.error := true;
            log_storage.log := "gcc: error: no input files";
            log_storage.processed := false |} ] |}.

End ScenarioMore.

(** * Properties *)

(** ** Strings *)

Section PyStrFacts.
Import PyStr.

Lemma rstrip_empty_iff s : rstrip s = EmptyString <-> all_space s = true.
Proof.
  induction s as [|c s IH]; simpl; [tauto|].
  destruct (rstrip s) eqn:E.
  - destruct (isspace c); simpl.
    + rewrite <- IH. tauto.
    + split; discriminate.
  - split; [discriminate|].
    intros [_ Hs]%andb_true_iff. apply IH in Hs. discriminate.
Qed.

Lemma lstrip_all_space s : all_space (lstrip s) = all_space s.
Proof.
  induction s as [|c s IH]; simpl; [reflexivity|].
  destruct (isspace c) eqn:E; simpl; [exact IH|].
  rewrite E. reflexivity.
Qed.

Lemma strip_empty_iff s : strip s = EmptyString <-> all_space s = true.
Proof. unfold strip. rewrite rstrip_empty_iff, lstrip_all_space. tauto. Qed.

Lemma blank_iff s : Spec.blank s = true <-> all_space s = true.
Proof.
  unfold Spec.blank. rewrite <- strip_empty_iff.
  destruct (strip s); simpl; split; congruence.
Qed.

Lemma all_space_app a b :
  all_space (a ++ b) = all_space a && all_space b.
Proof.
  induction a as [|c a IH]; simpl; [reflexivity|].
  rewrite IH, andb_assoc. reflexivity.
Qed.

Lemma splitlines_nil s : splitlines s = [] -> s = EmptyString.
Proof.
  destruct s as [|c s]; simpl; [reflexivity|].
  destruct (is_cr c).
  - destruct s as [|d s]; [discriminate|]. destruct (is_lf d); discriminate.
  - destruct (is_linebreak c); [discriminate|].
    destruct (splitlines s); discriminate.
Qed.

Lemma append_cons c a b : (String c a ++ b)%string = String c (a ++ b).
Proof. reflexivity. Qed.

Lemma append_nil b : (EmptyString ++ b)%string = b.
Proof. reflexivity. Qed.

Lemma splitlines_join_aux n : forall t1 t2,
  String.length t1 <= n ->
  splitlines (t1 ++ Spec.newline ++ t2)
    = (splitlines t1 ++ splitlines t2)%list
  \/ splitlines (t1 ++ Spec.newline ++ t2)
    = (splitlines t1 ++ EmptyString :: splitlines t2)%list.
Proof.
  induction n as [|n IH]; intros t1 t2 Hn.
  - destruct t1; [|simpl in Hn; lia]. right. reflexivity.
  - destruct t1 as [|c t1]; [right; reflexivity|].
    simpl in Hn. rewrite append_cons. cbn [splitlines].
    destruct (is_cr c).
    + destruct t1 as [|d t1]; [left; reflexivity|].
      rewrite append_cons. destruct (is_lf d).
      * destruct (IH t1 t2) as [E|E]; [simpl in Hn; lia | |];
          rewrite E; [left|right]; reflexivity.
      * destruct (IH (String d t1) t2) as [E|E]; [lia | |];
          rewrite append_cons in E; rewrite E; [left|right]; reflexivity.
    + destruct (is_linebreak c).
      * destruct (IH t1 t2) as [E|E]; [lia | |];
          rewrite E; [left|right]; reflexivity.
      * destruct (splitlines t1) as [|l ls] eqn:El.
        -- apply splitlines_nil in El. subst t1. left. reflexivity.
        -- destruct (IH t1 t2) as [E|E]; [lia | |];
             rewrite E, El; [left|right]; reflexivity.
Qed.

Lemma splitlines_join t1 t2 :
  splitlines (t1 ++ Spec.newline ++ t2)
    = (splitlines t1 ++ splitlines t2)%list
  \/ splitlines (t1 ++ Spec.newline ++ t2)
    = (splitlines t1 ++ EmptyString :: splitlines t2)%list.
Proof. apply (splitlines_join_aux (String.length t1)). lia. Qed.

Lemma real_lines_join t1 t2 :
  Spec.real_lines (t1 ++ Spec.newline ++ t2)
    = (Spec.real_lines t1 ++ Spec.real_lines t2)%list.
Proof.
  unfold Spec.real_lines.
  destruct (splitlines_join t1 t2) as [E|E]; rewrite E, List.filter_app;
    reflexivity.
Qed.

(** Every line of a text made of whitespace is blank. *)
Lemma splitlines_all_space_aux n : forall b,
  String.length b <= n -> all_space b = true ->
  Forall (fun l => all_space l = true) (splitlines b).
Proof.
  induction n as [|n IH]; intros b Hn Hb.
  - destruct b; [constructor | simpl in Hn; lia].
  - destruct b as [|c b]; [constructor|].
    simpl in Hn, Hb. apply andb_true_iff in Hb as [Hc Hb].
    cbn [splitlines]. destruct (is_cr c).
    + destruct b as [|d b]; [repeat constructor|].
      destruct (is_lf d).
      * constructor; [reflexivity|]. apply IH; [simpl in Hn; lia|].
        simpl in Hb. apply andb_true_iff in Hb. tauto.
      * constructor; [reflexivity|]. apply IH; [lia | exact Hb].
    + destruct (is_linebreak c).
      * constructor; [reflexivity|]. apply IH; [lia | exact Hb].
      * specialize (IH b ltac:(lia) Hb).
        destruct (splitlines b) as [|l ls].
        -- constructor; [simpl; rewrite Hc; reflexivity | constructor].
        -- inversion IH; subst. constructor; [|assumption].
           simpl. rewrite Hc. assumption.
Qed.

Lemma real_lines_blank b : Spec.blank b = true -> Spec.real_lines b = [].
Proof.
  intros Hb%blank_iff. unfold Spec.real_lines.
  pose proof (splitlines_all_space_aux _ b (le_n _) Hb) as HF.
  induction HF as [|l ls Hl _ IH]; [reflexivity|].
  simpl. apply blank_iff in Hl. rewrite Hl. exact IH.
Qed.

End PyStrFacts.

(** ** The matcher against what an expression denotes *)

Section PyReFacts.
Import PyRe.
Local Open Scope list_scope.

Lemma still_bol_nil bol : still_bol bol [] = bol.
Proof. unfold still_bol. apply andb_true_r. Qed.

Lemma still_bol_cons bol c w : still_bol bol (c :: w) = false.
Proof. unfold still_bol. apply andb_false_r. Qed.

Lemma still_bol_app bol w1 w2 :
  still_bol (still_bol bol w1) w2 = still_bol bol (w1 ++ w2).
Proof.
  destruct w1; simpl.
  - rewrite still_bol_nil. reflexivity.
  - rewrite !still_bol_cons. reflexivity.
Qed.


Lemma star_loop_sound r k :
  mt_correct r ->
  forall n b s0,
    star_loop (mt r) k n b s0 = true ->
    exists w t, s0 = w ++ t /\ Matches (Star r) b w t /\
                k (still_bol b w) t = true.
Proof.
  intros Hr. induction n as [|n IH]; intros b s0 Hs; simpl in Hs.
  - exists [], s0. rewrite still_bol_nil. repeat split; [constructor | exact Hs].
  - apply orb_true_iff in Hs as [Hs|Hs].
    + apply Hr in Hs as (w1 & t1 & -> & Hm & Hk).
      destruct (length t1 <? length (w1 ++ t1))%nat; [|discriminate].
      apply IH in Hk as (w2 & t & -> & Hm2 & Hk).
      exists (w1 ++ w2), t. rewrite still_bol_app in Hk.
      rewrite <- app_assoc. repeat split; [|exact Hk].
      econstructor; eassumption.
    + exists [], s0. rewrite still_bol_nil.
      repeat split; [constructor | exact Hs].
Qed.

Lemma star_loop_complete r k :
  mt_correct r ->
  forall sr b w t, Matches sr b w t -> sr = Star r ->
  k (still_bol b w) t = true ->
  forall n, (length (w ++ t) <= n)%nat ->
  star_loop (mt r) k n b (w ++ t) = true.
Proof.
  intros Hr sr b w t Hm.
  induction Hm as [| | | | | | | | | r0 b t | r0 b w1 w2 t Hm1 _ Hm2 IH2];
    try discriminate; intros [= ->] Hk n Hn.
  - rewrite still_bol_nil in Hk.
    destruct n; simpl; [exact Hk|]. rewrite Hk. apply orb_true_r.
  - rewrite <- still_bol_app in Hk.
    destruct w1 as [|c w1].
    + rewrite still_bol_nil in *. simpl. apply IH2; auto.
    + destruct n as [|n]; [simpl in Hn; lia|].
      cbn [star_loop]. apply orb_true_iff. left.
      apply Hr. exists (c :: w1), (w2 ++ t).
      rewrite <- app_assoc. repeat split; [exact Hm1|].
      replace (length (w2 ++ t) <? length ((c :: w1) ++ w2 ++ t))%nat
        with true.
      * apply IH2; [reflexivity | exact Hk |].
        rewrite <- app_assoc in Hn. simpl in Hn.
        rewrite !length_app in *. lia.
      * symmetry. apply Nat.ltb_lt. simpl. rewrite !length_app. lia.
Qed.

Lemma mt_spec r : mt_correct r.
Proof.
  induction r as [|c| |neg items| | |r1 IH1 r2 IH2|r1 IH1 r2 IH2|r IH];
    intros bol s k; simpl.
  - split.
    + intros Hk. exists [], s. rewrite still_bol_nil.
      repeat split; [constructor | exact Hk].
    + intros (w & t & -> & Hm & Hk). inversion Hm; subst.
      rewrite still_bol_nil in Hk. exact Hk.
  - split.
    + destruct s as [|d s]; [discriminate|].
      destruct (Ascii.eqb_spec d c) as [->|]; [|discriminate].
      intros Hk. exists [c], s. rewrite still_bol_cons.
      repeat split; [constructor | exact Hk].
    + intros (w & t & -> & Hm & Hk). inversion Hm; subst. simpl.
      rewrite Ascii.eqb_refl. rewrite still_bol_cons in Hk. exact Hk.
  - split.
    + destruct s as [|d s]; [discriminate|].
      destruct (PyStr.is_lf d) eqn:E; [discriminate|].
      intros Hk. exists [d], s. rewrite still_bol_cons.
      repeat split; [constructor; exact E | exact Hk].
    + intros (w & t & -> & Hm & Hk). inversion Hm; subst. simpl.
      match goal with E : PyStr.is_lf _ = false |- _ => rewrite E end.
      rewrite still_bol_cons in Hk. exact Hk.
  - split.
    + destruct s as [|d s]; [discriminate|].
      destruct (set_mem neg items d) eqn:E; [|discriminate].
      intros Hk. exists [d], s. rewrite still_bol_cons.
      repeat split; [constructor; exact E | exact Hk].
    + intros (w & t & -> & Hm & Hk). inversion Hm; subst. simpl.
      match goal with E : set_mem _ _ _ = true |- _ => rewrite E end.
      rewrite still_bol_cons in Hk. exact Hk.
  - split.
    + destruct bol; [|discriminate]. intros Hk. exists [], s.
      repeat split; [constructor | exact Hk].
    + intros (w & t & -> & Hm & Hk). inversion Hm; subst. exact Hk.
  - split.
    + destruct (at_end s) eqn:E; [|discriminate]. intros Hk.
      exists [], s. rewrite still_bol_nil.
      repeat split; [constructor; exact E | exact Hk].
    + intros (w & t & -> & Hm & Hk). inversion Hm; subst. simpl.
      match goal with E : at_end _ = true |- _ => rewrite E end.
      rewrite still_bol_nil in Hk. exact Hk.
  - split.
    + intros (w1 & t1 & -> & Hm1 & (w2 & t & -> & Hm2 & Hk)%IH2)%IH1.
      exists (w1 ++ w2), t. rewrite still_bol_app in Hk.
      rewrite <- app_assoc. repeat split; [|exact Hk].
      econstructor; eassumption.
    + intros (w & t & -> & Hm & Hk). inversion Hm; subst.
      apply IH1. exists w1, (w2 ++ t). rewrite <- app_assoc.
      repeat split; [assumption|].
      apply IH2. exists w2, t. rewrite still_bol_app.
      repeat split; assumption.
  - rewrite orb_true_iff, (IH1 bol s k), (IH2 bol s k). split.
    + intros [(w & t & -> & Hm & Hk)|(w & t & -> & Hm & Hk)];
        exists w, t; repeat split; try assumption;
        [apply MAltL | apply MAltR]; assumption.
    + intros (w & t & -> & Hm & Hk). inversion Hm; subst;
        [left|right]; exists w, t; repeat split; assumption.
  - split.
    + apply star_loop_sound. exact IH.
    + intros (w & t & -> & Hm & Hk).
      eapply star_loop_complete; eauto.
Qed.

(** [match] looks for a match at the start of the line and nowhere
    else: it succeeds exactly when some prefix of the line is matched
    by the expression. *)
Lemma match_prefix_spec r line :
  match_prefix r line = true <->
  exists w t, list_ascii_of_string line = w ++ t /\ Matches r true w t.
Proof.
  unfold match_prefix.
  rewrite (mt_spec r true (list_ascii_of_string line) (fun _ _ => true)).
  split.
  - intros (w & t & E & Hm & _). eauto.
  - intros (w & t & E & Hm). eauto 6.
Qed.

Lemma Matches_any_tail r bol w t :
  Matches r bol w t -> has_eol r = false -> forall t', Matches r bol w t'.
Proof.
  induction 1; simpl; intros He t'; try discriminate;
    try (apply orb_false_iff in He as [He1 He2]);
    solve [constructor; auto].
Qed.

Lemma list_ascii_of_string_app a b :
  list_ascii_of_string (a ++ b)%string
    = list_ascii_of_string a ++ list_ascii_of_string b.
Proof.
  induction a as [|c a IH]; [reflexivity|].
  change (String c a ++ b)%string with (String c (a ++ b)%string).
  simpl. rewrite IH. reflexivity.
Qed.

(** An expression without [$] accepts every extension of a line it
    accepts. *)
Lemma match_prefix_extend r line extra :
  has_eol r = false ->
  match_prefix r line = true ->
  match_prefix r (line ++ extra)%string = true.
Proof.
  intros He (w & t & E & Hm)%match_prefix_spec.
  apply match_prefix_spec.
  exists w, (t ++ list_ascii_of_string extra).
  rewrite list_ascii_of_string_app, E, app_assoc. split; [reflexivity|].
  eapply Matches_any_tail; eassumption.
Qed.

End PyReFacts.

(** ** Classification of a line *)

Section Classification.
Context `{RegexEngine}.
Import log_patterns add_pattern llm_parser.
Local Open Scope list_scope.

Lemma matches_accepts p line :
  matches p line = Return (Spec.accepts (regex p) line).
Proof.
  unfold matches, re_match, py_compile, Spec.accepts.
  destruct (re_compile (regex p)); reflexivity.
Qed.

Lemma matches_invalid_regex p line :
  re_compile (regex p) = None -> matches p line = Return false.
Proof.
  intros E. rewrite matches_accepts. unfold Spec.accepts. rewrite E.
  reflexivity.
Qed.

Lemma parse_line_find line ps :
  (parse_line line ps).2
    = Return (List.find (fun p => Spec.accepts (regex p) line) ps).
Proof.
  induction ps as [|p ps IH]; [reflexivity|].
  simpl. rewrite matches_accepts.
  destruct (Spec.accepts (regex p) line); [reflexivity | exact IH].
Qed.

(** The handler of [parse_line] that prints the warning is never
    entered, because [matches] has already caught [re.error]. *)
Lemma parse_line_prints_nothing line ps : (parse_line line ps).1 = [].
Proof.
  induction ps as [|p ps IH]; [reflexivity|].
  simpl. rewrite matches_accepts.
  destruct (Spec.accepts (regex p) line); [reflexivity | exact IH].
Qed.

Lemma parse_line_skips_invalid line p ps :
  re_compile (regex p) = None ->
  parse_line line (p :: ps) = parse_line line ps.
Proof. intros E. simpl. rewrite (matches_invalid_regex _ _ E). reflexivity. Qed.

Lemma find_match_find line ps :
  find_match line ps
    = Return (List.find (fun p => Spec.accepts (regex p) line) ps).
Proof.
  induction ps as [|p ps IH]; [reflexivity|].
  simpl. rewrite matches_accepts.
  destruct (Spec.accepts (regex p) line); [reflexivity | exact IH].
Qed.

Lemma find_first {A} (f : A -> bool) l r :
  List.find f l = Some r <->
  exists l1 l2, l = l1 ++ r :: l2 /\ f r = true /\
                Forall (fun x => f x = false) l1.
Proof.
  induction l as [|x l IH]; simpl.
  - split; [discriminate|]. intros (l1 & l2 & E & _). destruct l1; discriminate.
  - destruct (f x) eqn:Ex.
    + split.
      * intros [= ->]. exists [], l. auto.
      * intros ([|y l1] & l2 & E & Hr & Hl1); simplify_eq/=; [reflexivity|].
        inversion Hl1; congruence.
    + rewrite IH. split.
      * intros (l1 & l2 & -> & Hr & Hl1). exists (x :: l1), l2. auto.
      * intros ([|y l1] & l2 & E & Hr & Hl1); simplify_eq/=; [congruence|].
        inversion Hl1; subst. eauto.
Qed.

Lemma find_none_iff {A} (f : A -> bool) l :
  List.find f l = None <-> forall x, x ∈ l -> f x = false.
Proof.
  induction l as [|x l IH]; simpl.
  - split; [|reflexivity]. intros _ x Hx. inversion Hx.
  - destruct (f x) eqn:Ex.
    + split; [discriminate|]. intros Hall.
      rewrite Hall in Ex by constructor. discriminate.
    + rewrite IH. split.
      * intros Hall y Hy. inversion Hy; subst; auto.
      * intros Hall y Hy. apply Hall. constructor. exact Hy.
Qed.

(** A new row goes after every row of the table. *)
Lemma lastrowid_ge rs p : p ∈ rs -> (id p <= lastrowid rs)%Z.
Proof.
  induction rs as [|q rs IH]; intros Hp; inversion Hp; subst; simpl.
  - lia.
  - specialize (IH ltac:(assumption)). lia.
Qed.

Lemma add_pattern_ids_increasing store r u e n :
  Spec.ids_increasing (rows store) ->
  Spec.ids_increasing (rows (add_pattern store r u e n).2).
Proof.
  unfold Spec.ids_increasing. intros Hs. simpl.
  apply StronglySorted_app_2; [| exact Hs | repeat constructor].
  intros p q Hp Hq. apply list_elem_of_singleton in Hq as ->. simpl.
  pose proof (lastrowid_ge _ _ Hp). lia.
Qed.

Lemma find_lowest line ps r p :
  Spec.ids_increasing ps ->
  List.find (fun p => Spec.accepts (regex p) line) ps = Some r ->
  p ∈ ps -> Spec.accepts (regex p) line = true ->
  p = r \/ (id r < id p)%Z.
Proof.
  intros Hs (l1 & l2 & -> & Hr & Hl1)%find_first Hp Hmp.
  apply elem_of_app in Hp as [Hp|Hp].
  - rewrite Forall_forall in Hl1. apply Hl1 in Hp. congruence.
  - apply elem_of_cons in Hp as [->|Hp]; [left; reflexivity|]. right.
    apply StronglySorted_app_1_r in Hs.
    apply StronglySorted_inv in Hs as [_ Hs].
    rewrite Forall_forall in Hs. apply Hs, Hp.
Qed.

(** C2.  [parse_line] (and the loop of [process_unprocessed_log] that
    does the same over the cached snapshot) walks the snapshot in store
    order and returns the first pattern that matches the line, nothing
    when none matches; so, for a snapshot in rowid order, the matching
    pattern with the lowest id is the one returned, and of two matching
    patterns the one with the higher id never is. *)
Theorem classify_first_match line ps :
  let found := List.find (fun p => Spec.accepts (regex p) line) ps in
  (parse_line line ps).2 = Return found
  /\ find_match line ps = Return found
  /\ (forall r, found = Some r <->
        exists l1 l2, ps = l1 ++ r :: l2 /\ matches r line = Return true /\
                      Forall (fun x => matches x line = Return false) l1)
  /\ (found = None <-> forall p, p ∈ ps -> matches p line = Return false)
  /\ (forall p,
        Spec.ids_increasing ps -> p ∈ ps ->
        matches p line = Return true ->
        (forall x, x ∈ ps -> matches x line = Return true ->
                   (id p <= id x)%Z) ->
        found = Some p)
  /\ (forall p q,
        Spec.ids_increasing ps -> p ∈ ps -> q ∈ ps ->
        matches p line = Return true -> matches q line = Return true ->
        (id p < id q)%Z ->
        exists r, found = Some r /\ (id r <= id p)%Z /\ r <> q).
Proof.
  intros found. subst found.
  split; [apply parse_line_find|]. split; [apply find_match_find|].
  split; [|split; [|split]].
  - intros r. rewrite find_first. setoid_rewrite matches_accepts.
    split; intros (l1 & l2 & E & Hr & Hl1); exists l1, l2;
      (split; [exact E|]); split.
    + rewrite Hr. reflexivity.
    + eapply Forall_impl; [exact Hl1|]. intros x ->. reflexivity.
    + congruence.
    + eapply Forall_impl; [exact Hl1|]. simpl. congruence.
  - rewrite find_none_iff. setoid_rewrite matches_accepts.
    split; intros Hall p Hp; specialize (Hall p Hp); congruence.
  - intros p Hs Hp Hmp Hlow. rewrite matches_accepts in Hmp.
    destruct (List.find (fun p => Spec.accepts (regex p) line) ps)
      as [r|] eqn:Ef.
    + destruct (find_lowest _ _ _ _ Hs Ef Hp) as [->|Hlt];
        [congruence | reflexivity |].
      pose proof Ef as (l1 & l2 & -> & Hr & _)%find_first.
      assert (id p <= id r)%Z; [|lia].
      apply Hlow; [set_solver|]. rewrite matches_accepts, Hr. reflexivity.
    + apply find_none_iff with (x := p) in Ef; [congruence | exact Hp].
  - intros p q Hs Hp Hq Hmp Hmq Hlt.
    rewrite matches_accepts in Hmp, Hmq.
    destruct (List.find (fun p => Spec.accepts (regex p) line) ps)
      as [r|] eqn:Ef.
    + exists r. split; [reflexivity|].
      assert (Hle : (id r <= id p)%Z).
      { destruct (find_lowest _ _ _ _ Hs Ef Hp) as [->|?];
          [congruence | lia | lia]. }
      split; [exact Hle|]. intros ->. lia.
    + apply find_none_iff with (x := p) in Ef; [congruence | exact Hp].
Qed.

End Classification.

(** ** The utility index *)

Section UtilityIndex.
Import Spec.
Import log_patterns embeddings.
Local Open Scope list_scope.

Lemma ascii_compare_refl x : Ascii.compare x x = Eq.
Proof. unfold Ascii.compare. apply N.compare_refl. Qed.

Lemma string_compare_refl a : String.compare a a = Eq.
Proof.
  induction a as [|x a IH]; [reflexivity|].
  simpl. rewrite ascii_compare_refl. exact IH.
Qed.

Lemma string_leb_trans a : forall b c,
  String.leb a b = true -> String.leb b c = true -> String.leb a c = true.
Proof.
  unfold String.leb.
  induction a as [|x a IH]; intros [|y b] [|z c]; simpl; try congruence.
  unfold Ascii.compare in *.
  destruct (N.compare_spec (N_of_ascii x) (N_of_ascii y)) as [Exy|Hxy|Hxy];
    try congruence;
    destruct (N.compare_spec (N_of_ascii y) (N_of_ascii z)) as [Eyz|Hyz|Hyz];
    try congruence.
  - rewrite Exy, Eyz, N.compare_refl. apply IH.
  - rewrite Exy. rewrite (proj2 (N.compare_lt_iff _ _) Hyz). congruence.
  - rewrite <- Eyz. rewrite (proj2 (N.compare_lt_iff _ _) Hxy). congruence.
  - rewrite (proj2 (N.compare_lt_iff _ _) (N.lt_trans _ _ _ Hxy Hyz)).
    congruence.
Qed.

#[local] Instance str_le_trans : Transitive str_le.
Proof. intros a b c. apply string_leb_trans. Qed.

#[local] Instance str_le_total : Total str_le.
Proof. intros a b. apply String.leb_total. Qed.

#[local] Instance str_le_antisym : AntiSymm (=) str_le.
Proof. intros a b. apply String.leb_antisym. Qed.

Lemma str_le_refl a : str_le a a.
Proof. unfold str_le, String.leb. rewrite string_compare_refl. reflexivity. Qed.

Lemma ltb_iff_le_ne a b : String.ltb a b = true <-> str_le a b /\ a <> b.
Proof.
  unfold str_le, String.leb, String.ltb.
  destruct (String.compare a b) eqn:E.
  - apply String.compare_eq_iff in E. subst. split; [discriminate|].
    intros [_ Hne]. congruence.
  - split; [|reflexivity]. intros _. split; [reflexivity|].
    intros ->. rewrite string_compare_refl in E. discriminate.
  - split; [discriminate|]. intros [? _]. discriminate.
Qed.

Lemma sorted_perm names : sorted names ≡ₚ names.
Proof. apply merge_sort_Permutation. Qed.

Lemma sorted_strongly names : StronglySorted str_le (sorted names).
Proof. apply StronglySorted_merge_sort; apply _. Qed.

(** *** The dictionary that groups the rows *)

Lemma dict_append_keys d k v u :
  u ∈ (dict_append d k v).*1 <-> u = k \/ u ∈ d.*1.
Proof.
  induction d as [|[k' vs] d IH]; simpl.
  - rewrite list_elem_of_singleton. set_solver.
  - destruct (String.eqb_spec k' k) as [->|Hne]; simpl.
    + set_solver.
    + rewrite !elem_of_cons, IH. tauto.
Qed.

Lemma dict_append_NoDup d k v :
  NoDup d.*1 -> NoDup (dict_append d k v).*1.
Proof.
  induction d as [|[k' vs] d IH]; simpl; intros Hd.
  - apply NoDup_singleton.
  - apply NoDup_cons in Hd as [Hk' Hd].
    destruct (String.eqb_spec k' k) as [->|Hne]; simpl.
    + apply NoDup_cons. auto.
    + apply NoDup_cons. split; [|auto].
      rewrite dict_append_keys. intros [?|?]; [congruence | contradiction].
Qed.

Lemma dict_get_append d k v u :
  Spec.dict_get (dict_append d k v) u
    = Spec.dict_get d u ++ (if String.eqb k u then [v] else []).
Proof.
  induction d as [|[k' vs] d IH]; simpl.
  - reflexivity.
  - destruct (String.eqb_spec k' k) as [->|Hne]; simpl.
    + destruct (String.eqb k u); [reflexivity | symmetry; apply app_nil_r].
    + destruct (String.eqb_spec k' u) as [->|Hne'].
      * destruct (String.eqb_spec k u); [congruence | symmetry; apply app_nil_r].
      * exact IH.
Qed.

Lemma dict_get_elem d u vs :
  NoDup d.*1 -> ((u, vs) ∈ d <-> u ∈ d.*1 /\ Spec.dict_get d u = vs).
Proof.
  induction d as [|[k' ws] d IH]; simpl; intros Hd.
  - set_solver.
  - apply NoDup_cons in Hd as [Hk' Hd]. specialize (IH Hd).
    rewrite !elem_of_cons, IH.
    destruct (String.eqb_spec k' u) as [->|Hne].
    + split.
      * intros [[= <-]|[Hu _]]; [auto | contradiction].
      * intros [_ <-]. auto.
    + split.
      * intros [[= -> ->]|[Hu Hg]]; [congruence | auto].
      * intros [[->|Hu] Hg]; [congruence | auto].
Qed.


Lemma grouped_snoc ps p :
  grouped (ps ++ [p])
    = dict_append (grouped ps) (utility_name p) (regex p, is_error p).
Proof. unfold grouped, _initialize_mappings. simpl. rewrite foldl_app. reflexivity. Qed.

Lemma patterns_of_snoc u ps p :
  Spec.patterns_of u (ps ++ [p])
    = Spec.patterns_of u ps
      ++ (if String.eqb (utility_name p) u then [(regex p, is_error p)]
          else []).
Proof.
  unfold Spec.patterns_of. rewrite List.filter_app, List.map_app. simpl.
  destruct (String.eqb (utility_name p) u); reflexivity.
Qed.

Lemma patterns_of_app u ps qs :
  Spec.patterns_of u (ps ++ qs)
    = Spec.patterns_of u ps ++ Spec.patterns_of u qs.
Proof. unfold Spec.patterns_of. rewrite List.filter_app. apply List.map_app. Qed.

Lemma grouped_spec ps :
  NoDup (grouped ps).*1
  /\ (forall u, u ∈ (grouped ps).*1 <-> u ∈ Spec.utilities ps)
  /\ (forall u, Spec.dict_get (grouped ps) u = Spec.patterns_of u ps).
Proof.
  induction ps as [|p ps (Hnd & Hkeys & Hget)] using rev_ind.
  - repeat split; try constructor; set_solver.
  - rewrite grouped_snoc. split; [|split].
    + apply dict_append_NoDup, Hnd.
    + intros u. rewrite dict_append_keys, Hkeys. unfold Spec.utilities.
      rewrite fmap_app. set_solver.
    + intros u. rewrite dict_get_append, Hget, patterns_of_snoc.
      reflexivity.
Qed.

(** *** The index built from the sorted keys *)


Lemma index_of_snoc names x :
  index_of (names ++ [x]) = <[x := length names]> (index_of names).
Proof.
  unfold index_of, enumerate. rewrite imap_app, foldl_app. simpl.
  rewrite Nat.add_0_r. reflexivity.
Qed.

Lemma index_of_lookup names :
  NoDup names ->
  forall u i, index_of names !! u = Some i <-> names !! i = Some u.
Proof.
  induction names as [|x names IH] using rev_ind; intros Hnd u i.
  - unfold index_of. simpl. rewrite lookup_empty. split; discriminate.
  - apply NoDup_app in Hnd as (Hnd & Hx & _). rewrite index_of_snoc.
    destruct (decide (u = x)) as [->|Hne].
    + rewrite lookup_insert_eq. split.
      * intros [= <-]. rewrite lookup_app_r, Nat.sub_diag by lia. reflexivity.
      * intros Hi. f_equal.
        destruct (decide (i < length names)) as [Hlt|Hge].
        -- rewrite lookup_app_l in Hi by exact Hlt.
           apply list_elem_of_lookup_2 in Hi. exfalso.
           apply (Hx x); [exact Hi | constructor].
        -- apply lookup_lt_Some in Hi. rewrite length_app in Hi.
           simpl in Hi. lia.
    + rewrite lookup_insert_ne by congruence. rewrite (IH Hnd). split.
      * intros Hi. rewrite lookup_app_l; [exact Hi|].
        eapply lookup_lt_Some, Hi.
      * intros Hi.
        destruct (decide (i < length names)) as [Hlt|Hge].
        -- rewrite lookup_app_l in Hi by exact Hlt. exact Hi.
        -- rewrite lookup_app_r in Hi by lia.
           destruct (i - length names); simpl in Hi; [congruence|].
           discriminate.
Qed.

Lemma index_of_size names : NoDup names -> size (index_of names) = length names.
Proof.
  induction names as [|x names IH] using rev_ind; intros Hnd.
  - reflexivity.
  - apply NoDup_app in Hnd as (Hnd & Hx & _). rewrite index_of_snoc.
    assert (index_of names !! x = None) as Hnone.
    { destruct (index_of names !! x) as [i|] eqn:E; [|reflexivity].
      apply (index_of_lookup _ Hnd) in E.
      apply list_elem_of_lookup_2 in E. exfalso.
      apply (Hx x); [exact E | constructor]. }
    rewrite (map_size_insert_None _ _ _ Hnone), (IH Hnd), length_app.
    simpl. lia.
Qed.

End UtilityIndex.

Section UtilityIndexClaim.
Import Spec.
Import log_patterns embeddings.
Local Open Scope list_scope.

Lemma StronglySorted_lookup_lt {A} (R : relation A) l :
  StronglySorted R l ->
  forall i j x y, l !! i = Some x -> l !! j = Some y -> i < j -> R x y.
Proof.
  induction 1 as [|a l _ IH Hall]; intros i j x y Hi Hj Hlt.
  - discriminate.
  - destruct j as [|j]; [lia|]. simpl in Hj. destruct i as [|i]; simpl in Hi.
    + injection Hi as <-. rewrite Forall_forall in Hall.
      apply Hall. eapply list_elem_of_lookup_2, Hj.
    + apply (IH i j); [assumption .. | lia].
Qed.

Lemma mapping_is_index ps :
  _utility_mapping (_initialize_mappings ps)
    = index_of (sorted (grouped ps).*1).
Proof. reflexivity. Qed.

Lemma sorted_keys_NoDup ps : NoDup (sorted (grouped ps).*1).
Proof. rewrite sorted_perm. apply grouped_spec. Qed.

Lemma mapping_lookup ps u i :
  _utility_mapping (_initialize_mappings ps) !! u = Some i
  <-> sorted (grouped ps).*1 !! i = Some u.
Proof. rewrite mapping_is_index. apply index_of_lookup, sorted_keys_NoDup. Qed.

Lemma dimension_keys ps :
  dimension (_initialize_mappings ps) = length (grouped ps).*1.
Proof.
  unfold dimension. rewrite mapping_is_index.
  rewrite index_of_size by apply sorted_keys_NoDup.
  apply Permutation_length, sorted_perm.
Qed.

Lemma mapping_bound ps u i :
  _utility_mapping (_initialize_mappings ps) !! u = Some i ->
  i < dimension (_initialize_mappings ps).
Proof.
  intros Hi%mapping_lookup%lookup_lt_Some.
  rewrite dimension_keys, <- (Permutation_length (sorted_perm _)). exact Hi.
Qed.

Lemma mapping_dom ps u :
  is_Some (_utility_mapping (_initialize_mappings ps) !! u)
  <-> u ∈ Spec.utilities ps.
Proof.
  destruct (grouped_spec ps) as (_ & Hkeys & _).
  rewrite <- Hkeys, <- (sorted_perm (grouped ps).*1). split.
  - intros [i Hi%mapping_lookup]. eapply list_elem_of_lookup_2, Hi.
  - intros [i Hi]%list_elem_of_lookup_1. exists i.
    apply mapping_lookup, Hi.
Qed.

Lemma mapping_inj ps u v i :
  _utility_mapping (_initialize_mappings ps) !! u = Some i ->
  _utility_mapping (_initialize_mappings ps) !! v = Some i ->
  u = v.
Proof. rewrite !mapping_lookup. congruence. Qed.

(** C5.  The utility index maps the distinct utility names of the
    snapshot one-to-one onto the coordinates 0..N-1, in the
    lexicographic order of the names, and the dimension N is the number
    of distinct names; for the names gcc, make and npm the index is
    gcc:0, make:1, npm:2 and the dimension is 3. *)
Theorem utility_index_bijection ps :
  let g := _initialize_mappings ps in
  let m := _utility_mapping g in
  dimension g = size (Spec.utilities ps)
  /\ (forall u, is_Some (m !! u) <-> u ∈ Spec.utilities ps)
  /\ (forall u i, m !! u = Some i -> i < dimension g)
  /\ (forall i, i < dimension g -> exists u, m !! u = Some i)
  /\ (forall u v i, m !! u = Some i -> m !! v = Some i -> u = v)
  /\ (forall u v i j, m !! u = Some i -> m !! v = Some j ->
        (i < j <-> String.ltb u v = true))
  /\ (Spec.utilities ps = {[ "gcc"; "make"; "npm" ]} ->
        m !! "gcc" = Some 0 /\ m !! "make" = Some 1 /\ m !! "npm" = Some 2
        /\ dimension g = 3).
Proof.
  intros g m.
  assert (Hdim : dimension g = size (Spec.utilities ps)).
  { subst g. rewrite dimension_keys.
    destruct (grouped_spec ps) as (Hnd & Hkeys & _).
    rewrite <- (size_list_to_set (C := gset string)) by exact Hnd.
    f_equal. apply set_eq. intros u.
    rewrite elem_of_list_to_set. apply Hkeys. }
  assert (Hord : forall u v i j, m !! u = Some i -> m !! v = Some j ->
            (i < j <-> String.ltb u v = true)).
  { intros u v i j Hu Hv. subst m g.
    apply mapping_lookup in Hu, Hv.
    pose proof (sorted_strongly (grouped ps).*1) as Hs.
    pose proof (sorted_keys_NoDup ps) as Hnd.
    rewrite ltb_iff_le_ne. split.
    - intros Hlt. split.
      + eapply (StronglySorted_lookup_lt _ _ Hs); eassumption.
      + intros ->. pose proof (NoDup_lookup _ _ _ _ Hnd Hu Hv). lia.
    - intros [Hle Hne].
      destruct (Nat.lt_trichotomy i j) as [?|[->|Hgt]]; [assumption | |].
      + congruence.
      + exfalso. apply Hne. apply String.leb_antisym; [exact Hle|].
        eapply (StronglySorted_lookup_lt _ _ Hs); eassumption. }
  split; [exact Hdim|].
  split; [apply mapping_dom|].
  split; [apply mapping_bound|].
  split.
  { intros i Hi. subst m g. rewrite dimension_keys in Hi.
    rewrite <- (Permutation_length (sorted_perm _)) in Hi.
    apply lookup_lt_is_Some_2 in Hi as [u Hu]. exists u.
    apply mapping_lookup, Hu. }
  split; [apply mapping_inj|].
  split; [exact Hord|].
  intros Hutil.
  assert (Hd3 : dimension g = 3) by (rewrite Hdim, Hutil; reflexivity).
  destruct (proj2 (mapping_dom ps "gcc")) as [a Ha];
    [rewrite Hutil; set_solver|].
  destruct (proj2 (mapping_dom ps "make")) as [b Hb];
    [rewrite Hutil; set_solver|].
  destruct (proj2 (mapping_dom ps "npm")) as [c Hc];
    [rewrite Hutil; set_solver|].
  fold g in Ha, Hb, Hc. fold m in Ha, Hb, Hc.
  pose proof (proj2 (Hord _ _ _ _ Ha Hb) eq_refl).
  pose proof (proj2 (Hord _ _ _ _ Hb Hc) eq_refl).
  pose proof (mapping_bound ps _ _ Hc) as Hc3. fold g in Hc3.
  assert (a = 0 /\ b = 1 /\ c = 2) as (-> & -> & ->) by lia.
  auto.
Qed.

End UtilityIndexClaim.

(** ** The embedding reducer *)

Section Reducer.
Import Spec.
Context `{RegexEngine}.
Import log_patterns embeddings.
Local Open Scope list_scope.
Local Open Scope Z_scope.

Lemma first_hit_cons line r e rest :
  Spec.first_hit line ((r, e) :: rest)
    = if Spec.accepts r line then Some e else Spec.first_hit line rest.
Proof.
  unfold Spec.first_hit. simpl. destruct (Spec.accepts r line); reflexivity.
Qed.

Lemma counts_as_error_cons line r e rest :
  Spec.counts_as_error line ((r, e) :: rest)
    = if Spec.accepts r line then e else Spec.counts_as_error line rest.
Proof.
  unfold Spec.counts_as_error. rewrite first_hit_cons.
  destruct (Spec.accepts r line); [destruct e|]; reflexivity.
Qed.

Lemma re_match_accepts r line :
  re_match r line = match re_compile r with
                    | Some _ => Return (Spec.accepts r line)
                    | None => Raise re_error
                    end.
Proof.
  unfold re_match, py_compile, Spec.accepts.
  destruct (re_compile r); reflexivity.
Qed.

(** The scan of one utility's list stops at the first pattern that
    matches and increments exactly when that pattern is an error
    pattern. *)
Lemma scan_patterns_spec line idx patterns embedding :
  scan_patterns line idx patterns embedding
    = if Spec.counts_as_error line patterns then increment idx embedding
      else Return embedding.
Proof.
  induction patterns as [|[r e] rest IH]; [reflexivity|].
  simpl. rewrite counts_as_error_cons, re_match_accepts.
  unfold Spec.accepts. destruct (re_compile r) as [c|]; [|exact IH].
  destruct (compiled_match c line); [reflexivity | exact IH].
Qed.

Lemma increment_lookup idx embedding :
  (idx < length embedding)%nat ->
  exists e', increment idx embedding = Return e'
    /\ length e' = length embedding
    /\ forall j, e' !! j
         = (fun v => v + (if bool_decide (idx = j) then 1 else 0))
             <$> embedding !! j.
Proof.
  intros Hlt. unfold increment.
  destruct (lookup_lt_is_Some_2 _ _ Hlt) as [v Hv]. rewrite Hv.
  eexists. split; [reflexivity|]. split; [apply length_insert|].
  intros j. case_bool_decide as Hj.
  - subst j. rewrite list_lookup_insert_eq by exact Hlt. rewrite Hv.
    reflexivity.
  - rewrite list_lookup_insert_ne by exact Hj.
    destruct (embedding !! j); simpl; [f_equal; lia | reflexivity].
Qed.


Lemma scan_utilities_spec self line items :
  forall embedding,
  indexed (_utility_mapping self) (length embedding) items ->
  exists e', scan_utilities self line items embedding = Return e'
    /\ length e' = length embedding
    /\ forall j, e' !! j
         = (fun v => v + Spec.hit_count (_utility_mapping self) line j items)
             <$> embedding !! j.
Proof.
  induction items as [|[u patterns] rest IH]; intros embedding Hidx.
  - exists embedding. simpl. repeat split.
    intros j. destruct (embedding !! j); simpl; [f_equal; lia | reflexivity].
  - destruct (Hidx u) as (i & Hi & Hlt); [simpl; left|].
    assert (Hrest : forall e1 : list Z, length e1 = length embedding ->
              indexed (_utility_mapping self) (length e1) rest).
    { intros e1 -> v Hv. apply Hidx. simpl. right. exact Hv. }
    cbn [scan_utilities Spec.hit_count]. rewrite Hi, scan_patterns_spec.
    destruct (Spec.counts_as_error line patterns).
    + destruct (increment_lookup i embedding Hlt) as (e1 & -> & Hlen & Hlk).
      simpl. destruct (IH e1 (Hrest e1 Hlen)) as (e' & -> & Hlen' & Hlk').
      exists e'. split; [reflexivity|]. split; [congruence|].
      intros j. rewrite Hlk', Hlk. rewrite andb_true_r.
      destruct (embedding !! j); simpl; [|reflexivity]. f_equal.
      destruct (decide (i = j)) as [->|Hj].
      * rewrite !bool_decide_eq_true_2 by reflexivity. lia.
      * rewrite !bool_decide_eq_false_2 by congruence. lia.
    + simpl. destruct (IH embedding (Hrest embedding eq_refl))
        as (e' & -> & Hlen' & Hlk').
      exists e'. split; [reflexivity|]. split; [exact Hlen'|].
      intros j. rewrite Hlk', andb_false_r. reflexivity.
Qed.

Lemma scan_lines_spec self lines :
  forall embedding,
  indexed (_utility_mapping self) (length embedding)
    (_patterns_by_utility self) ->
  exists e', scan_lines self lines embedding = Return e'
    /\ length e' = length embedding
    /\ forall j, e' !! j
         = (fun v => v + Spec.line_total (_utility_mapping self)
                           (_patterns_by_utility self) j lines)
             <$> embedding !! j.
Proof.
  induction lines as [|l rest IH]; intros embedding Hidx.
  - exists embedding. simpl. repeat split.
    intros j. destruct (embedding !! j); simpl; [f_equal; lia | reflexivity].
  - cbn [scan_lines Spec.line_total].
    change (negb (PyStr.truthy (PyStr.strip l))) with (Spec.blank l).
    destruct (Spec.blank l).
    + destruct (IH embedding Hidx) as (e' & -> & Hlen & Hlk).
      exists e'. repeat split; [exact Hlen|]. intros j. rewrite Hlk.
      reflexivity.
    + destruct (scan_utilities_spec self l _ embedding Hidx)
        as (e1 & -> & Hlen1 & Hlk1).
      simpl. rewrite <- Hlen1 in Hidx.
      destruct (IH e1 Hidx) as (e' & -> & Hlen & Hlk).
      exists e'. split; [reflexivity|]. split; [congruence|].
      intros j. rewrite Hlk, Hlk1.
      destruct (embedding !! j); simpl; [f_equal; lia | reflexivity].
Qed.

(** Blank lines are skipped, whatever the generator. *)
Lemma scan_lines_real self lines embedding :
  scan_lines self lines embedding
    = scan_lines self (List.filter (fun l => negb (Spec.blank l)) lines)
        embedding.
Proof.
  revert embedding. induction lines as [|l rest IH]; intros embedding.
  - reflexivity.
  - cbn [scan_lines List.filter].
    change (negb (PyStr.truthy (PyStr.strip l))) with (Spec.blank l).
    destruct (Spec.blank l) eqn:E; simpl.
    + apply IH.
    + change (negb (PyStr.truthy (PyStr.strip l))) with (Spec.blank l).
      rewrite E.
      destruct (scan_utilities self l (_patterns_by_utility self) embedding);
        simpl; [apply IH | reflexivity].
Qed.

Lemma generate_embedding_real_lines self text :
  generate_embedding self text
    = scan_lines self (Spec.real_lines text)
        (replicate (dimension self) 0).
Proof. unfold generate_embedding. apply scan_lines_real. Qed.

Lemma line_total_app m items j l1 l2 :
  Spec.line_total m items j (l1 ++ l2)
    = Spec.line_total m items j l1 + Spec.line_total m items j l2.
Proof. induction l1 as [|l l1 IH]; simpl; [reflexivity | lia]. Qed.

Lemma hit_count_nonneg m line j items : 0 <= Spec.hit_count m line j items.
Proof.
  induction items as [|[u ps] rest IH]; simpl; [lia|].
  destruct (_ && _); lia.
Qed.

Lemma line_total_nonneg m items j lines : 0 <= Spec.line_total m items j lines.
Proof.
  induction lines as [|l rest IH]; simpl; [lia|].
  pose proof (hit_count_nonneg m l j items). destruct (Spec.blank l); lia.
Qed.

End Reducer.

Section ReducerInitialized.
Import Spec.
Context `{RegexEngine}.
Import log_patterns embeddings.
Local Open Scope list_scope.
Local Open Scope Z_scope.

Lemma initialized_indexed ps :
  let g := _initialize_mappings ps in
  indexed (_utility_mapping g) (length (replicate (dimension g) 0))
    (_patterns_by_utility g).
Proof.
  intros g u Hu. rewrite length_replicate.
  destruct (grouped_spec ps) as (_ & Hkeys & _).
  apply Hkeys, mapping_dom in Hu as [i Hi]. exists i.
  split; [exact Hi | eapply mapping_bound, Hi].
Qed.

(** The loops return, and what they return is [total_vector]. *)
Lemma generate_embedding_total ps text :
  let g := _initialize_mappings ps in
  generate_embedding g text
    = Return (Spec.total_vector g (Spec.real_lines text)).
Proof.
  intros g. subst g. rewrite generate_embedding_real_lines.
  destruct (scan_lines_spec _ (Spec.real_lines text) _
              (initialized_indexed ps)) as (e & -> & Hlen & Hlk).
  set (g := _initialize_mappings ps) in *.
  f_equal. rewrite length_replicate in Hlen.
  apply list_eq. intros j. rewrite Hlk. unfold Spec.total_vector.
  rewrite list_lookup_fmap.
  destruct (decide (j < dimension g)%nat) as [Hj|Hj].
  - rewrite lookup_replicate_2, lookup_seq_lt by exact Hj. simpl.
    reflexivity.
  - rewrite (proj1 (lookup_replicate_None _ _ _)), lookup_seq_ge by lia.
    reflexivity.
Qed.

Lemma hit_count_zero m line j items :
  (forall k, k ∈ items.*1 -> m !! k <> Some j) ->
  Spec.hit_count m line j items = 0.
Proof.
  induction items as [|[k pats] rest IH]; intros Hk; [reflexivity|].
  simpl. rewrite bool_decide_eq_false_2 by (apply Hk; simpl; left).
  simpl. apply IH. intros k' Hk'. apply Hk. simpl. right. exact Hk'.
Qed.

Lemma hit_count_one m line j u items :
  NoDup items.*1 -> u ∈ items.*1 -> m !! u = Some j ->
  (forall k, k ∈ items.*1 -> m !! k = Some j -> k = u) ->
  Spec.hit_count m line j items
    = if Spec.counts_as_error line (Spec.dict_get items u) then 1 else 0.
Proof.
  induction items as [|[k pats] rest IH]; intros Hnd Hu Hj Hinj.
  - inversion Hu.
  - simpl in *. apply NoDup_cons in Hnd as [Hk Hnd].
    destruct (String.eqb_spec k u) as [->|Hne].
    + rewrite bool_decide_eq_true_2 by exact Hj. simpl.
      rewrite hit_count_zero.
      * destruct (Spec.counts_as_error line pats); reflexivity.
      * intros k' Hk' Hj'. apply Hk.
        rewrite <- (Hinj k'); [exact Hk' | right; exact Hk' | exact Hj'].
    + rewrite bool_decide_eq_false_2.
      * simpl. apply IH; [exact Hnd | | exact Hj |].
        -- apply elem_of_cons in Hu as [?|?]; [congruence | assumption].
        -- intros k' Hk'. apply Hinj. right. exact Hk'.
      * intros Hj'. apply Hne, Hinj; [left | exact Hj'].
Qed.

Lemma hit_count_initialized ps line u j :
  _utility_mapping (_initialize_mappings ps) !! u = Some j ->
  Spec.hit_count (_utility_mapping (_initialize_mappings ps)) line j
    (grouped ps)
    = if Spec.counts_as_error line (Spec.patterns_of u ps) then 1 else 0.
Proof.
  intros Hj. destruct (grouped_spec ps) as (Hnd & Hkeys & Hget).
  rewrite <- Hget. apply hit_count_one; [exact Hnd | | exact Hj |].
  - apply Hkeys, mapping_dom. eauto.
  - intros k _ Hk. eapply mapping_inj; eassumption.
Qed.

Lemma error_lines_cons u ps l lines :
  Spec.error_lines u ps (l :: lines)
    = (if Spec.counts_as_error l (Spec.patterns_of u ps) then 1 else 0)
      + Spec.error_lines u ps lines.
Proof.
  unfold Spec.error_lines. simpl.
  destruct (Spec.counts_as_error l (Spec.patterns_of u ps)); simpl length; lia.
Qed.

Lemma error_lines_app u ps l1 l2 :
  Spec.error_lines u ps (l1 ++ l2)
    = Spec.error_lines u ps l1 + Spec.error_lines u ps l2.
Proof.
  unfold Spec.error_lines. rewrite List.filter_app, length_app. lia.
Qed.

Lemma real_lines_not_blank text :
  Forall (fun l => Spec.blank l = false) (Spec.real_lines text).
Proof.
  unfold Spec.real_lines. apply Forall_forall. intros l Hl.
  apply list_elem_of_In, List.filter_In in Hl as [_ Hl].
  destruct (Spec.blank l); [discriminate | reflexivity].
Qed.

Lemma line_total_initialized ps u j lines :
  _utility_mapping (_initialize_mappings ps) !! u = Some j ->
  Forall (fun l => Spec.blank l = false) lines ->
  Spec.line_total (_utility_mapping (_initialize_mappings ps))
    (grouped ps) j lines
    = Spec.error_lines u ps lines.
Proof.
  intros Hj. induction 1 as [|l lines Hl _ IH]; [reflexivity|].
  cbn [Spec.line_total]. rewrite Hl, IH, error_lines_cons.
  rewrite (hit_count_initialized _ _ _ _ Hj). reflexivity.
Qed.

Lemma total_vector_length self lines :
  length (Spec.total_vector self lines) = dimension self.
Proof. unfold Spec.total_vector. rewrite length_fmap. apply length_seq. Qed.

Lemma total_vector_lookup ps u j lines :
  _utility_mapping (_initialize_mappings ps) !! u = Some j ->
  Forall (fun l => Spec.blank l = false) lines ->
  Spec.total_vector (_initialize_mappings ps) lines !! j
    = Some (Spec.error_lines u ps lines).
Proof.
  intros Hj Hl. unfold Spec.total_vector. rewrite list_lookup_fmap.
  rewrite lookup_seq_lt by (eapply mapping_bound, Hj). simpl.
  f_equal. apply line_total_initialized; assumption.
Qed.

Lemma total_vector_nil self :
  Spec.total_vector self [] = replicate (dimension self) 0.
Proof.
  unfold Spec.total_vector. simpl. generalize 0%nat.
  induction (dimension self) as [|n IH]; intros k; [reflexivity|].
  simpl. f_equal. apply IH.
Qed.

Lemma total_vector_app self l1 l2 :
  Spec.total_vector self (l1 ++ l2)
    = Spec.vadd (Spec.total_vector self l1) (Spec.total_vector self l2).
Proof.
  unfold Spec.total_vector, Spec.vadd. generalize 0%nat.
  induction (dimension self) as [|n IH]; intros k; [reflexivity|].
  simpl. rewrite line_total_app. f_equal. apply IH.
Qed.

Lemma total_vector_nonneg self lines :
  Forall (fun x => 0 <= x) (Spec.total_vector self lines).
Proof.
  unfold Spec.total_vector. apply Forall_fmap, Forall_forall.
  intros j _. apply line_total_nonneg.
Qed.

End ReducerInitialized.

Section ReducerClaims.
Import Spec.
Context `{RegexEngine}.
Import log_patterns embeddings.
Local Open Scope list_scope.
Local Open Scope Z_scope.

(** C1.  For a generator built from a snapshot, the coordinate of each
    utility is the number of non-blank lines whose first matching
    pattern, within that utility's own list, is an error pattern: one
    more line adds one to the coordinate of every utility for which
    this holds, and to no other, so a line that hits error patterns of
    two utilities raises both coordinates. *)
Theorem reducer_counts_per_utility ps text line :
  Spec.real_lines line = [line] ->
  let g := _initialize_mappings ps in
  let m := _utility_mapping g in
  exists e e',
    generate_embedding g text = Return e
    /\ generate_embedding g (text ++ Spec.newline ++ line)%string = Return e'
    /\ length e = dimension g /\ length e' = dimension g
    /\ (forall u i, m !! u = Some i ->
          e !! i = Some (Spec.error_lines u ps (Spec.real_lines text))
          /\ e' !! i
             = Some (Spec.error_lines u ps (Spec.real_lines text)
                     + if Spec.counts_as_error line (Spec.patterns_of u ps)
                       then 1 else 0))
    /\ (forall u1 u2 i1 i2,
          u1 <> u2 -> m !! u1 = Some i1 -> m !! u2 = Some i2 ->
          Spec.first_hit line (Spec.patterns_of u1 ps) = Some true ->
          Spec.first_hit line (Spec.patterns_of u2 ps) = Some true ->
          i1 <> i2
          /\ e' !! i1 = Z.add 1 <$> e !! i1
          /\ e' !! i2 = Z.add 1 <$> e !! i2).
Proof.
  intros Hline g m.
  exists (Spec.total_vector g (Spec.real_lines text)),
         (Spec.total_vector g
            (Spec.real_lines (text ++ Spec.newline ++ line)%string)).
  split; [apply generate_embedding_total|].
  split; [apply generate_embedding_total|].
  split; [apply total_vector_length|].
  split; [apply total_vector_length|].
  assert (Hpt : forall u i, m !! u = Some i ->
    Spec.total_vector g (Spec.real_lines text) !! i
      = Some (Spec.error_lines u ps (Spec.real_lines text))
    /\ Spec.total_vector g
         (Spec.real_lines (text ++ Spec.newline ++ line)%string) !! i
       = Some (Spec.error_lines u ps (Spec.real_lines text)
               + if Spec.counts_as_error line (Spec.patterns_of u ps)
                 then 1 else 0)).
  { intros u i Hi. split.
    - apply total_vector_lookup; [exact Hi | apply real_lines_not_blank].
    - rewrite (total_vector_lookup ps u i _ Hi (real_lines_not_blank _)).
      rewrite real_lines_join, error_lines_app, Hline, error_lines_cons.
      f_equal. unfold Spec.error_lines. simpl. lia. }
  split; [exact Hpt|].
  intros u1 u2 i1 i2 Hne H1 H2 Hh1 Hh2.
  destruct (Hpt _ _ H1) as [E1 E1']. destruct (Hpt _ _ H2) as [E2 E2'].
  unfold Spec.counts_as_error in E1', E2'. rewrite Hh1 in E1'.
  rewrite Hh2 in E2'. rewrite E1, E1', E2, E2'. simpl.
  split; [|split; f_equal; lia].
  intros ->. apply Hne. eapply mapping_inj; eassumption.
Qed.

Lemma real_lines_concat lines :
  Spec.real_lines (String.concat Spec.newline lines)
    = List.concat (List.map Spec.real_lines lines).
Proof.
  induction lines as [|l ls IH]; [reflexivity|].
  cbn [String.concat List.map List.concat]. destruct ls as [|l' ls].
  - simpl. rewrite app_nil_r. reflexivity.
  - rewrite real_lines_join, IH. reflexivity.
Qed.

Lemma vadd_zeros v : Spec.vadd v (replicate (length v) 0) = v.
Proof.
  unfold Spec.vadd. induction v as [|x v IH]; [reflexivity|].
  simpl. rewrite IH. f_equal. lia.
Qed.

Lemma total_vector_concat self ls :
  Spec.total_vector self (List.concat ls)
    = Spec.vsum (dimension self) (Spec.total_vector self <$> ls).
Proof.
  induction ls as [|l ls IH]; simpl.
  - apply total_vector_nil.
  - rewrite total_vector_app, IH. reflexivity.
Qed.

(** C6.  The embedding of a log is the coordinate-wise sum of the
    embeddings of its lines taken one at a time, and no coordinate is
    negative. *)
Theorem reducer_additive ps lines :
  let g := _initialize_mappings ps in
  exists e es,
    generate_embedding g (String.concat Spec.newline lines) = Return e
    /\ Forall2 (fun l v => generate_embedding g l = Return v) lines es
    /\ e = Spec.vsum (dimension g) es
    /\ Forall (fun x => 0 <= x) e.
Proof.
  intros g.
  exists (Spec.total_vector g
            (Spec.real_lines (String.concat Spec.newline lines))),
         ((fun l => Spec.total_vector g (Spec.real_lines l)) <$> lines).
  split; [apply generate_embedding_total|]. split; [|split].
  - apply Forall2_fmap_r, Forall_Forall2_diag, Forall_forall.
    intros l _. apply generate_embedding_total.
  - rewrite real_lines_concat, total_vector_concat. f_equal.
    rewrite <- list_fmap_compose. reflexivity.
  - apply total_vector_nonneg.
Qed.

(** C7.  A line that is blank once stripped is skipped by the loop, so
    a blank line put between two parts of a log (or taken out) leaves
    the embedding as it was. *)
Theorem blank_lines_ignored self t1 b t2 :
  Spec.blank b = true ->
  generate_embedding self
    (t1 ++ Spec.newline ++ b ++ Spec.newline ++ t2)%string
    = generate_embedding self (t1 ++ Spec.newline ++ t2)%string
  /\ forall lines1 lines2 embedding,
       scan_lines self (lines1 ++ b :: lines2) embedding
         = scan_lines self (lines1 ++ lines2) embedding.
Proof.
  intros Hb. split.
  - rewrite !generate_embedding_real_lines, !real_lines_join.
    rewrite (real_lines_blank b Hb). reflexivity.
  - intros lines1 lines2 embedding.
    rewrite scan_lines_real, (scan_lines_real _ (lines1 ++ lines2)).
    rewrite !List.filter_app. simpl. rewrite Hb. reflexivity.
Qed.

End ReducerClaims.

(** ** Matching from the start of the line *)

Section PrefixSemantics.
Import log_patterns embeddings Scenario.
Local Open Scope list_scope.

Lemma matches_true_iff (p : LogPattern) r line :
  re_compile (regex p) = Some r ->
  matches p line = Return true <-> PyRe.match_prefix r line = true.
Proof.
  intros E. rewrite matches_accepts. unfold Spec.accepts. rewrite E.
  simpl. split; congruence.
Qed.

(** C3.  [matches] succeeds exactly when the expression matches some
    prefix of the line: an expression without [$] keeps accepting when
    the line is extended, and an occurrence further inside the line
    does not count.  In the scenario the syslog line is not matched by
    the userdel pattern, the build line is matched by the build
    pattern, and the embedding over the index build:0, userdel:1
    is [0, 0]. *)
Theorem matches_from_start :
  (forall (p : LogPattern) r line,
     re_compile (regex p) = Some r ->
     (matches p line = Return true <->
      exists w t, list_ascii_of_string line = w ++ t
                  /\ PyRe.Matches r true w t))
  /\ (forall (p : LogPattern) r line extra,
        re_compile (regex p) = Some r -> PyRe.has_eol r = false ->
        matches p line = Return true ->
        matches p (line ++ extra)%string = Return true)
  /\ matches open_ended (build_line ++ " and more")%string = Return true
  /\ matches build_pattern (build_line ++ " and more")%string = Return false
  /\ matches userdel_pattern syslog_line = Return false
  /\ matches unanchored syslog_line = Return false
  /\ matches unanchored "userdel[616177]: delete user 'rooter'" = Return true
  /\ matches build_pattern build_line = Return true
  /\ (let g := _initialize_mappings pattern_set in
      _utility_mapping g !! "build" = Some 0
      /\ _utility_mapping g !! "userdel" = Some 1
      /\ dimension g = 2
      /\ generate_embedding g log_text = Return [0; 0]%Z).
Proof.
  split.
  { intros p r line E. rewrite (matches_true_iff p r line E).
    apply match_prefix_spec. }
  split.
  { intros p r line extra E He.
    rewrite !(matches_true_iff p r _ E). apply match_prefix_extend, He. }
  repeat split; vm_compute; reflexivity.
Qed.

End PrefixSemantics.

(** ** Ingestion *)

Section Ingestion.
Import Spec.
Context `{RegexEngine}.
Import log_patterns llm_parser.
Local Open Scope list_scope.

(** The oracle path never proposes an error pattern. *)
Lemma analyze_is_error reply line r u e :
  analyze_line_with_llm reply line = Return (Some (r, u, e)) -> e = false.
Proof.
  unfold analyze_line_with_llm, getitem, py_compile, re_match, py_compile.
  destruct reply as [| | |fields]; simpl; try discriminate.
  destruct (fields !! "regex") as [regex|]; simpl; [|discriminate].
  destruct (re_compile regex) as [c|]; simpl; [|discriminate].
  destruct (compiled_match c line); simpl; [|discriminate].
  destruct (fields !! "utility_name"); simpl; [|discriminate].
  intros [= _ _ <-]. reflexivity.
Qed.

(** A result of the oracle path has a regex that accepts the line. *)
Lemma analyze_accepts reply line r u e :
  analyze_line_with_llm reply line = Return (Some (r, u, e)) ->
  Spec.accepts r line = true.
Proof.
  unfold analyze_line_with_llm, getitem, py_compile, re_match, py_compile,
    Spec.accepts.
  destruct reply as [| | |fields]; simpl; try discriminate.
  destruct (fields !! "regex") as [regex|]; simpl; [|discriminate].
  destruct (re_compile regex) as [c|] eqn:Ec; simpl; [|discriminate].
  destruct (compiled_match c line) eqn:Em; simpl; [|discriminate].
  destruct (fields !! "utility_name"); simpl; [|discriminate].
  intros [= <- _ _]. rewrite Ec. exact Em.
Qed.

(** A regex that does not compile yields no result, and nothing is
    raised. *)
Lemma analyze_invalid_regex fields regex line :
  fields !! "regex" = Some regex -> re_compile regex = None ->
  analyze_line_with_llm (Object fields) line = Return None.
Proof.
  intros Hf Hc. unfold analyze_line_with_llm, getitem, py_compile.
  simpl. rewrite Hf. simpl. rewrite Hc. reflexivity.
Qed.

Lemma patterns_store parser :
  pattern_store (patterns parser).2 = pattern_store parser.
Proof. unfold patterns. destruct (_patterns parser); reflexivity. Qed.

Lemma patterns_cache parser :
  _patterns (patterns parser).2 = Some (patterns parser).1.
Proof. unfold patterns. destruct (_patterns parser) eqn:E; simpl; auto. Qed.

Lemma pause_self n st : self (pause n st).1 = self st.
Proof.
  unfold pause. destruct (n mod 10 =? 0)%nat; [|reflexivity].
  destruct (stdin st); [reflexivity|].
  destruct (String.eqb _ _); reflexivity.
Qed.

Lemma pause_new_patterns n st : new_patterns (pause n st).1 = new_patterns st.
Proof.
  unfold pause. destruct (n mod 10 =? 0)%nat; [|reflexivity].
  destruct (stdin st); [reflexivity|].
  destruct (String.eqb _ _); reflexivity.
Qed.

Lemma pause_stdout n st : stdout (pause n st).1 = stdout st.
Proof.
  unfold pause. destruct (n mod 10 =? 0)%nat; [|reflexivity].
  destruct (stdin st); [reflexivity|].
  destruct (String.eqb _ _); reflexivity.
Qed.


Lemma grown_refl st : grown st st.
Proof.
  exists []. rewrite app_nil_r. repeat split; try constructor; set_solver.
Qed.

Lemma grown_same st0 st st' :
  grown st0 st ->
  pattern_store (self st') = pattern_store (self st) ->
  new_patterns st' = new_patterns st ->
  grown st0 st'.
Proof.
  intros (added & Hr & Hf & Hnd & Hnp & Hfresh) Hs Hn. exists added.
  rewrite Hs, Hn. auto.
Qed.

Lemma grown_ingest st0 st r u :
  grown st0 st -> grown st0 (ingest st (r, u, false)).
Proof.
  intros (added & Hr & Hf & Hnd & Hnp & Hfresh). unfold ingest.
  destruct (decide (r ∉ new_patterns st)) as [Hnew|Hold].
  - exists (added ++ [{| id := lastrowid (rows (pattern_store (self st))) + 1;
                        regex := r; utility_name := u; is_error := false;
                        need_reviewing := true |}]).
    simpl. rewrite Hr, app_assoc. split; [reflexivity|].
    split; [apply Forall_app; split; [exact Hf | repeat constructor]|].
    rewrite fmap_app. simpl.
    assert (r ∉ regex <$> added) as Hr' by (intros ?; apply Hnew, Hnp; auto).
    split; [|split].
    + apply NoDup_app. split; [exact Hnd|]. split; [|apply NoDup_singleton].
      intros x Hx ->%list_elem_of_singleton. contradiction.
    + intros x. rewrite elem_of_union, elem_of_singleton, Hnp, elem_of_app,
        list_elem_of_singleton. tauto.
    + intros x [Hx| ->%list_elem_of_singleton]%elem_of_app; [auto|].
      intros ?. apply Hnew, Hnp. auto.
  - eapply grown_same; [exists added; eauto | reflexivity ..].
Qed.

Lemma process_line_grown ask st0 st line_num line :
  grown st0 st -> grown st0 (process_line ask st line_num line).1.
Proof.
  intros Hg. unfold process_line.
  destruct (patterns (self st)) as [ps self1] eqn:Ep.
  assert (Hst1 : grown st0 (with_self st self1)).
  { eapply grown_same; [exact Hg | | reflexivity]. simpl.
    change self1 with (ps, self1).2. rewrite <- Ep. apply patterns_store. }
  destruct (find_match line ps) as [[p|]|e]; simpl.
  - eapply grown_same; [exact Hst1 | |].
    + rewrite pause_self. reflexivity.
    + rewrite pause_new_patterns. reflexivity.
  - destruct (analyze_line_with_llm _ line) as [[[[r u] e]|]|e] eqn:Ea; simpl.
    + apply analyze_is_error in Ea as ->.
      eapply grown_same;
        [apply (grown_ingest st0 (count_query (with_self st self1)) r u) | |].
      * eapply grown_same; [exact Hst1 | reflexivity ..].
      * rewrite pause_self. reflexivity.
      * rewrite pause_new_patterns. reflexivity.
    + eapply grown_same; [exact Hst1 | |].
      * rewrite pause_self. reflexivity.
      * rewrite pause_new_patterns. reflexivity.
    + eapply grown_same; [exact Hst1 | reflexivity ..].
  - exact Hst1.
Qed.

Lemma process_lines_grown ask lines :
  forall st0 st, grown st0 st -> grown st0 (process_lines ask st lines).1.
Proof.
  induction lines as [|[n l] rest IH]; intros st0 st Hg; [exact Hg|].
  cbn [process_lines]. destruct (negb _); [apply IH, Hg|].
  pose proof (process_line_grown ask st0 st n l Hg) as Hg'.
  destruct (process_line ask st n l) as [st' [| |e]]; simpl in *;
    [apply IH, Hg' | exact Hg' ..].
Qed.

End Ingestion.

Section IngestionClaims.
Import Spec.
Context `{RegexEngine}.
Import log_patterns llm_parser.
Local Open Scope list_scope.

Lemma counts_as_error_app_harmless line a b :
  Forall (fun rp => rp.2 = false) b ->
  Spec.counts_as_error line (a ++ b) = Spec.counts_as_error line a.
Proof.
  intros Hb. induction a as [|[r e] a IH]; simpl.
  - induction Hb as [|[r e] b He _ IHb]; [reflexivity|].
    simpl in He. subst e. rewrite counts_as_error_cons, IHb.
    destruct (Spec.accepts r line); reflexivity.
  - rewrite !counts_as_error_cons, IH. reflexivity.
Qed.

Lemma patterns_of_harmless u added :
  Forall (fun p => is_error p = false) added ->
  Forall (fun rp : string * bool => rp.2 = false) (Spec.patterns_of u added).
Proof.
  intros Ha. unfold Spec.patterns_of.
  induction Ha as [|p added Hp _ IH]; simpl; [constructor|].
  destruct (String.eqb (utility_name p) u); simpl; [|exact IH].
  constructor; [exact Hp | exact IH].
Qed.

Lemma error_lines_harmless u old added lines :
  Forall (fun p => is_error p = false) added ->
  Spec.error_lines u (old ++ added) lines = Spec.error_lines u old lines.
Proof.
  intros Ha. unfold Spec.error_lines. do 2 f_equal.
  apply List.filter_ext. intros l.
  rewrite patterns_of_app.
  apply counts_as_error_app_harmless, patterns_of_harmless, Ha.
Qed.

Lemma session_grown ask parser log input :
  grown {| self := parser; new_patterns := ∅; llm_queries := 0;
           stdin := input; stdout := [] |}
        (process_unprocessed_log ask parser log input).1.
Proof.
  unfold process_unprocessed_log.
  set (st0 := {| self := parser; new_patterns := ∅; llm_queries := 0;
                 stdin := input; stdout := [] |}).
  destruct log as [text|].
  - pose proof (process_lines_grown ask
                  (imap (fun i line => (S i, line)) (PyStr.splitlines text))
                  st0 st0 (grown_refl st0)) as Hg.
    destruct (process_lines _ _ _) as [st r]. exact Hg.
  - apply grown_refl.
Qed.

(** C10.  The oracle path always hands over [False] as the error flag,
    so every row that a session adds to the store is a non-error
    pattern; and in an embedding built from the store after the
    session, every coordinate still counts only the lines that hit the
    error patterns the store had before it. *)
Theorem oracle_patterns_never_count ask parser log input :
  let st := (process_unprocessed_log ask parser log input).1 in
  let old := rows (pattern_store parser) in
  (forall reply line r u e,
     analyze_line_with_llm reply line = Return (Some (r, u, e)) ->
     e = false)
  /\ exists added,
       rows (pattern_store (self st)) = old ++ added
       /\ Forall (fun p => is_error p = false) added
       /\ forall text,
            let g := embeddings._initialize_mappings (old ++ added) in
            exists e,
              embeddings.generate_embedding g text = Return e
              /\ forall u i,
                   embeddings._utility_mapping g !! u = Some i ->
                   e !! i
                     = Some (Spec.error_lines u old (Spec.real_lines text)).
Proof.
  intros st old. split; [apply analyze_is_error|].
  destruct (session_grown ask parser log input)
    as (added & Hr & Hf & _ & _ & _).
  exists added. split; [exact Hr|]. split; [exact Hf|].
  intros text g. exists (Spec.total_vector g (Spec.real_lines text)).
  split; [apply generate_embedding_total|].
  intros u i Hi.
  rewrite (total_vector_lookup _ u i _ Hi (real_lines_not_blank _)).
  f_equal. apply error_lines_harmless, Hf.
Qed.



Lemma covered_pause n st : covered st -> covered (pause n st).1.
Proof.
  intros [Hc Hs]. unfold covered.
  rewrite pause_self, pause_new_patterns, pause_stdout. auto.
Qed.

Lemma patterns_of_cached parser ps :
  _patterns parser = Some ps -> patterns parser = (ps, parser).
Proof. intros E. unfold patterns. rewrite E. reflexivity. Qed.

Lemma process_line_covered ask st line_num line :
  covered st -> covered (process_line ask st line_num line).1.
Proof.
  intros [Hc Hs]. unfold process_line.
  pose proof (patterns_cache (self st)) as Hcache.
  destruct (patterns (self st)) as [ps self1] eqn:Ep. simpl in Hcache, Hc.
  pose proof (patterns_of_cached _ _ Hcache) as Hps.
  assert (Hst1 : covered (with_self st self1)).
  { split; simpl; [rewrite Hps; exact Hc | exact Hs]. }
  rewrite find_match_find.
  destruct (List.find _ ps) as [p|] eqn:Ef; simpl.
  - apply covered_pause. destruct Hst1 as [Hc1 Hs1].
    split; simpl; [exact Hc1|].
    rewrite elem_of_app, list_elem_of_singleton. intros [?|?]; [auto|].
    discriminate.
  - destruct (analyze_line_with_llm _ line) as [[[[r u] e]|]|e] eqn:Ea; simpl.
    + apply covered_pause. apply analyze_accepts in Ea.
      assert (Hnew : r ∉ new_patterns st).
      { intros (p & Hp & <-)%Hc.
        apply find_none_iff with (x := p) in Ef; [congruence | exact Hp]. }
      unfold ingest. simpl. rewrite decide_True by exact Hnew.
      unfold _update_patterns. simpl. rewrite Hcache. simpl.
      split; simpl.
      * intros r' [Hr'| ->%elem_of_singleton]%elem_of_union.
        -- destruct (Hc r' Hr') as (p & Hp & Hpr). exists p.
           split; [apply elem_of_app; left; exact Hp | exact Hpr].
        -- eexists. split; [apply elem_of_app; right; constructor|].
           reflexivity.
      * rewrite elem_of_app, list_elem_of_singleton. intros [?|?]; [auto|].
        discriminate.
    + apply covered_pause. destruct Hst1 as [Hc1 Hs1].
      split; simpl; [exact Hc1|].
      rewrite elem_of_app, list_elem_of_singleton. intros [?|?]; [auto|].
      discriminate.
    + exact Hst1.
Qed.

Lemma process_lines_covered ask lines :
  forall st, covered st -> covered (process_lines ask st lines).1.
Proof.
  induction lines as [|[n l] rest IH]; intros st Hc; [exact Hc|].
  cbn [process_lines]. destruct (negb _); [apply IH, Hc|].
  pose proof (process_line_covered ask st n l Hc) as Hc'.
  destruct (process_line ask st n l) as [st' [| |e]]; simpl in *;
    [apply IH, Hc' | exact Hc' ..].
Qed.

Lemma duplicate_branch_unreachable ask parser log input :
  SkippedDuplicate ∉ stdout (process_unprocessed_log ask parser log input).1.
Proof.
  assert (H0 : covered {| self := parser; new_patterns := ∅;
                          llm_queries := 0; stdin := input;
                          stdout := [] |}).
  { split; simpl; [set_solver | apply not_elem_of_nil]. }
  unfold process_unprocessed_log. destruct log as [text|]; [|apply H0].
  pose proof (process_lines_covered ask
                (imap (fun i line => (S i, line)) (PyStr.splitlines text))
                _ H0) as [_ Hs].
  destruct (process_lines _ _ _) as [st r]. exact Hs.
Qed.

Lemma analyze_rejected fields regex line :
  fields !! "regex" = Some regex -> Spec.accepts regex line = false ->
  analyze_line_with_llm (Object fields) line = Return None.
Proof.
  intros Hf Ha. unfold analyze_line_with_llm, getitem, re_match, py_compile.
  simpl. rewrite Hf. simpl. unfold Spec.accepts in Ha.
  destruct (re_compile regex) as [c|]; simpl; [|reflexivity].
  rewrite Ha. reflexivity.
Qed.

(** C8, as the code has it.  In a run a regex that the session has
    created is the regex of a cached pattern, so the oracle is asked
    again only for a line that this regex does not match.  A proposal
    of it is then rejected: the store, the cache and [new_patterns] are
    left as they are, and the summary shows "Failed to create pattern",
    with no pattern id.  So no regex occurs twice among the rows a
    session adds, and the "skipping duplicate" branch is never
    taken. *)
Theorem duplicate_proposal_skipped ask st line_num line fields regex :
  Spec.covered st ->
  find_match line (patterns (self st)).1 = Return None ->
  ask (S (llm_queries st)) line = Object fields ->
  fields !! "regex" = Some regex ->
  regex ∈ new_patterns st ->
  let st' := (process_line ask st line_num line).1 in
  pattern_store (self st') = pattern_store (self st)
  /\ (patterns (self st')).1 = (patterns (self st)).1
  /\ new_patterns st' = new_patterns st
  /\ stdout st' = stdout st ++ [FailedToCreate]
  /\ Spec.shown_id FailedToCreate = None
  /\ (forall ask parser log input,
        let s := (process_unprocessed_log ask parser log input).1 in
        SkippedDuplicate ∉ stdout s
        /\ exists added,
             rows (pattern_store (self s))
             = rows (pattern_store parser) ++ added
             /\ NoDup (log_patterns.regex <$> added))
  /\ (forall ask parser input lines,
        Spec.covered
          (process_lines ask
             {| self := parser; new_patterns := ∅; llm_queries := 0;
                stdin := input; stdout := [] |} lines).1).
Proof.
  intros [Hc _] Hfind Hask Hf Hin st'.
  assert (Hrej : Spec.accepts regex line = false).
  { destruct (Hc regex Hin) as (p & Hp & <-).
    rewrite find_match_find in Hfind. injection Hfind as Hfind.
    apply (proj1 (find_none_iff _ _) Hfind p Hp). }
  assert (Hst : st' = (pause line_num
                         (print (count_query
                                   (with_self st (patterns (self st)).2))
                            FailedToCreate)).1).
  { subst st'. unfold process_line.
    destruct (patterns (self st)) as [ps self1]. cbn [fst snd] in *.
    rewrite Hfind. cbn [count_query with_self llm_queries].
    rewrite Hask, (analyze_rejected fields regex line Hf Hrej). reflexivity. }
  split; [|split; [|split; [|split; [|split; [|split]]]]].
  - rewrite Hst, pause_self. cbn [print count_query with_self self].
    apply patterns_store.
  - rewrite Hst, pause_self. cbn [print count_query with_self self].
    pose proof (patterns_cache (self st)) as Hcache.
    unfold patterns at 1. rewrite Hcache. reflexivity.
  - rewrite Hst, pause_new_patterns. reflexivity.
  - rewrite Hst, pause_stdout. reflexivity.
  - reflexivity.
  - intros ask' parser log input s. split.
    + apply duplicate_branch_unreachable.
    + destruct (session_grown ask' parser log input)
        as (added & Hr & _ & Hnd & _ & _).
      exists added. split; [exact Hr | exact Hnd].
  - intros ask' parser input lines. apply process_lines_covered.
    split; simpl; [set_solver | apply not_elem_of_nil].
Qed.

End IngestionClaims.

(** ** Proposals whose regex does not compile *)

Section InvalidRegex.
Context `{RegexEngine}.
Import log_patterns llm_parser.
Local Open Scope list_scope.

Lemma validate_regex_invalid pattern line :
  re_compile pattern = None ->
  add_pattern.validate_regex pattern line = false.
Proof.
  intros E. unfold add_pattern.validate_regex, py_compile. rewrite E.
  reflexivity.
Qed.

(** On the oracle path a regex that does not compile is dropped: the
    line is reported as failed and the store is not written. *)
Lemma oracle_invalid_regex_no_write ask st line_num line fields regex :
  find_match line (patterns (self st)).1 = Return None ->
  ask (S (llm_queries st)) line = Object fields ->
  fields !! "regex" = Some regex -> re_compile regex = None ->
  let st' := (process_line ask st line_num line).1 in
  pattern_store (self st') = pattern_store (self st)
  /\ stdout st' = stdout st ++ [FailedToCreate].
Proof.
  intros Hf Ha Hr Hc. unfold process_line.
  pose proof (patterns_store (self st)) as Hs.
  destruct (patterns (self st)) as [ps self1]. simpl in Hf, Hs.
  rewrite Hf. simpl. rewrite Ha, (analyze_invalid_regex _ _ _ Hr Hc).
  rewrite pause_self, pause_stdout. simpl. auto.
Qed.

(** In [add_pattern.main], picking 3 after a regex was refused leaves
    the loop with that regex still in hand. *)
Lemma read_regex_cancel line r rest :
  PyStr.truthy (PyStr.strip r) = true ->
  re_compile (PyStr.strip r) = None ->
  add_pattern.read_regex line (r :: "3" :: rest)
    = Some (PyStr.strip r, rest).
Proof.
  intros Ht Hc. simpl. rewrite Ht. simpl.
  rewrite (validate_regex_invalid _ _ Hc). reflexivity.
Qed.

End InvalidRegex.

(** ** The claims on concrete inputs *)

Section Concrete.
Import log_patterns Scenario.
Local Open Scope list_scope.

(** C4, where the code departs from it.  A stored pattern whose regex
    does not compile makes [matches] return [False] and [parse_line]
    goes on to the next pattern, but no warning is printed:
    [parse_line] prints nothing at all. *)
Theorem invalid_regex_warning_never_printed :
  re_compile (regex bad_pattern) = None
  /\ matches bad_pattern build_line = Return false
  /\ add_pattern.parse_line build_line [bad_pattern] = ([], Return None)
  /\ add_pattern.parse_line build_line [bad_pattern; build_pattern]
     = ([], Return (Some build_pattern))
  /\ forall line ps, (add_pattern.parse_line line ps).1 = [].
Proof.
  repeat split; try (vm_compute; reflexivity).
  intros line ps. apply parse_line_prints_nothing.
Qed.

(** C9, where the code departs from it.  In [add_pattern.main] a regex
    that does not compile is refused by [validate_regex], but when the
    user then picks 3 ("Cancel pattern creation") the program goes on
    to ask for the utility and the error flag and stores the regex. *)
Theorem cancelled_invalid_regex_is_stored :
  re_compile "(unclosed" = None
  /\ add_pattern.validate_regex "(unclosed" "x" = false
  /\ add_pattern.read_regex "x" ["(unclosed"; "3"; "u"; "n"]
     = Some ("(unclosed", ["u"; "n"])
  /\ rows (add_pattern.main empty_store cancel_script) = [bad_pattern].
Proof. repeat split; vm_compute; reflexivity. Qed.


End Concrete.

(** ** The theorems at concrete inputs *)

Section Witnesses.
Import log_patterns embeddings Scenario.
Local Open Scope list_scope.

Lemma reducer_counts_per_utility_witness :
  Spec.real_lines error_line = [error_line]
  /\ exists e e',
       generate_embedding (_initialize_mappings [make_error; any_error])
         build_line = Return e
       /\ generate_embedding (_initialize_mappings [make_error; any_error])
            (build_line ++ Spec.newline ++ error_line)%string = Return e'.
Proof.
  split; [reflexivity|].
  destruct (reducer_counts_per_utility [make_error; any_error] build_line
              error_line eq_refl) as (e & e' & He & He' & _).
  exists e, e'. split; [exact He | exact He'].
Defined.

Lemma classify_first_match_witness :
  Spec.ids_increasing [make_error; any_error]
  /\ matches make_error error_line = Return true
  /\ matches any_error error_line = Return true
  /\ exists r,
       List.find (fun p => Spec.accepts (regex p) error_line)
         [make_error; any_error] = Some r
       /\ (id r <= id make_error)%Z /\ r <> any_error.
Proof.
  assert (Hs : Spec.ids_increasing [make_error; any_error]).
  { repeat constructor. }
  split; [exact Hs|]. split; [reflexivity|]. split; [reflexivity|].
  destruct (classify_first_match error_line [make_error; any_error])
    as (_ & _ & _ & _ & _ & Hlow).
  apply (Hlow make_error any_error Hs).
  - left.
  - right. left.
  - reflexivity.
  - reflexivity.
  - reflexivity.
Defined.

Lemma utility_index_bijection_witness :
  Spec.utilities three_utilities = {[ "gcc"; "make"; "npm" ]}
  /\ _utility_mapping (_initialize_mappings three_utilities) !! "gcc"
     = Some 0
  /\ _utility_mapping (_initialize_mappings three_utilities) !! "make"
     = Some 1
  /\ _utility_mapping (_initialize_mappings three_utilities) !! "npm"
     = Some 2
  /\ dimension (_initialize_mappings three_utilities) = 3.
Proof.
  assert (Hu : Spec.utilities three_utilities = {[ "gcc"; "make"; "npm" ]}).
  { vm_compute. reflexivity. }
  split; [exact Hu|].
  destruct (utility_index_bijection three_utilities)
    as (_ & _ & _ & _ & _ & _ & Hex).
  exact (Hex Hu).
Defined.

Lemma blank_lines_ignored_witness :
  Spec.blank "   " = true
  /\ generate_embedding (_initialize_mappings [make_error; any_error])
       (error_line ++ Spec.newline ++ "   " ++ Spec.newline ++ build_line)%string
     = generate_embedding (_initialize_mappings [make_error; any_error])
         (error_line ++ Spec.newline ++ build_line)%string.
Proof.
  split; [reflexivity|].
  exact (proj1 (blank_lines_ignored
                  (_initialize_mappings [make_error; any_error])
                  error_line "   " build_line eq_refl)).
Defined.


End Witnesses.

(** ** A regex proposed twice in one session *)

Section RepeatedProposal.
Import log_patterns llm_parser llm_parser_more Scenario.
Local Open Scope list_scope.

(** C8 as stated fails: in a run over two lines for both of which the
    oracle proposes the same regex, one pattern is created, and the
    second proposal prints "Failed to create pattern for this line";
    no pattern id comes back, where the claim has the id 1 of the
    existing pattern returned. *)
Lemma duplicate_proposal_yields_no_id :
  let run := process_unprocessed_log same_proposal (new_parser empty_store)
               (Some two_lines) [] in
  stdout run.1 = [Added 1 "u" "^a$" false; FailedToCreate]
  /\ Spec.shown_id <$> stdout run.1 = [Some 1%Z; None]
  /\ rows (pattern_store (self run.1))
     = [{| id := 1; regex := "^a$"; utility_name := "u";
           is_error := false; need_reviewing := true |}]
  /\ llm_queries run.1 = 2.
Proof. vm_compute. repeat split. Qed.

Lemma duplicate_proposal_skipped_witness :
  let st0 := {| self := new_parser empty_store; new_patterns := ∅;
                llm_queries := 0; stdin := []; stdout := [] |} in
  let st := (process_lines same_proposal st0 [(1, "a")]).1 in
  Spec.covered st
  /\ "^a$" ∈ new_patterns st
  /\ find_match "b" (patterns (self st)).1 = Return None
  /\ stdout (process_line same_proposal st 2 "b").1
     = [Added 1 "u" "^a$" false; FailedToCreate]
  /\ pattern_store (self (process_line same_proposal st 2 "b").1)
     = pattern_store (self st).
Proof.
  intros st0 st.
  assert (Hc : Spec.covered st).
  { apply process_lines_covered.
    split; simpl; [set_solver | apply not_elem_of_nil]. }
  assert (Hin : "^a$" ∈ new_patterns st).
  { vm_compute. set_solver. }
  assert (Hf : find_match "b" (patterns (self st)).1 = Return None).
  { vm_compute. reflexivity. }
  destruct (duplicate_proposal_skipped same_proposal st 2 "b"
              {[ "regex" := "^a$"; "utility_name" := "u" ]} "^a$"
              Hc Hf eq_refl eq_refl Hin) as (Hs & _ & _ & Hout & _).
  split; [exact Hc|]. split; [exact Hin|]. split; [exact Hf|].
  split; [|exact Hs]. rewrite Hout. vm_compute. reflexivity.
Defined.

End RepeatedProposal.


(** * Further properties of the code *)

(** ** The pattern store *)

Section StoreOperations.
Import log_patterns log_patterns_more.
Local Open Scope list_scope.
Local Open Scope Z_scope.

Lemma get_pattern_none_iff store i :
  get_pattern store i = None <-> forall p, p ∈ rows store -> id p <> i.
Proof.
  unfold get_pattern. rewrite find_none_iff. split; intros Hall p Hp.
  - apply Z.eqb_neq, Hall, Hp.
  - apply Z.eqb_neq, Hall, Hp.
Qed.

Lemma get_pattern_id store i p : get_pattern store i = Some p -> id p = i.
Proof.
  unfold get_pattern. intros (_ & _ & _ & Hp & _)%find_first.
  apply Z.eqb_eq, Hp.
Qed.

Lemma find_app_none {A} (f : A -> bool) l1 l2 :
  List.find f l1 = None -> List.find f (l1 ++ l2) = List.find f l2.
Proof.
  induction l1 as [|x l1 IH]; simpl; [reflexivity|].
  destruct (f x); [discriminate | exact IH].
Qed.

Lemma find_app_some {A} (f : A -> bool) l1 l2 x :
  List.find f l1 = Some x -> List.find f (l1 ++ l2) = Some x.
Proof.
  induction l1 as [|y l1 IH]; simpl; [discriminate|].
  destruct (f y); [tauto | exact IH].
Qed.

Lemma lastrowid_bounds rs b :
  0 <= b -> Forall (fun p => id p <= b) rs -> 0 <= lastrowid rs <= b.
Proof.
  intros Hb. induction 1 as [|p rs Hp _ IH]; simpl; lia.
Qed.

(** X1.  In a table whose rows are in id order, with ids from 0 to
    2^63 - 2 (where SQLite gives a new row the largest id plus one), a
    row that [add_pattern] inserts gets an id that no row had, above
    all of them and still in range, can be read back by that id exactly
    as it was given, comes last in [get_all_patterns], and leaves every
    other id as it was. *)
Theorem add_pattern_then_get store r u e n :
  Spec.ids_increasing (rows store) ->
  Forall (fun p => 0 <= id p < 2 ^ 63 - 1) (rows store) ->
  let i := (add_pattern store r u e n).1 in
  let store' := (add_pattern store r u e n).2 in
  let row := {| id := i; regex := r; utility_name := u; is_error := e;
                need_reviewing := n |} in
  get_pattern store i = None
  /\ get_pattern store' i = Some row
  /\ (forall j, j <> i -> get_pattern store' j = get_pattern store j)
  /\ get_all_patterns store' = get_all_patterns store ++ [row]
  /\ (forall p, p ∈ rows store -> id p < i)
  /\ 0 < i < 2 ^ 63
  /\ Spec.ids_increasing (rows store').
Proof.
  intros Hsorted Hrange i store' row.
  assert (Hlt : forall p, p ∈ rows store -> id p < i).
  { intros p Hp. pose proof (lastrowid_ge _ _ Hp). subst i. simpl. lia. }
  assert (Hnone : get_pattern store i = None).
  { apply get_pattern_none_iff. intros p Hp%Hlt. lia. }
  split; [exact Hnone|].
  split; [|split; [|split; [reflexivity | split; [exact Hlt|split]]]].
  - unfold get_pattern, store'. simpl. fold i.
    rewrite find_app_none by exact Hnone. simpl. rewrite Z.eqb_refl.
    reflexivity.
  - intros j Hj. unfold get_pattern, store'. simpl. fold i.
    destruct (List.find (fun p => id p =? j) (rows store)) as [p|] eqn:Ef.
    + apply find_app_some, Ef.
    + rewrite find_app_none by exact Ef. simpl.
      case Z.eqb_spec; [|reflexivity]. intros E. contradict Hj.
      subst i. simpl. congruence.
  - assert (Hb : 0 <= lastrowid (rows store) <= 2 ^ 63 - 2).
    { apply lastrowid_bounds; [lia|].
      eapply Forall_impl; [exact Hrange|]. simpl. intros p Hp. lia. }
    subst i. simpl. lia.
  - apply add_pattern_ids_increasing, Hsorted.
Qed.

Lemma filter_id_ne_find rs i j :
  j <> i ->
  List.find (fun p => id p =? j) (filter (fun p => id p ≠ i) rs)
    = List.find (fun p => id p =? j) rs.
Proof.
  intros Hj. induction rs as [|p rs IH]; [reflexivity|].
  rewrite filter_cons. destruct (decide (id p ≠ i)) as [Hp|Hp]; simpl.
  - rewrite IH. reflexivity.
  - apply dec_stable in Hp. rewrite IH.
    rewrite (proj2 (Z.eqb_neq (id p) j)) by congruence. reflexivity.
Qed.

Lemma ids_increasing_filter (P : LogPattern -> Prop)
    `{forall p, Decision (P p)} rs :
  Spec.ids_increasing rs -> Spec.ids_increasing (filter P rs).
Proof.
  unfold Spec.ids_increasing. induction 1 as [|p rs Hs IH Hall].
  - constructor.
  - rewrite filter_cons. destruct (decide (P p)); [|exact IH].
    constructor; [exact IH|]. apply Forall_forall. intros q Hq.
    apply list_elem_of_filter in Hq as [_ Hq].
    rewrite Forall_forall in Hall. apply Hall, Hq.
Qed.

(** X2.  [delete_pattern] answers whether a row had the id; afterwards
    the id is gone, every other id reads as before, the rows that
    remain keep their order, and deleting an id that no row has changes
    nothing. *)
Theorem delete_pattern_spec store i :
  let found := (delete_pattern store i).1 in
  let store' := (delete_pattern store i).2 in
  (found = true <-> is_Some (get_pattern store i))
  /\ get_pattern store' i = None
  /\ (forall j, j <> i -> get_pattern store' j = get_pattern store j)
  /\ (found = false -> store' = store)
  /\ (Spec.ids_increasing (rows store) -> Spec.ids_increasing (rows store')).
Proof.
  intros found store'. split; [|split; [|split; [|split]]].
  - subst found. unfold delete_pattern, get_pattern. simpl.
    rewrite existsb_exists. split.
    + intros (p & Hp & Hid).
      destruct (List.find (fun p => id p =? i) (rows store)) eqn:Ef; [eauto|].
      apply find_none_iff with (x := p) in Ef; [congruence|].
      apply list_elem_of_In, Hp.
    + intros [p (l1 & l2 & -> & Hp & _)%find_first]. exists p.
      split; [apply in_elt | exact Hp].
  - apply get_pattern_none_iff. subst store'. simpl.
    intros p [Hp _]%list_elem_of_filter. exact Hp.
  - intros j Hj. apply filter_id_ne_find, Hj.
  - subst found store'. unfold delete_pattern. simpl. intros Hf.
    destruct store as [rs]. simpl in *. f_equal.
    induction rs as [|p rs IH]; [reflexivity|].
    simpl in Hf. apply orb_false_iff in Hf as [Hp Hf].
    rewrite filter_cons. apply Z.eqb_neq in Hp.
    rewrite decide_True by exact Hp. f_equal. apply IH, Hf.
  - apply ids_increasing_filter.
Qed.

End StoreOperations.

Section StoreOperationsWitness.
Import log_patterns log_patterns_more Scenario.
Local Open Scope list_scope.
Local Open Scope Z_scope.

Lemma add_pattern_then_get_witness :
  Spec.ids_increasing [make_error; any_error]
  /\ Forall (fun p => 0 <= id p < 2 ^ 63 - 1) [make_error; any_error]
  /\ get_pattern
       (add_pattern {| rows := [make_error; any_error] |}
          "^gcc: " "gcc" false true).2 3
     = Some {| id := 3; regex := "^gcc: "; utility_name := "gcc";
               is_error := false; need_reviewing := true |}.
Proof.
  assert (Hs : Spec.ids_increasing [make_error; any_error]).
  { repeat constructor. }
  assert (Hr : Forall (fun p => 0 <= id p < 2 ^ 63 - 1)
                 [make_error; any_error]).
  { repeat constructor; simpl; lia. }
  split; [exact Hs|]. split; [exact Hr|].
  exact (proj1 (proj2 (add_pattern_then_get
                         {| rows := [make_error; any_error] |}
                         "^gcc: " "gcc" false true Hs Hr))).
Defined.

End StoreOperationsWitness.

Section ReviewFlag.
Context `{RegexEngine}.
Import log_patterns log_patterns_more embeddings.
Local Open Scope list_scope.

Lemma review_fields i p :
  id (review i p) = id p /\ regex (review i p) = regex p
  /\ utility_name (review i p) = utility_name p
  /\ is_error (review i p) = is_error p.
Proof. unfold review. destruct (id p =? i)%Z; repeat split. Qed.

Lemma find_fmap {A B} (f : A -> B) (P : B -> bool) l :
  List.find P (f <$> l) = f <$> List.find (fun x => P (f x)) l.
Proof.
  induction l as [|x l IH]; [reflexivity|].
  simpl. destruct (P (f x)); [reflexivity | exact IH].
Qed.

Lemma find_ext_eq {A} (P Q : A -> bool) l :
  (forall x, P x = Q x) -> List.find P l = List.find Q l.
Proof.
  intros E. induction l as [|x l IH]; [reflexivity|].
  simpl. rewrite E, IH. reflexivity.
Qed.

Lemma initialize_review i ps :
  _initialize_mappings (review i <$> ps) = _initialize_mappings ps.
Proof.
  assert (E : forall d,
    foldl (fun d pattern =>
             dict_append d (utility_name pattern)
               (regex pattern, is_error pattern)) d (review i <$> ps)
    = foldl (fun d pattern =>
               dict_append d (utility_name pattern)
                 (regex pattern, is_error pattern)) d ps).
  { induction ps as [|p ps IH]; intros d; [reflexivity|].
    simpl. destruct (review_fields i p) as (_ & -> & -> & ->). apply IH. }
  unfold _initialize_mappings. rewrite E. reflexivity.
Qed.

(** X3.  [mark_reviewed] clears the review flag of the row with that id
    and touches nothing else; the flag is advisory: the pattern that
    classifies a line is the same row as before, and every embedding is
    the same vector.  Marking twice is marking once. *)
Theorem mark_reviewed_is_advisory store i :
  let store' := mark_reviewed store i in
  get_pattern store' i = reviewed <$> get_pattern store i
  /\ (forall j, j <> i -> get_pattern store' j = get_pattern store j)
  /\ (forall line,
        (add_pattern.parse_line line (rows store')).2
          = Return (review i <$>
                      List.find (fun p => Spec.accepts (regex p) line)
                        (rows store))
        /\ (add_pattern.parse_line line (rows store)).2
           = Return (List.find (fun p => Spec.accepts (regex p) line)
                       (rows store)))
  /\ (forall text,
        generate_embedding (_initialize_mappings (rows store')) text
          = generate_embedding (_initialize_mappings (rows store)) text)
  /\ mark_reviewed store' i = store'
  /\ (Spec.ids_increasing (rows store) -> Spec.ids_increasing (rows store')).
Proof.
  intros store'. split; [|split; [|split; [|split; [|split]]]].
  - unfold get_pattern, store', mark_reviewed. simpl.
    rewrite find_fmap.
    rewrite (find_ext_eq _ (fun p => (id p =? i)%Z))
      by (intros p; destruct (review_fields i p) as (-> & _); reflexivity).
    destruct (List.find _ (rows store)) as [p|] eqn:Ef; [|reflexivity].
    simpl. f_equal. unfold review.
    apply find_first in Ef as (_ & _ & _ & -> & _). reflexivity.
  - intros j Hj. unfold get_pattern, store', mark_reviewed. simpl.
    rewrite find_fmap.
    rewrite (find_ext_eq _ (fun p => (id p =? j)%Z))
      by (intros p; destruct (review_fields i p) as (-> & _); reflexivity).
    destruct (List.find _ (rows store)) as [p|] eqn:Ef; [|reflexivity].
    simpl. f_equal. unfold review.
    apply find_first in Ef as (_ & _ & _ & Hp%Z.eqb_eq & _).
    rewrite (proj2 (Z.eqb_neq (id p) i)) by congruence. reflexivity.
  - intros line. split; [|apply parse_line_find].
    rewrite parse_line_find. f_equal. unfold store', mark_reviewed. simpl.
    rewrite find_fmap. f_equal. apply find_ext_eq. intros p.
    destruct (review_fields i p) as (_ & -> & _). reflexivity.
  - intros text. unfold store', mark_reviewed. simpl.
    rewrite initialize_review. reflexivity.
  - unfold store', mark_reviewed. simpl. f_equal.
    rewrite <- list_fmap_compose. apply list_fmap_ext. intros _ p _. simpl.
    unfold review. destruct (id p =? i)%Z eqn:E; simpl; rewrite E; reflexivity.
  - unfold store', mark_reviewed, Spec.ids_increasing. simpl.
    apply StronglySorted_fmap. intros p q Hpq.
    destruct (review_fields i p) as (-> & _).
    destruct (review_fields i q) as (-> & _). exact Hpq.
Qed.

End ReviewFlag.

(** ** More on the utility index and the reducer *)

Section IndexNames.
Import Spec log_patterns embeddings embeddings_more.
Local Open Scope list_scope.

#[local] Instance by_index_trans : Transitive by_index.
Proof. intros a b c. unfold by_index. lia. Qed.

#[local] Instance by_index_total : Total by_index.
Proof. intros a b. unfold by_index. lia. Qed.

Lemma numbered_sorted (l : list string) k :
  StronglySorted by_index (imap (fun i u => (u, k + i)) l).
Proof.
  revert k. induction l as [|x l IH]; intros k; simpl; constructor.
  - rewrite (imap_ext _ (fun i u => (u, S k + i))); [apply IH|].
    intros i u _. simpl. f_equal. lia.
  - apply Forall_forall. intros [u j] (i & v & [= -> ->] & _)%elem_of_lookup_imap.
    unfold by_index. simpl. lia.
Qed.

Lemma numbered_fst (l : list string) :
  (imap (fun i u => (u, i)) l).*1 = l.
Proof.
  rewrite fmap_imap. rewrite (imap_ext _ (fun _ u => u)) by reflexivity.
  induction l as [|x l IH]; [reflexivity|]. simpl. f_equal. exact IH.
Qed.

Lemma items_sorted_by_index names :
  NoDup names ->
  merge_sort by_index (map_to_list (index_of names))
    = imap (fun i u => (u, i)) names.
Proof.
  intros Hnd.
  assert (Hperm : map_to_list (index_of names)
                  ≡ₚ imap (fun i u => (u, i)) names).
  { apply NoDup_Permutation.
    - apply NoDup_map_to_list.
    - apply (NoDup_fmap_1 fst). rewrite numbered_fst. exact Hnd.
    - intros [u i]. rewrite elem_of_map_to_list, (index_of_lookup _ Hnd).
      rewrite elem_of_lookup_imap. split.
      + intros Hi. exists i, u. auto.
      + intros (j & v & [= -> ->] & Hj). exact Hj. }
  apply StronglySorted_unique_strong with (R := by_index).
  - intros [u i] [v j] Hu Hv Hle Hge. unfold by_index in Hle, Hge.
    simpl in Hle, Hge. assert (i = j) as -> by lia. f_equal.
    rewrite merge_sort_Permutation, Hperm in Hu.
    apply elem_of_lookup_imap in Hu as (? & ? & [= -> ->] & Hu).
    apply elem_of_lookup_imap in Hv as (? & ? & [= -> ->] & Hv).
    congruence.
  - apply StronglySorted_merge_sort; apply _.
  - apply (numbered_sorted names 0).
  - rewrite merge_sort_Permutation. exact Hperm.
Qed.

Lemma utility_names_sorted_keys ps :
  utility_names (_initialize_mappings ps) = sorted (grouped ps).*1.
Proof.
  unfold utility_names. rewrite mapping_is_index.
  rewrite items_sorted_by_index by apply sorted_keys_NoDup.
  apply numbered_fst.
Qed.

(** X4.  [utility_names] is the inverse of the utility index: the name
    at position [i] is the one the index sends to [i]; the list has one
    entry per coordinate, no name twice, in lexicographic order. *)
Theorem utility_names_inverts_index ps :
  let g := _initialize_mappings ps in
  length (utility_names g) = dimension g
  /\ NoDup (utility_names g)
  /\ StronglySorted str_le (utility_names g)
  /\ (forall u i,
        utility_names g !! i = Some u <-> _utility_mapping g !! u = Some i)
  /\ (forall u, u ∈ utility_names g <-> u ∈ Spec.utilities ps).
Proof.
  intros g. subst g. rewrite utility_names_sorted_keys.
  split; [|split; [|split; [|split]]].
  - rewrite dimension_keys. apply Permutation_length, sorted_perm.
  - apply sorted_keys_NoDup.
  - apply sorted_strongly.
  - intros u i. symmetry. apply mapping_lookup.
  - intros u. rewrite sorted_perm. apply grouped_spec.
Qed.

End IndexNames.


Section ReducerExtras.
Context `{RegexEngine}.
Import Spec SpecMore log_patterns embeddings.
Local Open Scope list_scope.
Local Open Scope Z_scope.

Lemma mapping_onto ps i :
  (i < dimension (_initialize_mappings ps))%nat ->
  exists u, _utility_mapping (_initialize_mappings ps) !! u = Some i.
Proof.
  intros Hi. rewrite dimension_keys in Hi.
  rewrite <- (Permutation_length (sorted_perm _)) in Hi.
  apply lookup_lt_is_Some_2 in Hi as [u Hu]. exists u.
  apply mapping_lookup, Hu.
Qed.

Lemma error_lines_range u ps lines :
  0 <= error_lines u ps lines <= Z.of_nat (length lines).
Proof.
  unfold error_lines. split; [lia|]. apply inj_le.
  induction lines as [|l lines IH]; simpl; [lia|].
  destruct (counts_as_error l (patterns_of u ps)); simpl; lia.
Qed.

Lemma counts_as_error_harmless line b :
  Forall (fun rp : string * bool => rp.2 = false) b ->
  counts_as_error line b = false.
Proof. intros Hb. apply (counts_as_error_app_harmless line [] b Hb). Qed.

Lemma error_lines_zero u ps lines :
  (forall l, l ∈ lines -> counts_as_error l (patterns_of u ps) = false) ->
  error_lines u ps lines = 0.
Proof.
  intros Hz. unfold error_lines.
  induction lines as [|l lines IH]; [reflexivity|]. simpl.
  rewrite Hz by constructor. apply IH. intros l' Hl'. apply Hz.
  constructor. exact Hl'.
Qed.

(** Two vectors of the reducer are equal when they agree on every
    utility. *)
Lemma total_vector_pointwise ps lines (v : list Z) :
  Forall (fun l => blank l = false) lines ->
  length v = dimension (_initialize_mappings ps) ->
  (forall u i, _utility_mapping (_initialize_mappings ps) !! u = Some i ->
               v !! i = Some (error_lines u ps lines)) ->
  total_vector (_initialize_mappings ps) lines = v.
Proof.
  intros Hl Hlen Hv. apply list_eq. intros i.
  destruct (decide (i < dimension (_initialize_mappings ps))%nat) as [Hi|Hi].
  - destruct (mapping_onto ps i Hi) as [u Hu].
    rewrite (total_vector_lookup ps u i lines Hu Hl). symmetry. eauto.
  - rewrite !lookup_ge_None_2; [reflexivity | lia |].
    rewrite total_vector_length. lia.
Qed.

(** X5.  [generate_embedding] returns a vector when every stored regex
    compiles, and a vector that it returns has one coordinate per
    utility, each between 0 and the number of non-blank lines of the
    log; it is all zeros for a log without a non-blank line and for a
    snapshot without error patterns, and it is empty for an empty
    snapshot. *)
Theorem embedding_bounds ps text :
  let g := _initialize_mappings ps in
  (Forall (fun p => compiles (regex p) = true) ps ->
   exists e, generate_embedding g text = Return e)
  /\ forall e,
       generate_embedding g text = Return e ->
       length e = dimension g
       /\ Forall (fun x => 0 <= x <= Z.of_nat (length (real_lines text))) e
       /\ (real_lines text = [] -> e = replicate (dimension g) 0)
       /\ (Forall (fun p => is_error p = false) ps ->
           e = replicate (dimension g) 0)
       /\ (ps = [] -> e = []).
Proof.
  intros g.
  pose proof (generate_embedding_total ps text) as Ht. fold g in Ht.
  split; [intros _; eexists; exact Ht|].
  intros e He.
  assert (E : e = total_vector g (real_lines text)).
  { rewrite Ht in He. injection He as <-. reflexivity. }
  subst e. clear He.
  split; [apply total_vector_length|].
  split; [|split; [|split]].
  - apply Forall_lookup. intros i x Hx.
    assert (Hi : (i < dimension g)%nat).
    { apply lookup_lt_Some in Hx. rewrite total_vector_length in Hx. exact Hx. }
    destruct (mapping_onto ps i Hi) as [u Hu].
    rewrite (total_vector_lookup ps u i _ Hu (real_lines_not_blank _)) in Hx.
    injection Hx as <-. apply error_lines_range.
  - intros ->. apply total_vector_nil.
  - intros Hps. apply total_vector_pointwise.
    + apply real_lines_not_blank.
    + apply length_replicate.
    + intros u i Hi. rewrite lookup_replicate_2 by (eapply mapping_bound, Hi).
      f_equal. symmetry. apply error_lines_zero. intros l _.
      apply counts_as_error_harmless, patterns_of_harmless, Hps.
  - intros ->. reflexivity.
Qed.

Lemma counts_as_error_compiling line (l : list (string * bool)) :
  counts_as_error line (List.filter (fun rp => compiles rp.1) l)
    = counts_as_error line l.
Proof.
  induction l as [|[r e] l IH]; [reflexivity|].
  simpl List.filter. unfold compiles at 1. simpl.
  destruct (re_compile r) as [c|] eqn:Ec.
  - rewrite !counts_as_error_cons, IH. reflexivity.
  - rewrite (counts_as_error_cons line r e l).
    replace (accepts r line) with false
      by (unfold accepts; rewrite Ec; reflexivity).
    exact IH.
Qed.

Lemma patterns_of_filter u (f : string -> bool) ps :
  patterns_of u (List.filter (fun p => f (regex p)) ps)
    = List.filter (fun rp => f rp.1) (patterns_of u ps).
Proof.
  unfold patterns_of. induction ps as [|p ps IH]; [reflexivity|]. simpl.
  destruct (f (regex p)) eqn:Ef; simpl;
    destruct (String.eqb (utility_name p) u); simpl; rewrite ?Ef, IH;
    reflexivity.
Qed.

Lemma utilities_patterns_of u ps :
  u ∈ utilities ps <-> patterns_of u ps <> [].
Proof.
  unfold utilities, patterns_of. rewrite elem_of_list_to_set, list_elem_of_fmap.
  induction ps as [|p ps IH]; simpl.
  - split; [intros (? & _ & Hp); inversion Hp | congruence].
  - destruct (String.eqb_spec (utility_name p) u) as [E|E]; simpl.
    + split; [discriminate|]. intros _. exists p. split; [auto | constructor].
    + rewrite <- IH. split.
      * intros (q & -> & Hq). apply elem_of_cons in Hq as [->|Hq];
          [congruence | eauto].
      * intros (q & -> & Hq). exists q. split; [reflexivity|].
        constructor. exact Hq.
Qed.

(** X6.  A stored pattern whose regex does not compile is skipped by
    the reducer: each utility has the same count as in the embedding
    built without such patterns, and a utility that has only such
    patterns counts 0. *)
Theorem reducer_ignores_invalid_regexes ps text :
  let valid := List.filter (fun p => compiles (regex p)) ps in
  let g := _initialize_mappings ps in
  let g' := _initialize_mappings valid in
  exists e e',
    generate_embedding g text = Return e
    /\ generate_embedding g' text = Return e'
    /\ forall u i,
         _utility_mapping g !! u = Some i ->
         (forall i', _utility_mapping g' !! u = Some i' -> e !! i = e' !! i')
         /\ (_utility_mapping g' !! u = None -> e !! i = Some 0).
Proof.
  intros valid g g'.
  exists (total_vector g (real_lines text)),
         (total_vector g' (real_lines text)).
  split; [apply generate_embedding_total|].
  split; [apply generate_embedding_total|].
  assert (Heq : forall u lines,
            error_lines u valid lines = error_lines u ps lines).
  { intros u lines. unfold error_lines. do 2 f_equal.
    apply List.filter_ext. intros l. unfold valid.
    rewrite (patterns_of_filter u compiles). apply counts_as_error_compiling. }
  intros u i Hi.
  rewrite (total_vector_lookup ps u i _ Hi (real_lines_not_blank _)).
  split.
  - intros i' Hi'.
    rewrite (total_vector_lookup valid u i' _ Hi' (real_lines_not_blank _)).
    rewrite Heq. reflexivity.
  - intros Hnone. f_equal. rewrite <- Heq. apply error_lines_zero.
    intros l _.
    assert (Hempty : patterns_of u valid = []).
    { destruct (patterns_of u valid) eqn:E; [reflexivity|]. exfalso.
      assert (Hu : u ∈ utilities valid)
        by (apply utilities_patterns_of; congruence).
      apply mapping_dom in Hu as [j Hj]. unfold g' in Hnone. congruence. }
    rewrite Hempty. reflexivity.
Qed.

Lemma sorted_of_permutation l1 l2 : l1 ≡ₚ l2 -> sorted l1 = sorted l2.
Proof.
  intros Hp. apply StronglySorted_unique_strong with (R := str_le).
  - intros a b _ _. apply String.leb_antisym.
  - apply sorted_strongly.
  - apply sorted_strongly.
  - rewrite !sorted_perm. exact Hp.
Qed.

(** X7.  The embedding depends on the snapshot only through the list
    of patterns of each utility: two snapshots that give every utility
    the same list, whatever the order of the rows across utilities,
    have the same index and the same embedding of every log. *)
Theorem reducer_depends_on_utility_lists ps ps' text :
  (forall u, patterns_of u ps = patterns_of u ps') ->
  _utility_mapping (_initialize_mappings ps)
    = _utility_mapping (_initialize_mappings ps')
  /\ generate_embedding (_initialize_mappings ps) text
     = generate_embedding (_initialize_mappings ps') text.
Proof.
  intros Hsame.
  assert (Hm : _utility_mapping (_initialize_mappings ps)
               = _utility_mapping (_initialize_mappings ps')).
  { rewrite !mapping_is_index. f_equal. apply sorted_of_permutation.
    destruct (grouped_spec ps) as (Hnd & Hk & _).
    destruct (grouped_spec ps') as (Hnd' & Hk' & _).
    apply NoDup_Permutation; [assumption .. |].
    intros u. rewrite Hk, Hk', !utilities_patterns_of, Hsame. reflexivity. }
  split; [exact Hm|].
  rewrite !generate_embedding_total. f_equal.
  apply total_vector_pointwise.
  - apply real_lines_not_blank.
  - rewrite !total_vector_length. unfold dimension. rewrite Hm. reflexivity.
  - intros u i Hi. rewrite Hm in Hi.
    rewrite (total_vector_lookup ps' u i _ Hi (real_lines_not_blank _)).
    unfold error_lines. rewrite Hsame. reflexivity.
Qed.

End ReducerExtras.

Section ReducerExtrasWitness.
Import Spec SpecMore log_patterns embeddings Scenario.

Lemma embedding_bounds_witness :
  Forall (fun p => compiles (regex p) = true) [make_error; any_error]
  /\ generate_embedding (_initialize_mappings [make_error; any_error])
       error_line = Return [1; 1]%Z
  /\ length [1; 1]%Z
     = dimension (_initialize_mappings [make_error; any_error]).
Proof.
  assert (Hc : Forall (fun p => compiles (regex p) = true)
                 [make_error; any_error]).
  { repeat constructor. }
  assert (He : generate_embedding
                 (_initialize_mappings [make_error; any_error]) error_line
               = Return [1; 1]%Z).
  { vm_compute. reflexivity. }
  split; [exact Hc|]. split; [exact He|].
  exact (proj1 (proj2 (embedding_bounds [make_error; any_error] error_line)
                  [1; 1]%Z He)).
Defined.

Lemma reducer_depends_on_utility_lists_witness :
  (forall u, patterns_of u make_first = patterns_of u gcc_first)
  /\ generate_embedding (_initialize_mappings make_first) error_line
     = generate_embedding (_initialize_mappings gcc_first) error_line.
Proof.
  assert (Hsame : forall u, patterns_of u make_first = patterns_of u gcc_first).
  { intros u. unfold patterns_of, make_first, gcc_first.
    cbn [List.filter utility_name].
    destruct (String.eqb_spec "make" u) as [<-|_]; [reflexivity|].
    destruct (String.eqb "gcc" u); reflexivity. }
  split; [exact Hsame|].
  exact (proj2 (reducer_depends_on_utility_lists make_first gcc_first
                  error_line Hsame)).
Defined.

End ReducerExtrasWitness.


(** ** What a run of the oracle-driven parser leaves behind *)

Section SessionAccounting.
Context `{RegexEngine}.
Import Spec SpecMore log_patterns llm_parser llm_parser_more.
Local Open Scope list_scope.

Lemma update_patterns_agrees parser r u e :
  agrees parser -> agrees (_update_patterns parser r u e).2.
Proof.
  unfold agrees, _update_patterns. simpl.
  destruct (_patterns parser) as [ps|]; simpl; [|auto].
  intros E. rewrite !fmap_app, E. reflexivity.
Qed.

Lemma patterns_agrees parser :
  agrees parser ->
  agrees (patterns parser).2
  /\ matching_view <$> (patterns parser).1
     = matching_view <$> rows (pattern_store parser).
Proof.
  unfold agrees, patterns.
  destruct (_patterns parser) as [ps|] eqn:E; simpl; [|auto].
  rewrite E. auto.
Qed.

Lemma ingest_agrees st result :
  agrees (self st) -> agrees (self (ingest st result)).
Proof.
  intros Hc. destruct result as [[r u] e]. unfold ingest.
  destruct (decide (r ∉ new_patterns st)); [|exact Hc].
  pose proof (update_patterns_agrees (self st) r u e Hc) as Hc'.
  destruct (_update_patterns (self st) r u e). exact Hc'.
Qed.

Lemma process_line_agrees ask st n line :
  agrees (self st) -> agrees (self (process_line ask st n line).1).
Proof.
  intros Hc. unfold process_line.
  destruct (patterns_agrees _ Hc) as [Hc1 _].
  destruct (patterns (self st)) as [ps self1]. simpl in Hc1.
  destruct (find_match line ps) as [[p|]|e]; simpl.
  - rewrite pause_self. exact Hc1.
  - destruct (analyze_line_with_llm _ line) as [[result|]|e]; simpl.
    + rewrite pause_self. apply ingest_agrees. exact Hc1.
    + rewrite pause_self. exact Hc1.
    + exact Hc1.
  - exact Hc1.
Qed.

Lemma process_lines_agrees ask lines :
  forall st, agrees (self st) ->
  agrees (self (process_lines ask st lines).1).
Proof.
  induction lines as [|[n l] rest IH]; intros st Hc; [exact Hc|].
  cbn [process_lines]. destruct (negb _); [apply IH, Hc|].
  pose proof (process_line_agrees ask st n l Hc) as Hc'.
  destruct (process_line ask st n l) as [st' [| |e]]; simpl in *;
    [apply IH, Hc' | exact Hc' ..].
Qed.

Lemma find_view line (l1 l2 : list LogPattern) :
  matching_view <$> l1 = matching_view <$> l2 ->
  matching_view <$> List.find (fun p => accepts (regex p) line) l1
  = matching_view <$> List.find (fun p => accepts (regex p) line) l2.
Proof.
  revert l2. induction l1 as [|p l1 IH]; intros [|q l2] E;
    try discriminate; [reflexivity|].
  rewrite !fmap_cons in E. apply (f_equal head) in E as Ev.
  apply (f_equal tail) in E. cbn [head tail] in Ev, E.
  injection Ev as Hid Hre Her Hnr. simpl.
  rewrite Hre. destruct (accepts (regex q) line); [|apply IH, E].
  simpl. f_equal. unfold matching_view. congruence.
Qed.

(** X8.  The in-memory cache of the parser never drifts from the store
    in what matching uses: if it is unloaded, or has the ids, regexes
    and flags of the rows of the store before a run of
    [process_unprocessed_log], it has them after the run, whatever the
    oracle and the user answer and however the run ends; so a line is
    matched by the cache as it would be by a fresh read of the
    store. *)
Theorem cache_follows_store ask parser log input :
  agrees parser ->
  let parser' := self (process_unprocessed_log ask parser log input).1 in
  agrees parser'
  /\ matching_view <$> (patterns parser').1
     = matching_view <$> get_all_patterns (pattern_store parser')
  /\ forall line,
       matching_view
         <$> List.find (fun p => accepts (regex p) line) (patterns parser').1
       = matching_view
           <$> List.find (fun p => accepts (regex p) line)
                 (get_all_patterns (pattern_store parser')).
Proof.
  intros Hc parser'.
  assert (Hc' : agrees parser').
  { subst parser'. unfold process_unprocessed_log. destruct log as [text|].
    - pose proof (process_lines_agrees ask
                    (imap (fun i line => (S i, line)) (PyStr.splitlines text))
                    {| self := parser; new_patterns := ∅; llm_queries := 0;
                       stdin := input; stdout := [] |} Hc) as Hc'.
      destruct (process_lines _ _ _) as [st r]. exact Hc'.
    - exact Hc. }
  destruct (patterns_agrees _ Hc') as [_ Hv].
  split; [exact Hc'|]. split; [exact Hv|].
  intros line. apply find_view, Hv.
Qed.

Lemma process_lines_keeps (I : run_state -> Prop) (P : string -> Prop) ask :
  (forall st n l, P l -> blank l = false -> I st ->
                  I (process_line ask st n l).1) ->
  forall lines st,
    Forall (fun nl : nat * string => P nl.2) lines -> I st ->
    I (process_lines ask st lines).1.
Proof.
  intros Hstep. induction lines as [|[n l] rest IH]; intros st HP HI;
    [exact HI|].
  apply Forall_cons in HP as [Hl HP]. cbn [process_lines].
  change (negb (PyStr.truthy (PyStr.strip l))) with (blank l).
  destruct (blank l) eqn:Eb; [apply IH; assumption|].
  pose proof (Hstep st n l Hl Eb HI) as HI'.
  destruct (process_line ask st n l) as [st' [| |e]]; simpl in *;
    [apply IH; assumption | exact HI' ..].
Qed.

Lemma logged_same lines parser st st' :
  logged lines parser st ->
  pattern_store (self st') = pattern_store (self st) ->
  omap event_row (stdout st') = omap event_row (stdout st) ->
  logged lines parser st'.
Proof. unfold logged. intros [Hr Hf] -> ->. auto. Qed.

Lemma logged_print lines parser st ev :
  event_row ev = None -> logged lines parser st ->
  logged lines parser (print st ev).
Proof.
  intros Hev Hl. eapply logged_same; [exact Hl | reflexivity|].
  simpl. rewrite omap_app. simpl. rewrite Hev. apply app_nil_r.
Qed.

Lemma logged_pause lines parser n st :
  logged lines parser st -> logged lines parser (pause n st).1.
Proof.
  intros Hl. eapply logged_same; [exact Hl | |].
  - rewrite pause_self. reflexivity.
  - rewrite pause_stdout. reflexivity.
Qed.

Lemma logged_ingest lines parser st r u line :
  line ∈ lines -> blank line = false -> accepts r line = true ->
  logged lines parser st -> logged lines parser (ingest st (r, u, false)).
Proof.
  intros Hin Hb Hacc [Hr Hf]. unfold ingest.
  destruct (decide (r ∉ new_patterns st)).
  - unfold logged, _update_patterns. simpl. rewrite omap_app. simpl.
    rewrite Hr, app_assoc. split; [reflexivity|].
    apply Forall_app. split; [exact Hf|]. repeat constructor; simpl.
    exists line. auto.
  - apply logged_print; [reflexivity | split; assumption].
Qed.

Lemma process_line_logged lines parser ask st n line :
  line ∈ lines -> blank line = false ->
  logged lines parser st -> logged lines parser (process_line ask st n line).1.
Proof.
  intros Hin Hb Hl. unfold process_line.
  pose proof (patterns_store (self st)) as Hs.
  destruct (patterns (self st)) as [ps self1]. simpl in Hs.
  assert (Hl1 : logged lines parser (with_self st self1)).
  { eapply logged_same; [exact Hl | exact Hs | reflexivity]. }
  destruct (find_match line ps) as [[p|]|e]; cbn [fst snd].
  - apply logged_pause, logged_print; [reflexivity | exact Hl1].
  - destruct (analyze_line_with_llm _ line) as [[[[r u] e]|]|e] eqn:Ea;
      cbn [fst snd].
    + pose proof (analyze_accepts _ _ _ _ _ Ea) as Hacc.
      apply analyze_is_error in Ea as ->.
      apply logged_pause, (logged_ingest lines parser _ r u line); auto.
    + apply logged_pause, logged_print; [reflexivity | exact Hl1].
    + exact Hl1.
  - exact Hl1.
Qed.

Lemma counted_print st ev :
  counted st -> counted (if after_query ev then count_query (print st ev)
                         else print st ev).
Proof.
  unfold counted. intros Hc. destruct (after_query ev) eqn:E; simpl;
    rewrite List.filter_app, length_app; simpl; rewrite E; simpl; lia.
Qed.

Lemma counted_pause n st : counted st -> counted (pause n st).1.
Proof.
  unfold counted, pause. destruct (n mod 10 =? 0)%nat; [|auto].
  destruct (stdin st); [auto|]. destruct (String.eqb _ _); auto.
Qed.

Lemma analyze_raises reply line e :
  analyze_line_with_llm reply line = Raise e -> e = RuntimeError.
Proof.
  unfold analyze_line_with_llm, getitem, py_compile, re_match, py_compile.
  destruct reply as [| | |fields]; simpl; try congruence.
  destruct (fields !! "regex") as [regex|]; simpl; [|congruence].
  destruct (re_compile regex) as [c|]; simpl; [|congruence].
  destruct (compiled_match c line); simpl; [|congruence].
  destruct (fields !! "utility_name"); simpl; congruence.
Qed.

Lemma analyze_well_formed reply line :
  well_formed reply ->
  exists r, analyze_line_with_llm reply line = Return r.
Proof.
  unfold analyze_line_with_llm, getitem, py_compile, re_match, py_compile.
  destruct reply as [| | |fields]; simpl; try (intros []; fail); eauto.
  intros [[regex ->] [utility ->]]. simpl.
  destruct (re_compile regex) as [c|]; simpl; eauto.
  destruct (compiled_match c line); simpl; eauto.
Qed.

Lemma pause_status n st :
  (forall e, (pause n st).2 = Raised e -> e = EOFError /\ stdin st = [])
  /\ ((n mod 10)%nat <> 0%nat -> (pause n st).2 = Next).
Proof.
  unfold pause. split.
  - destruct (n mod 10 =? 0)%nat; [|discriminate].
    destruct (stdin st); simpl; [intros e [= <-]; auto|].
    destruct (String.eqb _ _); discriminate.
  - intros Hn. apply Nat.eqb_neq in Hn. rewrite Hn. reflexivity.
Qed.

(** How a turn of the loop can end. *)
Lemma process_line_status ask st n line :
  let out := process_line ask st n line in
  (forall e, out.2 = Raised e -> e = RuntimeError \/ e = EOFError)
  /\ (well_formed (ask (S (llm_queries st)) line) ->
      out.2 <> Raised RuntimeError)
  /\ ((n mod 10)%nat <> 0%nat -> out.2 <> Raised EOFError)
  /\ (counted st -> out.2 <> Raised RuntimeError -> counted out.1).
Proof.
  unfold process_line.
  destruct (patterns (self st)) as [ps self1]. rewrite find_match_find.
  destruct (List.find _ ps) as [p|]; simpl.
  - destruct (pause_status n (print (with_self st self1) (Matched p)))
      as [Hr Hn].
    repeat split.
    + intros e He. right. apply Hr, He.
    + intros _ He. apply Hr in He as [? _]. discriminate.
    + intros Hmod. rewrite (Hn Hmod). discriminate.
    + intros Hc _. apply counted_pause.
      apply (counted_print (with_self st self1) (Matched p) Hc).
  - destruct (analyze_line_with_llm _ line) as [[result|]|e] eqn:Ea; simpl.
    + destruct (pause_status n (ingest (count_query (with_self st self1)) result))
        as [Hr Hn].
      repeat split.
      * intros e He. right. apply Hr, He.
      * intros _ He. apply Hr in He as [? _]. discriminate.
      * intros Hmod. rewrite (Hn Hmod). discriminate.
      * intros Hc _. apply counted_pause. destruct result as [[r u] e].
        unfold ingest. destruct (decide _).
        -- destruct (_update_patterns _ r u e). unfold counted in *. simpl.
           rewrite List.filter_app, length_app. simpl. lia.
        -- apply (counted_print (with_self st self1) SkippedDuplicate Hc).
    + destruct (pause_status n (print (count_query (with_self st self1))
                                  FailedToCreate)) as [Hr Hn].
      repeat split.
      * intros e He. right. apply Hr, He.
      * intros _ He. apply Hr in He as [? _]. discriminate.
      * intros Hmod. rewrite (Hn Hmod). discriminate.
      * intros Hc _. apply counted_pause.
        apply (counted_print (with_self st self1) FailedToCreate Hc).
    + pose proof (analyze_raises _ _ _ Ea) as ->. repeat split.
      * intros e [= <-]. auto.
      * intros Hwf. destruct (analyze_well_formed _ line Hwf) as [r Hr].
        simpl in Ea. congruence.
      * discriminate.
      * intros _ Hne. congruence.
Qed.

Lemma process_lines_status ask lines :
  forall st,
  let out := process_lines ask st lines in
  (forall e, out.2 = Raise e -> e = RuntimeError \/ e = EOFError)
  /\ ((forall n line, well_formed (ask n line)) ->
      out.2 <> Raise RuntimeError)
  /\ (Forall (fun nl : nat * string => (nl.1 mod 10)%nat <> 0%nat) lines ->
      out.2 <> Raise EOFError)
  /\ (counted st -> out.2 <> Raise RuntimeError -> counted out.1)
  /\ (length (stdout out.1)
      <= length (stdout st)
         + length (List.filter (fun l => negb (blank l)) lines.*2))%nat.
Proof.
  induction lines as [|[n l] rest IH]; intros st.
  - simpl. split; [discriminate|]. split; [discriminate|].
    split; [discriminate|]. split; [auto | lia].
  - cbn [process_lines]. rewrite fmap_cons. cbn [List.filter snd].
    change (negb (PyStr.truthy (PyStr.strip l))) with (blank l).
    destruct (blank l) eqn:Eb; cbn [negb].
    + destruct (IH st) as (H1 & H2 & H3 & H4 & H5).
      split; [exact H1|]. split; [exact H2|]. split; [|split; assumption].
      intros HF. apply H3. apply Forall_cons in HF as [_ HF]. exact HF.
    + destruct (process_line_status ask st n l) as (L1 & L2 & L3 & L4).
      assert (Hlen : (length (stdout (process_line ask st n l).1)
                      <= S (length (stdout st)))%nat).
      { unfold process_line. destruct (patterns (self st)) as [ps self1].
        destruct (find_match l ps) as [[p|]|e]; simpl;
          rewrite ?pause_stdout; simpl; rewrite ?length_app; simpl; try lia.
        destruct (analyze_line_with_llm _ l) as [[[[r u] e]|]|e]; simpl;
          rewrite ?pause_stdout; simpl; rewrite ?length_app; simpl; try lia.
        destruct (decide _); simpl; rewrite ?length_app; simpl; lia. }
      destruct (process_line ask st n l) as [st' [| |e]] eqn:Ep;
        cbn [fst snd] in *.
      * destruct (IH st') as (H1 & H2 & H3 & H4 & H5).
        split; [exact H1|]. split; [exact H2|]. split; [|split].
        -- intros HF. apply H3. apply Forall_cons in HF as [_ HF]. exact HF.
        -- intros Hc Hne. apply H4; [|exact Hne]. apply L4; [exact Hc|].
           discriminate.
        -- simpl length. lia.
      * split; [discriminate|]. split; [discriminate|].
        split; [discriminate|]. split; [|simpl length; lia].
        intros Hc _. apply L4; [exact Hc | discriminate].
      * split; [|split; [|split; [|split]]].
        -- intros e' [= <-]. apply L1. reflexivity.
        -- intros Hwf He. injection He as ->. apply (L2 (Hwf _ _)).
           reflexivity.
        -- intros HF He. injection He as ->.
           apply Forall_cons in HF as [Hn _]. apply (L3 Hn). reflexivity.
        -- intros Hc Hne. apply L4; [exact Hc|]. congruence.
        -- simpl length. lia.
Qed.

Lemma numbered_lines (lines : list string) :
  (imap (fun i line => (S i, line)) lines).*2 = lines.
Proof.
  rewrite fmap_imap. rewrite (imap_ext _ (fun _ l => l)) by reflexivity.
  induction lines as [|x l IH]; [reflexivity|]. simpl. f_equal. exact IH.
Qed.

(** X9.  After a run of [process_unprocessed_log] over a log, the rows
    that the store has gained are exactly the "Added new pattern"
    entries of the summary, in order; each of them is flagged for
    review, is no error pattern, and has a regex that compiles and
    matches a non-blank line of the log.  There is at most one entry per
    non-blank line.  When the run returns, the number of rows gained is
    the "Total new patterns created" that the summary prints, and the
    counter of oracle queries is the number of entries for lines that no
    cached pattern matched. *)
Theorem session_accounting ask parser text input :
  let run := process_unprocessed_log ask parser (Some text) input in
  let st := run.1 in
  let added := omap event_row (stdout st) in
  rows (pattern_store (self st)) = rows (pattern_store parser) ++ added
  /\ Forall (fun p =>
               need_reviewing p = true /\ is_error p = false
               /\ compiles (regex p) = true
               /\ exists l, l ∈ real_lines text
                            /\ accepts (regex p) l = true) added
  /\ length (stdout st) <= length (real_lines text)
  /\ (run.2 = Return true ->
      size (new_patterns st) = length added
      /\ llm_queries st = length (List.filter after_query (stdout st))).
Proof.
  intros run st added.
  set (st0 := {| self := parser; new_patterns := ∅; llm_queries := 0;
                 stdin := input; stdout := [] |}).
  set (lines := imap (fun i line => (S i, line)) (PyStr.splitlines text)).
  assert (Hrun : run = ((process_lines ask st0 lines).1,
                        _ <~ (process_lines ask st0 lines).2 ;; Return true)).
  { subst run. unfold process_unprocessed_log. fold st0. fold lines.
    destruct (process_lines ask st0 lines). reflexivity. }
  assert (Hst : st = (process_lines ask st0 lines).1)
    by (subst st; rewrite Hrun; reflexivity).
  assert (Hlog : logged (PyStr.splitlines text) parser st).
  { rewrite Hst.
    apply (process_lines_keeps (logged (PyStr.splitlines text) parser)
             (fun l => l ∈ PyStr.splitlines text)).
    - intros s n l Hl Hb. apply process_line_logged; assumption.
    - apply Forall_forall. intros [n l] Hnl. simpl.
      rewrite <- (numbered_lines (PyStr.splitlines text)).
      apply list_elem_of_fmap. exists (n, l). auto.
    - split; [simpl; rewrite app_nil_r; reflexivity | constructor]. }
  destruct Hlog as [Hrows Hall]. fold added in Hrows, Hall.
  destruct (process_lines_status ask lines st0) as (_ & _ & _ & Hcnt & Hlen).
  split; [exact Hrows|]. split; [|split; [|intros Hret; split]].
  - eapply Forall_impl; [exact Hall|].
    intros p (Hn & He & l & Hl & Hb & Hacc). repeat split; try assumption.
    + unfold compiles. unfold accepts in Hacc.
      destruct (re_compile (regex p)); [reflexivity | discriminate].
    + exists l. split; [|exact Hacc]. unfold real_lines.
      apply list_elem_of_In, List.filter_In. split.
      * apply list_elem_of_In, Hl.
      * rewrite Hb. reflexivity.
  - rewrite Hst. unfold real_lines. subst lines.
    rewrite numbered_lines in Hlen. simpl in Hlen. exact Hlen.
  - destruct (session_grown ask parser (Some text) input)
      as (added' & Hr' & _ & Hnd & Hnp & _).
    fold run in Hr', Hnp. fold st in Hr', Hnp. simpl in Hr', Hnp.
    rewrite Hrows in Hr'. apply app_inv_head in Hr'. subst added'.
    rewrite <- (length_fmap regex added).
    rewrite <- (size_list_to_set (C := gset string)) by exact Hnd.
    f_equal. apply set_eq. intros r. rewrite Hnp, elem_of_list_to_set.
    set_solver.
  - rewrite Hst. apply Hcnt; [reflexivity|].
    intros Hr. rewrite Hrun in Hret. simpl in Hret. rewrite Hr in Hret.
    discriminate.
Qed.


End SessionAccounting.

Section SessionAccountingWitness.
Import log_patterns llm_parser llm_parser_more Scenario.

Lemma cache_follows_store_witness :
  agrees (new_parser empty_store)
  /\ rows (pattern_store
             (self (process_unprocessed_log same_proposal
                      (new_parser empty_store) (Some two_lines) []).1))
     = [{| id := 1; regex := "^a$"; utility_name := "u"; is_error := false;
           need_reviewing := true |}]
  /\ agrees
       (self (process_unprocessed_log same_proposal
                (new_parser empty_store) (Some two_lines) []).1).
Proof.
  assert (Hc : agrees (new_parser empty_store)).
  { exact I. }
  split; [exact Hc|]. split; [vm_compute; reflexivity|].
  exact (proj1 (cache_follows_store same_proposal _
                  (Some two_lines) [] Hc)).
Defined.

End SessionAccountingWitness.

(** ** The interactive loop of add_pattern.py *)

Section MainInvariant.
Context `{RegexEngine}.
Import Spec SpecMore log_patterns add_pattern.
Local Open Scope list_scope.

Lemma read_regex_truthy line stdin regex rest :
  read_regex line stdin = Some (regex, rest) -> PyStr.truthy regex = true.
Proof.
  revert regex rest.
  induction stdin as [stdin IH] using (induction_ltof1 _ (@length string)).
  unfold ltof in IH.
  intros regex rest. destruct stdin as [|r in1]; [discriminate|].
  cbn [read_regex].
  destruct (PyStr.truthy (PyStr.strip r)) eqn:Et; cbn [negb].
  - destruct (validate_regex (PyStr.strip r) line).
    + intros [= <- _]. exact Et.
    + destruct in1 as [|ch in2]; [discriminate|].
      destruct (String.eqb (PyStr.strip ch) "2");
        [apply IH; simpl; lia|].
      destruct (String.eqb (PyStr.strip ch) "3");
        [intros [= <- _]; exact Et | apply IH; simpl; lia].
  - apply IH. simpl. lia.
Qed.

Lemma main_loop_invariant before fuel :
  forall store stdin,
    Forall (kept_or_entered before) (rows store) ->
    Forall (kept_or_entered before) (rows (main_loop fuel store stdin)).
Proof.
  induction fuel as [|fuel IH]; intros store stdin Hinv; [exact Hinv|].
  cbn [main_loop]. destruct stdin as [|l in1]; [exact Hinv|].
  destruct (negb (PyStr.truthy (PyStr.strip l))); [apply IH, Hinv|].
  destruct (parse_line (PyStr.strip l) (get_all_patterns store))
    as [out [[p|]|e]]; [| |exact Hinv].
  - destruct in1 as [|a in2]; [exact Hinv|].
    destruct (String.eqb _ "d"); [|apply IH, Hinv].
    apply IH. simpl. apply Forall_forall. intros q [_ Hq]%list_elem_of_filter.
    rewrite Forall_forall in Hinv. apply Hinv, Hq.
  - destruct in1 as [|a in2]; [exact Hinv|].
    destruct (negb (String.eqb (lower a) "y")); [apply IH, Hinv|].
    destruct (read_regex (PyStr.strip l) in2) as [[regex in3]|] eqn:Er;
      [|exact Hinv].
    pose proof (read_regex_truthy _ _ _ _ Er) as Hr. rewrite Hr. cbn [negb].
    destruct in3 as [|u in4]; [exact Hinv|].
    destruct (PyStr.truthy (PyStr.strip u)) eqn:Hu; cbn [negb];
      [|apply IH, Hinv].
    destruct (read_error_flag in4) as [[error_str in5]|]; [|exact Hinv].
    apply IH. simpl. apply Forall_app. split; [exact Hinv|].
    apply Forall_cons. split; [|apply Forall_nil; exact I].
    right. simpl. auto.
Qed.

Lemma main_loop_ids fuel :
  forall store stdin,
    ids_increasing (rows store) ->
    ids_increasing (rows (main_loop fuel store stdin)).
Proof.
  induction fuel as [|fuel IH]; intros store stdin Hinv; [exact Hinv|].
  cbn [main_loop]. destruct stdin as [|l in1]; [exact Hinv|].
  destruct (negb (PyStr.truthy (PyStr.strip l))); [apply IH, Hinv|].
  destruct (parse_line (PyStr.strip l) (get_all_patterns store))
    as [out [[p|]|e]]; [| |exact Hinv].
  - destruct in1 as [|a in2]; [exact Hinv|].
    destruct (String.eqb _ "d"); [|apply IH, Hinv].
    apply IH. simpl. apply ids_increasing_filter, Hinv.
  - destruct in1 as [|a in2]; [exact Hinv|].
    destruct (negb (String.eqb (lower a) "y")); [apply IH, Hinv|].
    destruct (read_regex (PyStr.strip l) in2) as [[regex in3]|];
      [|exact Hinv].
    destruct (negb (PyStr.truthy regex)); [apply IH, Hinv|].
    destruct in3 as [|u in4]; [exact Hinv|].
    destruct (negb (PyStr.truthy (PyStr.strip u))); [apply IH, Hinv|].
    destruct (read_error_flag in4) as [[error_str in5]|]; [|exact Hinv].
    apply IH. apply add_pattern_ids_increasing, Hinv.
Qed.

(** The fuel of [main_loop] is only there for the recursion: once it
    exceeds the number of lines on the input, more of it changes
    nothing. *)
Lemma read_regex_shorter line stdin regex rest :
  read_regex line stdin = Some (regex, rest) -> length rest < length stdin.
Proof.
  revert regex rest.
  induction stdin as [stdin IH] using (induction_ltof1 _ (@length string)).
  unfold ltof in IH.
  intros regex rest. destruct stdin as [|r in1]; [discriminate|].
  cbn [read_regex].
  destruct (negb (PyStr.truthy (PyStr.strip r))).
  - intros Hr%IH; simpl in *; lia.
  - destruct (validate_regex (PyStr.strip r) line).
    + intros [= _ <-]. simpl. lia.
    + destruct in1 as [|ch in2]; [discriminate|].
      destruct (String.eqb (PyStr.strip ch) "2");
        [intros Hr%IH; simpl in *; lia|].
      destruct (String.eqb (PyStr.strip ch) "3");
        [intros [= _ <-]; simpl; lia | intros Hr%IH; simpl in *; lia].
Qed.

Lemma read_error_flag_shorter stdin e rest :
  read_error_flag stdin = Some (e, rest) -> length rest < length stdin.
Proof.
  revert e rest. induction stdin as [|a in1 IH]; intros e rest;
    [discriminate|].
  cbn [read_error_flag]. destruct (_ || _).
  - intros [= _ <-]. simpl. lia.
  - intros Hr%IH. simpl. lia.
Qed.

Lemma main_loop_fuel fuel :
  forall store stdin,
    length stdin < fuel ->
    main_loop fuel store stdin = main store stdin.
Proof.
  unfold main.
  induction fuel as [fuel IH] using lt_wf_ind. intros store stdin Hlen.
  destruct fuel as [|fuel]; [lia|].
  destruct stdin as [|l in1]; [reflexivity|].
  cbn [main_loop length].
  assert (Hgo : forall s rest, length rest < length (l :: in1) ->
            main_loop fuel s rest = main_loop (S (length in1)) s rest).
  { intros s rest Hr. simpl in Hr, Hlen.
    rewrite (IH fuel) by lia. rewrite (IH (S (length in1))) by lia.
    reflexivity. }
  destruct (negb (PyStr.truthy (PyStr.strip l)));
    [apply Hgo; simpl; lia|].
  destruct (parse_line (PyStr.strip l) (get_all_patterns store))
    as [out [[p|]|e]]; [| |reflexivity].
  - destruct in1 as [|a in2]; [reflexivity|].
    destruct (String.eqb _ "d"); apply Hgo; simpl; lia.
  - destruct in1 as [|a in2]; [reflexivity|].
    destruct (negb (String.eqb (lower a) "y")); [apply Hgo; simpl; lia|].
    destruct (read_regex (PyStr.strip l) in2) as [[regex in3]|] eqn:Er;
      [|reflexivity].
    apply read_regex_shorter in Er.
    destruct (negb (PyStr.truthy regex)); [apply Hgo; simpl; lia|].
    destruct in3 as [|u in4]; [reflexivity|].
    destruct (negb (PyStr.truthy (PyStr.strip u)));
      [apply Hgo; simpl in *; lia|].
    destruct (read_error_flag in4) as [[error_str in5]|] eqn:Ee;
      [|reflexivity].
    apply read_error_flag_shorter in Ee. apply Hgo. simpl in *. lia.
Qed.

(** X11.  Whatever is typed into [add_pattern.main], every row of the
    store at the end either was there at the start, unchanged, or was
    entered with a regex and a utility name that are not empty and is
    flagged for review; the rows stay in id order. *)
Theorem main_store_invariant store stdin :
  Forall (fun p =>
            p ∈ rows store
            \/ (PyStr.truthy (regex p) = true
                /\ PyStr.truthy (utility_name p) = true
                /\ need_reviewing p = true))
         (rows (main store stdin))
  /\ (ids_increasing (rows store) ->
      ids_increasing (rows (main store stdin))).
Proof.
  split.
  - apply (main_loop_invariant (rows store)).
    apply Forall_forall. intros p Hp. left. exact Hp.
  - apply main_loop_ids.
Qed.

End MainInvariant.

(** ** The log store *)

Section LogStore.
Import log_storage.
Local Open Scope list_scope.

Lemma log_lastrowid_ge rs l : l ∈ rs -> (id l <= lastrowid rs)%Z.
Proof.
  induction rs as [|a rs IH]; [intros Hl; inversion Hl|].
  intros [->|Hl]%elem_of_cons; simpl; [lia|].
  specialize (IH Hl). lia.
Qed.

Lemma get_log_none_iff logs i :
  get_log logs i = None <-> i ∉ id <$> rows logs.
Proof.
  unfold get_log. induction (rows logs) as [|a rs IH]; simpl.
  - split; [intros _ Hi; inversion Hi | reflexivity].
  - destruct (Z.eqb_spec (id a) i) as [<-|Hne].
    + split; [discriminate|]. intros Hn. exfalso. apply Hn. left.
    + rewrite IH. rewrite not_elem_of_cons. split; [auto | tauto].
Qed.

Lemma get_log_id logs i l : get_log logs i = Some l -> id l = i /\ l ∈ rows logs.
Proof.
  unfold get_log. intros Hf. apply find_some in Hf as [Hin Heq].
  split; [apply Z.eqb_eq, Heq | apply list_elem_of_In, Hin].
Qed.

Lemma find_log_app_none (f : LogFile -> bool) xs ys :
  List.find f xs = None -> List.find f (xs ++ ys) = List.find f ys.
Proof.
  induction xs as [|x xs IH]; simpl; [reflexivity|].
  destruct (f x); [discriminate | exact IH].
Qed.

Lemma find_log_app_some (f : LogFile -> bool) xs ys l :
  List.find f xs = Some l -> List.find f (xs ++ ys) = Some l.
Proof.
  induction xs as [|x xs IH]; simpl; [discriminate|].
  destruct (f x); [auto | exact IH].
Qed.

Lemma find_log_fmap (f : LogFile -> bool) (g : LogFile -> LogFile) rs :
  (forall l, f (g l) = f l) ->
  List.find f (g <$> rs) = g <$> List.find f rs.
Proof.
  intros Hfg. induction rs as [|a rs IH]; simpl; [reflexivity|].
  rewrite Hfg. destruct (f a); [reflexivity | exact IH].
Qed.

Lemma mark_id i l : id (mark i l) = id l.
Proof. unfold mark. destruct (Z.eqb _ _); reflexivity. Qed.

Lemma mark_processed i l :
  processed (mark i l) = processed l || Z.eqb (id l) i.
Proof.
  unfold mark. destruct (Z.eqb _ _); simpl;
    [rewrite orb_true_r | rewrite orb_false_r]; reflexivity.
Qed.

Lemma unprocessed_mark i rs :
  unprocessed (mark i <$> rs)
  = List.filter (fun l => negb (Z.eqb (id l) i)) (unprocessed rs).
Proof.
  unfold unprocessed. induction rs as [|a rs IH]; [reflexivity|].
  rewrite fmap_cons. cbn [List.filter]. rewrite mark_processed.
  destruct (processed a) eqn:Ep; cbn [orb negb List.filter]; [exact IH|].
  unfold mark at 1. destruct (Z.eqb (id a) i) eqn:Ei; cbn [negb].
  - exact IH.
  - rewrite IH. reflexivity.
Qed.

Lemma filter_length_le {A} (f : A -> bool) (l : list A) :
  length (List.filter f l) <= length l.
Proof.
  induction l as [|a l IH]; simpl; [lia|]. destruct (f a); simpl; lia.
Qed.

Lemma filter_length_lt {A} (f : A -> bool) (l : list A) x :
  x ∈ l -> f x = false -> length (List.filter f l) < length l.
Proof.
  induction l as [|a l IH]; [intros Hx; inversion Hx|].
  intros [->|Hx]%elem_of_cons Hf; simpl.
  - rewrite Hf. pose proof (filter_length_le f l). lia.
  - specialize (IH Hx Hf). destruct (f a); simpl; lia.
Qed.

Lemma unprocessed_spec rs l :
  l ∈ unprocessed rs <-> l ∈ rs /\ processed l = false.
Proof.
  unfold unprocessed. rewrite !list_elem_of_In, filter_In.
  rewrite negb_true_iff. reflexivity.
Qed.

Lemma unprocessed_nil_iff rs :
  unprocessed rs = [] <-> Forall (fun l => processed l = true) rs.
Proof.
  unfold unprocessed. induction rs as [|a rs IH]; simpl.
  - split; [constructor | reflexivity].
  - rewrite Forall_cons. destruct (processed a); simpl.
    + rewrite IH. tauto.
    + split; [discriminate | intros [? _]; discriminate].
Qed.

Lemma order_by_random_perm random rs : order_by_random random rs ≡ₚ rs.
Proof.
  unfold order_by_random. rewrite merge_sort_Permutation.
  assert (E : forall k, (imap (fun i l => (random (k + i), l)) rs).*2 = rs).
  { induction rs as [|a rs IH]; intros k; [reflexivity|].
    cbn [imap]. rewrite fmap_cons. cbn [snd]. f_equal.
    rewrite <- (IH (S k)) at 2. f_equal. apply imap_ext.
    intros i x _. simpl. do 2 f_equal. lia. }
  specialize (E 0). simpl in E. rewrite E. reflexivity.
Qed.

Lemma head_sql_limit {A} (n : Z) (rs : list A) :
  n <> 0%Z -> head (sql_limit n rs) = head rs.
Proof.
  intros Hn. unfold sql_limit. destruct (Z.ltb_spec n 0); [reflexivity|].
  destruct (Z.to_nat n) as [|k] eqn:Ek; [lia|].
  destruct rs; reflexivity.
Qed.

Lemma get_random_some random logs limit l :
  get_random_unprocessed_log random logs limit = Some l ->
  l ∈ rows logs /\ processed l = false.
Proof.
  unfold get_random_unprocessed_log. intros Hh.
  apply unprocessed_spec. rewrite <- (order_by_random_perm random).
  assert (Hl : l ∈ sql_limit limit
                    (order_by_random random (unprocessed (rows logs)))).
  { destruct (sql_limit _ _); [discriminate|].
    injection Hh as ->. left. }
  revert Hl. unfold sql_limit. destruct (_ <? _)%Z; [auto|].
  intros Hl. apply (subseteq_take (Z.to_nat limit)). exact Hl.
Qed.

Lemma get_random_none random logs limit :
  limit <> 0%Z ->
  get_random_unprocessed_log random logs limit = None ->
  unprocessed (rows logs) = [].
Proof.
  intros Hn. unfold get_random_unprocessed_log.
  rewrite head_sql_limit by exact Hn. intros Hh.
  apply Permutation_nil_r. rewrite <- (order_by_random_perm random).
  destruct (order_by_random _ _); [reflexivity | discriminate].
Qed.

Lemma log_lastrowid_bounds rs b :
  (0 <= b)%Z -> Forall (fun l => (id l <= b)%Z) rs ->
  (0 <= lastrowid rs <= b)%Z.
Proof.
  intros Hb. induction 1 as [|l rs Hl _ IH]; simpl; lia.
Qed.

(** X12.  In a table whose rows are in id order, with ids from 0 to
    2^63 - 2 (where SQLite gives a new row the largest id plus one),
    [add_log] returns an id that no log had, above all of them and
    still in range; [get_log] on it gives back what was added, with the
    processed flag as passed, the log comes last in [get_all_logs], and
    every log that could be got before is still got; an id that is not
    in the table gives [None]. *)
Theorem add_log_then_get logs packet_name architecture date error log
    processed :
  StronglySorted (fun a b => (id a < id b)%Z) (rows logs) ->
  Forall (fun l => (0 <= id l < 2 ^ 63 - 1)%Z) (rows logs) ->
  let '(i, logs') :=
    add_log logs packet_name architecture date error log processed in
  get_log logs i = None
  /\ get_log logs' i
     = Some {| id := i; packet_name := packet_name;
               architecture := architecture; date := date;
               error := error; log := log; processed := processed |}
  /\ (forall j l, get_log logs j = Some l -> get_log logs' j = Some l)
  /\ get_all_logs logs'
     = get_all_logs logs
       ++ [{| id := i; packet_name := packet_name;
              architecture := architecture; date := date;
              error := error; log := log; processed := processed |}]
  /\ (forall j, j ∉ id <$> rows logs' -> get_log logs' j = None)
  /\ (forall l, l ∈ rows logs -> (id l < i)%Z)
  /\ (0 < i < 2 ^ 63)%Z
  /\ StronglySorted (fun a b => (id a < id b)%Z) (rows logs').
Proof.
  intros Hsorted Hrange. unfold add_log. cbn zeta.
  assert (Hlt : forall l, l ∈ rows logs ->
                  (id l < lastrowid (rows logs) + 1)%Z).
  { intros l Hl. apply log_lastrowid_ge in Hl. lia. }
  assert (Hnew : get_log logs (lastrowid (rows logs) + 1) = None).
  { apply get_log_none_iff. intros (l & Hl & Hin)%list_elem_of_fmap.
    apply Hlt in Hin. lia. }
  split; [exact Hnew|].
  split; [|split; [|split; [|split; [|split; [exact Hlt|split]]]]].
  - unfold get_log in *. cbn [rows]. rewrite find_log_app_none by exact Hnew.
    simpl. rewrite Z.eqb_refl. reflexivity.
  - intros j l Hj. unfold get_log in *. cbn [rows].
    apply find_log_app_some, Hj.
  - reflexivity.
  - intros j Hj. apply get_log_none_iff, Hj.
  - assert (Hb : (0 <= lastrowid (rows logs) <= 2 ^ 63 - 2)%Z).
    { apply log_lastrowid_bounds; [lia|].
      eapply Forall_impl; [exact Hrange|]. simpl. intros l Hl. lia. }
    lia.
  - cbn [rows]. apply StronglySorted_app_2; [|exact Hsorted|].
    + intros a b Ha Hb%list_elem_of_singleton. subst b. cbn [id].
      apply Hlt, Ha.
    + repeat constructor.
Qed.

(** X13.  [mark_as_processed] sets the flag of the log with that id and
    touches nothing else: the log is got back with [processed] true and
    its other fields as they were, every other log is got back
    unchanged, no unprocessed log has that id afterwards, and the logs
    that were unprocessed under another id still are.  Marking twice is
    marking once; an id that is not in the table changes nothing. *)
Theorem mark_as_processed_spec logs i :
  let logs' := mark_as_processed logs i in
  get_log logs' i = done <$> get_log logs i
  /\ (forall j, j <> i -> get_log logs' j = get_log logs j)
  /\ unprocessed (rows logs')
     = List.filter (fun l => negb (Z.eqb (id l) i)) (unprocessed (rows logs))
  /\ id <$> rows logs' = id <$> rows logs
  /\ mark_as_processed logs' i = logs'
  /\ (get_log logs i = None -> logs' = logs).
Proof.
  cbn zeta. unfold mark_as_processed, get_log. cbn [rows].
  split; [|split; [|split; [|split; [|split]]]].
  - rewrite find_log_fmap by (intros l; rewrite mark_id; reflexivity).
    destruct (List.find _ _) as [l|] eqn:Ef; [|reflexivity].
    apply find_some in Ef as [_ Ef]. simpl. unfold mark. rewrite Ef.
    reflexivity.
  - intros j Hj.
    rewrite find_log_fmap by (intros l; rewrite mark_id; reflexivity).
    destruct (List.find _ _) as [l|] eqn:Ef; [|reflexivity].
    apply find_some in Ef as [_ Ef%Z.eqb_eq]. simpl. unfold mark.
    destruct (Z.eqb_spec (id l) i); [congruence | reflexivity].
  - apply unprocessed_mark.
  - rewrite <- list_fmap_compose. apply list_fmap_ext.
    intros k l _. simpl. apply mark_id.
  - f_equal. rewrite <- list_fmap_compose. apply list_fmap_ext.
    intros k l _. simpl. unfold mark.
    destruct (Z.eqb (id l) i) eqn:Ei; simpl; rewrite Ei; reflexivity.
  - intros Hn. destruct logs as [rs]. cbn [rows] in *. f_equal.
    rewrite <- (list_fmap_id rs) at 2. apply list_fmap_ext.
    intros k l Hk. simpl. unfold mark.
    destruct (Z.eqb (id l) i) eqn:Ei; [|reflexivity].
    apply list_elem_of_lookup_2, list_elem_of_In in Hk.
    eapply find_none in Hn; [|exact Hk]. simpl in Hn. congruence.
Qed.

(** X14.  [get_random_unprocessed_log] with a limit other than 0
    returns a log of the table that is not processed, and returns
    [None] exactly when every log is processed, whatever the random
    keys; with [limit=0] it returns [None] even when unprocessed logs
    are left.  [get_first_unprocessed_log] returns the first
    unprocessed log in row order. *)
Theorem unprocessed_log_selection random logs limit :
  (forall l, get_random_unprocessed_log random logs limit = Some l ->
             l ∈ rows logs /\ processed l = false)
  /\ (limit <> 0%Z ->
      (get_random_unprocessed_log random logs limit = None
       <-> Forall (fun l => processed l = true) (rows logs)))
  /\ get_random_unprocessed_log random logs 0 = None
  /\ (forall l, get_first_unprocessed_log logs = Some l <->
        exists before after,
          rows logs = before ++ l :: after
          /\ Forall (fun l' => processed l' = true) before
          /\ processed l = false).
Proof.
  split; [|split; [|split]].
  - intros l. apply get_random_some.
  - intros Hn. rewrite <- unprocessed_nil_iff. split.
    + apply get_random_none, Hn.
    + intros E. unfold get_random_unprocessed_log.
      rewrite head_sql_limit by exact Hn.
      pose proof (order_by_random_perm random (unprocessed (rows logs))) as P.
      rewrite E in *. apply Permutation_nil_r in P. rewrite P. reflexivity.
  - unfold get_random_unprocessed_log, sql_limit. reflexivity.
  - intros l. unfold get_first_unprocessed_log.
    rewrite head_sql_limit by lia. unfold unprocessed.
    induction (rows logs) as [|a rs IH]; simpl.
    + split; [discriminate|]. intros (b & af & E & _).
      destruct b; discriminate.
    + destruct (processed a) eqn:Ea; simpl.
      * rewrite IH. split.
        -- intros (b & af & -> & Hb & Hl). exists (a :: b), af.
           split; [reflexivity|]. split; [constructor; assumption | exact Hl].
        -- intros (b & af & E & Hb & Hl). destruct b as [|b0 b].
           ++ simpl in E. injection E as -> _. congruence.
           ++ simpl in E. injection E as -> ->.
              apply Forall_cons in Hb as [_ Hb]. eauto.
      * split.
        -- intros [= <-]. exists [], rs. split; [reflexivity|].
           split; [constructor | exact Ea].
        -- intros (b & af & E & Hb & Hl). destruct b as [|b0 b].
           ++ simpl in E. injection E as -> _. reflexivity.
           ++ simpl in E. injection E as -> _.
              apply Forall_cons in Hb as [Hb _]. congruence.
Qed.

End LogStore.

Section LogStoreWitness.
Import log_storage ScenarioMore.
Local Open Scope list_scope.

Lemma add_log_then_get_witness :
  StronglySorted (fun a b => (id a < id b)%Z) (rows two_logs)
  /\ Forall (fun l => (0 <= id l < 2 ^ 63 - 1)%Z) (rows two_logs)
  /\ get_log
       (add_log two_logs "make" "i586" "1715836400.0" true "make: ok" false).2
       3
     = Some {| id := 3; packet_name := "make"; architecture := "i586";
               date := "1715836400.0"; error := true; log := "make: ok";
               processed := false |}.
Proof.
  assert (Hs : StronglySorted (fun a b => (id a < id b)%Z) (rows two_logs)).
  { repeat constructor. }
  assert (Hr : Forall (fun l => (0 <= id l < 2 ^ 63 - 1)%Z) (rows two_logs)).
  { repeat constructor; simpl; lia. }
  split; [exact Hs|]. split; [exact Hr|].
  exact (proj1 (proj2 (add_log_then_get two_logs "make" "i586"
                         "1715836400.0" true "make: ok" false Hs Hr))).
Defined.

End LogStoreWitness.

(** ** The loop of [LLMParser.run] *)

Section RunLoop.
Context `{RegexEngine}.
Import Spec log_patterns llm_parser llm_parser_more.
Local Open Scope list_scope.

Lemma session_result ask parser log input :
  let out := llm_parser.process_unprocessed_log ask parser log input in
  match out.2 with
  | Return b => b = bool_decide (is_Some log)
  | Raise e => (e = RuntimeError \/ e = EOFError) /\ is_Some log
  end.
Proof.
  cbn zeta. unfold llm_parser.process_unprocessed_log.
  destruct log as [text|]; [|reflexivity].
  set (st0 := {| self := parser; new_patterns := ∅; llm_queries := 0;
                 stdin := input; stdout := [] |}).
  set (lines := imap (fun i line => (S i, line)) (PyStr.splitlines text)).
  destruct (process_lines_status ask lines st0) as (H1 & _).
  destruct (process_lines ask st0 lines) as [st [[]|e]];
    cbn [fst snd py_bind] in *.
  - reflexivity.
  - split; [apply H1; reflexivity | eexists; reflexivity].
Qed.

Lemma session_added ask parser log input :
  exists added,
    rows (pattern_store
            (self (llm_parser.process_unprocessed_log ask parser log input).1))
    = rows (pattern_store parser) ++ added
    /\ Forall (fun p => is_error p = false) added.
Proof.
  destruct (session_grown ask parser log input) as (added & Hr & Hf & _).
  exists added. split; [exact Hr | exact Hf].
Qed.

Lemma done_processed l : log_storage.processed l = true -> log_storage.done l = l.
Proof. destruct l. simpl. intros ->. reflexivity. Qed.

Lemma marked_refl rs :
  Forall2 (fun l l' => l' = l \/ l' = log_storage.done l) rs rs.
Proof. induction rs; constructor; auto. Qed.

Lemma marked_mark i rs rs' :
  Forall2 (fun l l' => l' = l \/ l' = log_storage.done l) rs rs' ->
  Forall2 (fun l l' => l' = l \/ l' = log_storage.done l)
          rs (log_storage.mark i <$> rs').
Proof.
  induction 1 as [|l l' rs rs' Hl _ IH]; [constructor|].
  rewrite fmap_cons. constructor; [|exact IH].
  unfold log_storage.mark. destruct (Z.eqb _ _); [|exact Hl].
  right. destruct Hl as [-> | ->]; [reflexivity|]. destruct l; reflexivity.
Qed.

Lemma marked_all rs rs' :
  Forall2 (fun l l' => l' = l \/ l' = log_storage.done l) rs rs' ->
  Forall (fun l => log_storage.processed l = true) rs' ->
  rs' = log_storage.done <$> rs.
Proof.
  induction 1 as [|l l' rs rs' Hl _ IH]; [reflexivity|].
  intros [Hp Hrest]%Forall_cons. rewrite fmap_cons. f_equal; [|auto].
  destruct Hl as [-> | ->]; [|reflexivity].
  symmetry. apply done_processed, Hp.
Qed.

Lemma run_loop_spec random ask fuel :
  forall k parser logs0 logs input,
    length (log_storage.unprocessed (log_storage.rows logs)) < fuel ->
    Forall2 (fun l l' => l' = l \/ l' = log_storage.done l)
            (log_storage.rows logs0) (log_storage.rows logs) ->
    exists parser' logs' input' r added,
      llm_parser_run.run_loop fuel k random ask parser logs input
      = Some (parser', logs', input', r)
      /\ Forall2 (fun l l' => l' = l \/ l' = log_storage.done l)
                 (log_storage.rows logs0) (log_storage.rows logs')
      /\ (r = Return tt ->
          log_storage.rows logs' = log_storage.done <$> log_storage.rows logs0)
      /\ (forall e, r = Raise e ->
            (e = RuntimeError \/ e = EOFError)
            /\ log_storage.unprocessed (log_storage.rows logs') <> [])
      /\ rows (pattern_store parser') = rows (pattern_store parser) ++ added
      /\ Forall (fun p => is_error p = false) added.
Proof.
  induction fuel as [|fuel IH]; intros k parser logs0 logs input Hlen Hm;
    [lia|].
  cbn [llm_parser_run.run_loop].
  unfold llm_parser_run.process_unprocessed_log.
  pose proof (session_result (ask k) parser
    (log_storage.log <$>
       log_storage.get_random_unprocessed_log (random k) logs 30) input)
    as Hres.
  pose proof (session_added (ask k) parser
    (log_storage.log <$>
       log_storage.get_random_unprocessed_log (random k) logs 30) input)
    as (added1 & Hadd1 & Herr1).
  cbn zeta in Hres.
  destruct (log_storage.get_random_unprocessed_log (random k) logs 30)
    as [l|] eqn:Eg.
  - apply get_random_some in Eg as [Hin Hun].
    destruct (llm_parser.process_unprocessed_log _ _ _ _) as [st [b|e]];
      cbn [fst snd fmap option_fmap option_map] in *.
    + rewrite bool_decide_eq_true_2 in Hres by (eexists; reflexivity).
      subst b.
      destruct (IH (S k) (self st) logs0
                  (log_storage.mark_as_processed logs (log_storage.id l))
                  (stdin st)) as (p' & l' & i' & r & added2 & E & M & R & F & A & Er).
      * cbn [log_storage.mark_as_processed log_storage.rows].
        rewrite unprocessed_mark.
        assert (length (List.filter
                  (fun l0 => negb (Z.eqb (log_storage.id l0) (log_storage.id l)))
                  (log_storage.unprocessed (log_storage.rows logs)))
                < length (log_storage.unprocessed (log_storage.rows logs))).
        { apply (filter_length_lt _ _ l).
          - apply unprocessed_spec. auto.
          - rewrite Z.eqb_refl. reflexivity. }
        lia.
      * cbn [log_storage.mark_as_processed log_storage.rows].
        apply marked_mark, Hm.
      * exists p', l', i', r, (added1 ++ added2).
        split; [exact E|]. split; [exact M|]. split; [exact R|].
        split; [exact F|]. split.
        -- rewrite A, Hadd1, app_assoc. reflexivity.
        -- apply Forall_app. auto.
    + destruct Hres as [He _].
      exists (self st), logs, (stdin st), (Raise e), added1.
      split; [reflexivity|]. split; [exact Hm|]. split; [discriminate|].
      split; [|auto].
      intros e' [= <-]. split; [exact He|].
      intros En. assert (Hl : l ∈ log_storage.unprocessed (log_storage.rows logs))
        by (apply unprocessed_spec; auto).
      rewrite En in Hl. inversion Hl.
  - apply get_random_none in Eg; [|lia].
    destruct (llm_parser.process_unprocessed_log _ _ _ _) as [st [b|e]];
      cbn [fst snd fmap option_fmap option_map] in *.
    + rewrite bool_decide_eq_false_2 in Hres by (intros [? ?]; discriminate).
      subst b.
      exists (self st), logs, (stdin st), (Return tt), added1.
      split; [reflexivity|]. split; [exact Hm|]. split; [|split; [|auto]].
      * intros _. apply marked_all; [exact Hm|].
        apply unprocessed_nil_iff, Eg.
      * discriminate.
    + destruct Hres as [_ [? ?]]. discriminate.
Qed.

(** X15.  [LLMParser.run] stops after at most one call of
    [process_unprocessed_log] per unprocessed log, plus the one that
    finds none left.  When it returns, every log of the log store is
    marked as processed and nothing else about the logs has changed;
    when it raises, the log that was being read is still unprocessed,
    and the logs differ from the initial ones in processed flags only.
    Either way the pattern store has only grown, by patterns that are
    not error patterns. *)
Theorem run_processes_every_log random ask parser logs input :
  exists parser' logs' input' r added,
    llm_parser_run.run random ask parser logs input
    = Some (parser', logs', input', r)
    /\ Forall2 (fun l l' => l' = l \/ l' = log_storage.done l)
               (log_storage.rows logs) (log_storage.rows logs')
    /\ (r = Return tt ->
        log_storage.rows logs' = log_storage.done <$> log_storage.rows logs)
    /\ (forall e, r = Raise e ->
          log_storage.unprocessed (log_storage.rows logs') <> [])
    /\ rows (pattern_store parser') = rows (pattern_store parser) ++ added
    /\ Forall (fun p => is_error p = false) added.
Proof.
  unfold llm_parser_run.run.
  destruct (run_loop_spec random ask
              (S (length (log_storage.unprocessed (log_storage.rows logs))))
              0 parser logs logs input)
    as (parser' & logs' & input' & r & added & E & M & R & F & A & Er);
    [lia | apply marked_refl |].
  exists parser', logs', input', r, added.
  split; [exact E|]. split; [exact M|]. split; [exact R|].
  split; [|split; [exact A | exact Er]].
  intros e He. apply (F e He).
Qed.

End RunLoop.

(** ** The interactive parser *)

Section Interactive.
Context `{RegexEngine}.
Variable groups : compiled -> nat.
Import Spec SpecMore log_patterns interactive_parser
  interactive_parser_more.
Local Open Scope list_scope.

Lemma interactive_parse_line_find line ps :
  (parse_line line ps).2
    = Return (List.find (fun p => Spec.accepts (regex p) line) ps).
Proof.
  induction ps as [|p ps IH]; [reflexivity|].
  simpl. rewrite matches_accepts.
  destruct (Spec.accepts (regex p) line); [reflexivity | exact IH].
Qed.

Lemma read_pattern_spec line stdin :
  read_pattern_ok stdin (read_pattern groups line stdin).
Proof.
  induction stdin as [stdin IH] using (induction_ltof1 _ (@length string)).
  unfold ltof in IH.
  assert (IH' : forall rest, length rest < length stdin ->
                  read_pattern_ok stdin (read_pattern groups line rest)).
  { intros rest Hr. specialize (IH rest Hr). unfold read_pattern_ok in *.
    destruct (read_pattern groups line rest) as [o [[regex|]|e]];
      cbn [fst snd] in *; [|lia|exact IH].
    destruct IH as (? & ? & ?). repeat split; [assumption..|lia]. }
  clear IH. destruct stdin as [|r in1]; [reflexivity|].
  cbn [read_pattern].
  destruct (String.eqb_spec (add_pattern.lower (PyStr.strip r)) "q")
    as [Eq|Eq]; [unfold read_pattern_ok; simpl; lia|].
  destruct (re_compile (PyStr.strip r)) as [pattern|] eqn:Ec.
  - assert (Hacc : forall rest, length rest < length (r :: in1) ->
              read_pattern_ok (r :: in1) (rest, Return (Some (PyStr.strip r)))).
    { intros rest Hr. unfold read_pattern_ok, compiles. cbn [fst snd].
      rewrite Ec. auto. }
    assert (Hcap : forall rest, length rest < length (r :: in1) ->
              read_pattern_ok (r :: in1)
                (if compiled_match pattern line && (0 <? groups pattern)%nat
                 then
                   match rest with
                   | [] => ([], Raise EOFError)
                   | a :: rest' =>
                       if negb (String.eqb (add_pattern.lower a) "y")
                       then read_pattern groups line rest'
                       else (rest', Return (Some (PyStr.strip r)))
                   end
                 else (rest, Return (Some (PyStr.strip r))))).
    { intros rest Hr. destruct (_ && _); [|apply Hacc, Hr].
      destruct rest as [|a rest']; [reflexivity|]. simpl in Hr.
      destruct (negb _); [apply IH'; simpl; lia | apply Hacc; simpl; lia]. }
    destruct (negb (compiled_match pattern line)).
    + destruct in1 as [|retry in2]; [reflexivity|].
      destruct (String.eqb _ "y"); [apply IH'; simpl; lia|].
      destruct (String.eqb _ "n"); [|apply Hcap; simpl; lia].
      destruct in2 as [|a in3]; [reflexivity|].
      destruct (negb _); [apply IH'; simpl; lia | apply Hcap; simpl; lia].
    + apply Hcap. simpl. lia.
  - destruct in1 as [|ch in2]; [reflexivity|].
    destruct (String.eqb _ "2"); [apply IH'; simpl; lia|].
    destruct (String.eqb _ "3"); [apply IH'; simpl; lia|].
    destruct (String.eqb _ "4"); [unfold read_pattern_ok; simpl; lia|].
    apply IH'. simpl. lia.
Qed.

Lemma interactive_read_error_flag stdin :
  match (read_error_flag stdin).2 with
  | Raise e => e = EOFError
  | Return _ => length (read_error_flag stdin).1 < length stdin
  end.
Proof.
  induction stdin as [|a rest IH]; [reflexivity|].
  cbn [read_error_flag]. destruct (_ || _); [simpl; lia|].
  destruct (read_error_flag rest) as [o [e|e]]; cbn [fst snd length] in *;
    [lia | exact IH].
Qed.

Lemma ask_for_new_pattern_spec line stdin :
  ask_ok stdin (ask_for_new_pattern groups line stdin).
Proof.
  unfold ask_for_new_pattern, ask_ok.
  pose proof (read_pattern_spec line stdin) as Hr.
  unfold read_pattern_ok in Hr.
  destruct (read_pattern groups line stdin) as [in1 [[regex|]|e]];
    cbn [fst snd] in *; [|exact Hr..].
  destruct Hr as (Hc & Hq & Hlen).
  destruct in1 as [|u in2]; [reflexivity|].
  pose proof (interactive_read_error_flag in2) as He.
  destruct (read_error_flag in2) as [in3 [error_str|e]]; cbn [fst snd] in *;
    [|exact He].
  simpl in Hlen. repeat split; [assumption..|lia].
Qed.

Lemma ask_continue_extended st0 st i added :
  extended st0 st added -> extended st0 (ask_continue i st).1 added.
Proof.
  intros Hx. unfold ask_continue. destruct (_ =? _)%nat; [|exact Hx].
  destruct (stdin st) as [|a rest] eqn:Es; [exact Hx|].
  destruct Hx as (H1 & H2 & H3 & H4).
  destruct (negb _); repeat split; cbn [fst store patterns stdin]; auto.
Qed.

Lemma ask_continue_status st i e :
  (ask_continue i st).2 = llm_parser.Raised e -> e = EOFError.
Proof.
  unfold ask_continue. destruct (_ =? _)%nat; [|discriminate].
  destruct (stdin st); [intros [= <-]; reflexivity|].
  destruct (negb _); discriminate.
Qed.

Lemma process_line_extended st0 st i line added :
  extended st0 st added ->
  exists new,
    extended st0 (process_line groups st i line).1 (added ++ new)
    /\ length new <= 1
    /\ (forall e, (process_line groups st i line).2 = llm_parser.Raised e ->
                  e = EOFError).
Proof.
  intros Hx. unfold process_line.
  pose proof (interactive_parse_line_find line (patterns st)) as Hp.
  destruct (parse_line line (patterns st)) as [out [[p|]|e]];
    cbn [snd] in Hp; [| |discriminate].
  - exists []. rewrite app_nil_r.
    split; [apply ask_continue_extended, Hx|]. split; [simpl; lia|].
    apply ask_continue_status.
  - destruct (stdin st) as [|a in1] eqn:Es.
    { exists []. rewrite app_nil_r. split; [exact Hx|]. split; [simpl; lia|].
      intros e [= <-]. reflexivity. }
    destruct Hx as (H1 & H2 & H3 & H4).
    destruct (String.eqb _ "y").
    + pose proof (ask_for_new_pattern_spec line in1) as Ha.
      unfold ask_ok in Ha.
      destruct (ask_for_new_pattern groups line in1)
        as [in2 [[[[regex utility] is_error]|]|e]]; cbn [fst snd] in *.
      * destruct Ha as (Hc & Hq & Hlen).
        exists [{| id := lastrowid (rows (store st)) + 1; regex := regex;
                   utility_name := utility; is_error := is_error;
                   need_reviewing := true |}].
        cbn [add_pattern]. split; [|split; [simpl; lia|]].
        -- apply ask_continue_extended.
           repeat split; cbn [store patterns stdin rows get_all_patterns].
           ++ rewrite H1, app_assoc. reflexivity.
           ++ apply Forall_app. split; [exact H3|].
              apply Forall_cons. split; [|apply Forall_nil; exact I].
              simpl. auto.
           ++ intros Hi. apply (add_pattern_ids_increasing (store st) regex
                                  utility is_error true), H4, Hi.
        -- apply ask_continue_status.
      * exists []. rewrite app_nil_r. split; [|split; [simpl; lia|]].
        -- repeat split; cbn [fst store patterns stdin]; auto.
        -- discriminate.
      * exists []. rewrite app_nil_r. split; [|split; [simpl; lia|]].
        -- repeat split; cbn [fst store patterns stdin]; auto.
        -- intros e' [= <-]. exact Ha.
    + exists []. rewrite app_nil_r. split; [|split; [simpl; lia|]].
      * apply ask_continue_extended.
        repeat split; cbn [store patterns stdin]; auto.
      * apply ask_continue_status.
Qed.

Lemma process_lines_extended lines :
  forall st0 st added,
    extended st0 st added ->
    exists new,
      extended st0 (process_lines groups st lines).1 (added ++ new)
      /\ length new
         <= length (List.filter (fun l => negb (blank l)) lines.*2)
      /\ (forall e, (process_lines groups st lines).2 = Raise e ->
                    e = EOFError).
Proof.
  induction lines as [|[i line] rest IH]; intros st0 st added Hx.
  - exists []. rewrite app_nil_r. split; [exact Hx|].
    split; [simpl; lia | discriminate].
  - cbn [process_lines]. rewrite fmap_cons. cbn [List.filter snd].
    change (negb (PyStr.truthy (PyStr.strip line))) with (blank line).
    destruct (blank line); cbn [negb]; [apply IH, Hx|].
    destruct (process_line_extended st0 st i line added Hx)
      as (new1 & Hx1 & Hn1 & He1).
    destruct (process_line groups st i line) as [st' [| |e]];
      cbn [fst snd] in *.
    + destruct (IH st0 st' (added ++ new1) Hx1) as (new2 & Hx2 & Hn2 & He2).
      exists (new1 ++ new2). rewrite app_assoc. split; [exact Hx2|].
      split; [|exact He2]. rewrite length_app. simpl length. lia.
    + exists new1. split; [exact Hx1|]. split; [simpl length; lia|].
      discriminate.
    + exists new1. split; [exact Hx1|]. split; [simpl length; lia|].
      intros e' [= <-]. apply He1. reflexivity.
Qed.

Lemma numbered_snd {A} (f : nat -> nat) (l : list A) :
  (imap (fun i x => (f i, x)) l).*2 = l.
Proof.
  revert f. induction l as [|a l IH]; intros f; [reflexivity|].
  cbn [imap]. rewrite fmap_cons. cbn [snd]. f_equal.
  apply (IH (f ∘ S)).
Qed.

Lemma process_log_extended self log input :
  let out := process_log groups self log input in
  exists added,
    rows (pattern_store out.1.1) = rows (pattern_store self) ++ added
    /\ Forall (fun p => compiles (regex p) = true
                        /\ add_pattern.lower (regex p) <> "q"
                        /\ need_reviewing p = true) added
    /\ length added <= length (real_lines (log_storage.log log))
    /\ (ids_increasing (rows (pattern_store self)) ->
        ids_increasing (rows (pattern_store out.1.1)))
    /\ match out.2 with
       | Return _ =>
           log_storage out.1.1
           = log_storage.mark_as_processed (log_storage self)
               (log_storage.id log)
       | Raise e => e = EOFError /\ log_storage out.1.1 = log_storage self
       end.
Proof.
  cbn zeta. unfold process_log.
  set (st0 := {| store := pattern_store self;
                 patterns := get_all_patterns (pattern_store self);
                 stdin := input |}).
  set (lines := imap (fun i line => (S i, line))
                  (PyStr.splitlines (log_storage.log log))).
  assert (Hx0 : extended st0 st0 []).
  { unfold extended, st0. cbn [store patterns]. rewrite app_nil_r.
    split; [reflexivity|]. split; [reflexivity|]. split; [constructor|auto]. }
  destruct (process_lines_extended lines st0 st0 [] Hx0)
    as (added & (H1 & _ & H3 & H4) & Hn & He).
  assert (Hl : lines.*2 = PyStr.splitlines (log_storage.log log))
    by apply numbered_snd.
  rewrite Hl in Hn. exists added.
  destruct (process_lines groups st0 lines) as [st [[]|e]];
    cbn [fst snd pattern_store interactive_parser.log_storage] in *.
  - split; [exact H1|]. split; [exact H3|]. split; [exact Hn|].
    split; [exact H4 | reflexivity].
  - split; [exact H1|]. split; [exact H3|]. split; [exact Hn|].
    split; [exact H4|]. split; [apply He|]; reflexivity.
Qed.

(** X16.  [process_log] only ever appends to the pattern store, and
    every pattern it appends has a regex that compiles (and is flagged
    for review): an expression that [re.compile] rejects is asked for
    again and is never stored.  At most one pattern is added per
    non-blank line.  The log is marked as processed when the loop over
    its lines ends without an exception, and is left as it was when an
    exception ends it. *)
Theorem process_log_stores_compiling_patterns self log input :
  let out := process_log groups self log input in
  exists added,
    rows (pattern_store out.1.1) = rows (pattern_store self) ++ added
    /\ Forall (fun p => compiles (regex p) = true
                        /\ need_reviewing p = true) added
    /\ length added <= length (real_lines (log_storage.log log))
    /\ (out.2 = Return tt ->
        log_storage out.1.1
        = log_storage.mark_as_processed (log_storage self)
            (log_storage.id log))
    /\ (forall e, out.2 = Raise e -> log_storage out.1.1 = log_storage self).
Proof.
  cbn zeta.
  destruct (process_log_extended self log input)
    as (added & H1 & H2 & H3 & _ & H5).
  exists added. split; [exact H1|]. split.
  { eapply Forall_impl; [exact H2|]. simpl. tauto. }
  split; [exact H3|].
  destruct (process_log groups self log input) as [[self' in1] [[]|e]];
    cbn [fst snd] in *.
  - split; [auto|discriminate].
  - split; [discriminate|]. intros e' _. apply H5.
Qed.

(** X17.  A regex that compiles but does not match the line is taken
    by [ask_for_new_pattern] as soon as the answer to "Would you like
    to try another pattern?" is neither [y] nor [n]: the question "Use
    this non-matching pattern anyway?" is not asked, and neither is the
    one about the capture groups.  The utility name that follows may be
    empty. *)
Theorem retry_answer_other_than_y_n_accepts line r retry u e rest pattern :
  add_pattern.lower (PyStr.strip r) <> "q" ->
  re_compile (PyStr.strip r) = Some pattern ->
  compiled_match pattern line = false ->
  add_pattern.lower retry <> "y" ->
  add_pattern.lower retry <> "n" ->
  add_pattern.lower (PyStr.strip e) = "y"
  \/ add_pattern.lower (PyStr.strip e) = "n" ->
  ask_for_new_pattern groups line (r :: retry :: u :: e :: rest)
  = (rest,
     Return (Some (PyStr.strip r, PyStr.strip u,
                   String.eqb (add_pattern.lower (PyStr.strip e)) "y"))).
Proof.
  intros Hq Hc Hm Hy Hn He. unfold ask_for_new_pattern.
  cbn [read_pattern].
  apply String.eqb_neq in Hq, Hy, Hn. rewrite Hq, Hc, Hm, Hy, Hn.
  cbn [negb andb read_error_flag].
  destruct He as [-> | ->]; reflexivity.
Qed.

Lemma interactive_run_loop_spec random fuel :
  forall k self logs0 input,
    length (log_storage.unprocessed
              (log_storage.rows (log_storage self))) < fuel ->
    Forall2 (fun l l' => l' = l \/ l' = log_storage.done l)
            (log_storage.rows logs0)
            (log_storage.rows (log_storage self)) ->
    exists self' input' r added,
      run_loop groups fuel k random self input = Some (self', input', r)
      /\ Forall2 (fun l l' => l' = l \/ l' = log_storage.done l)
                 (log_storage.rows logs0)
                 (log_storage.rows (log_storage self'))
      /\ (forall e, r = Raise e -> e = EOFError)
      /\ rows (pattern_store self') = rows (pattern_store self) ++ added
      /\ Forall (fun p => compiles (regex p) = true
                          /\ need_reviewing p = true) added.
Proof.
  induction fuel as [|fuel IH]; intros k self logs0 input Hlen Hm; [lia|].
  cbn [run_loop]. unfold get_unprocessed_log.
  destruct (log_storage.get_random_unprocessed_log (random k)
              (log_storage self) 30) as [l|] eqn:Eg.
  - apply get_random_some in Eg as [Hin Hun].
    destruct (process_log_extended self l input)
      as (added1 & H1 & H2 & _ & _ & H5).
    assert (H2' : Forall (fun p => compiles (regex p) = true
                                   /\ need_reviewing p = true) added1).
    { eapply Forall_impl; [exact H2|]. simpl. tauto. }
    destruct (process_log groups self l input) as [[self1 in1] [[]|e]];
      cbn [fst snd] in *.
    + assert (Hm1 : Forall2 (fun l l' => l' = l \/ l' = log_storage.done l)
                      (log_storage.rows logs0)
                      (log_storage.rows (log_storage self1))).
      { rewrite H5. cbn [log_storage.mark_as_processed log_storage.rows].
        apply marked_mark, Hm. }
      destruct in1 as [|a in2].
      { exists self1, [], (Raise EOFError), added1.
        split; [reflexivity|]. split; [exact Hm1|].
        split; [intros e [= <-]; reflexivity | auto]. }
      destruct (negb _).
      { exists self1, in2, (Return tt), added1.
        split; [reflexivity|]. split; [exact Hm1|].
        split; [discriminate | auto]. }
      destruct (IH (S k) self1 logs0 in2)
        as (s' & i' & r & added2 & E & M & F & A & C).
      * rewrite H5. cbn [log_storage.mark_as_processed log_storage.rows].
        rewrite unprocessed_mark.
        assert (length (List.filter
                  (fun l0 => negb (Z.eqb (log_storage.id l0) (log_storage.id l)))
                  (log_storage.unprocessed
                     (log_storage.rows (log_storage self))))
                < length (log_storage.unprocessed
                            (log_storage.rows (log_storage self)))).
        { apply (filter_length_lt _ _ l).
          - apply unprocessed_spec. auto.
          - rewrite Z.eqb_refl. reflexivity. }
        lia.
      * exact Hm1.
      * exists s', i', r, (added1 ++ added2).
        split; [exact E|]. split; [exact M|]. split; [exact F|]. split.
        -- rewrite A, H1, app_assoc. reflexivity.
        -- apply Forall_app. auto.
    + destruct H5 as [-> H5].
      exists self1, in1, (Raise EOFError), added1.
      split; [reflexivity|]. split; [rewrite H5; exact Hm|].
      split; [intros e [= <-]; reflexivity | auto].
  - exists self, input, (Return tt), [].
    split; [reflexivity|]. split; [exact Hm|]. split; [discriminate|].
    rewrite app_nil_r. split; [reflexivity | constructor].
Qed.

(** X18.  [InteractiveParser.run] ends after at most one turn per
    unprocessed log, whatever is typed.  The logs differ from the
    initial ones in processed flags only, and the pattern store has only
    grown, by patterns whose regex compiles and that are flagged for
    review. *)
Theorem interactive_run_ends random self input :
  exists self' input' r added,
    run groups random self input = Some (self', input', r)
    /\ Forall2 (fun l l' => l' = l \/ l' = log_storage.done l)
               (log_storage.rows (log_storage self))
               (log_storage.rows (log_storage self'))
    /\ rows (pattern_store self') = rows (pattern_store self) ++ added
    /\ Forall (fun p => compiles (regex p) = true
                        /\ need_reviewing p = true) added.
Proof.
  unfold run.
  destruct (interactive_run_loop_spec random
              (S (length (log_storage.unprocessed
                            (log_storage.rows (log_storage self)))))
              0 self (log_storage self) input)
    as (self' & input' & r & added & E & M & _ & A & C);
    [lia | apply marked_refl |].
  exists self', input', r, added.
  split; [exact E|]. split; [exact M|]. split; [exact A | exact C].
Qed.

End Interactive.

Section InteractiveWitness.
Import log_patterns interactive_parser.
Local Open Scope list_scope.

Lemma retry_answer_other_than_y_n_accepts_witness :
  add_pattern.lower (PyStr.strip "^gcc") <> "q"
  /\ (exists pattern,
        re_compile (PyStr.strip "^gcc") = Some pattern
        /\ compiled_match pattern "make: error" = false)
  /\ add_pattern.lower "" <> "y"
  /\ add_pattern.lower "" <> "n"
  /\ ask_for_new_pattern (fun _ => 0) "make: error" ["^gcc"; ""; ""; "n"]
     = ([], Return (Some ("^gcc", "", false))).
Proof.
  assert (Hq : add_pattern.lower (PyStr.strip "^gcc") <> "q")
    by (vm_compute; discriminate).
  assert (Hy : add_pattern.lower "" <> "y") by (vm_compute; discriminate).
  assert (Hn : add_pattern.lower "" <> "n") by (vm_compute; discriminate).
  destruct (re_compile (PyStr.strip "^gcc")) as [pattern|] eqn:Ec;
    [|vm_compute in Ec; discriminate].
  assert (Hm : compiled_match pattern "make: error" = false).
  { vm_compute in Ec. injection Ec as <-. vm_compute. reflexivity. }
  split; [exact Hq|]. split; [exists pattern; auto|].
  split; [exact Hy|]. split; [exact Hn|].
  exact (retry_answer_other_than_y_n_accepts (fun _ => 0) "make: error"
           "^gcc" "" "" "n" [] pattern Hq Ec Hm Hy Hn
           (or_intror eq_refl)).
Defined.

End InteractiveWitness.

(** ** Error windows *)

Section ErrorWindows.
Import process_errors.
Variable search : string -> string -> bool.
Local Open Scope list_scope.
Local Open Scope Z_scope.

Lemma scan_spec len w numbered :
  forall acc i,
    i ∈ scan search len w numbered acc <->
    i ∈ acc
    \/ exists j line,
         (j, line) ∈ numbered /\ reported search line = true
         /\ Z.max 0 (Z.of_nat j - w) <= i < Z.min len (Z.of_nat j + w + 1).
Proof.
  induction numbered as [|[j line] rest IH]; intros acc i.
  - simpl. split; [auto|]. intros [Hi|(j & line & Hin & _)]; [exact Hi|].
    inversion Hin.
  - cbn [scan]. unfold reported.
    destruct (skipped search (PyStr.strip line)) eqn:Es; cbn [negb andb].
    + rewrite IH. split.
      * intros [Hi|(j' & l' & Hin & Hr)]; [auto|].
        right. exists j', l'. split; [right; exact Hin | exact Hr].
      * intros [Hi|(j' & l' & Hin & Hr & Hb)]; [auto|].
        apply elem_of_cons in Hin as [[= -> ->]|Hin].
        -- unfold reported in Hr. rewrite Es in Hr. discriminate.
        -- right. exists j', l'. auto.
    + destruct (has_keyword search (PyStr.strip line)) eqn:Ek.
      * rewrite IH, elem_of_union, elem_of_list_to_set.
        unfold range. rewrite elem_of_seqZ. split.
        -- intros [[Hi|Hi]|(j' & l' & Hin & Hr)]; [auto| |].
           ++ right. exists j, line. split; [left|].
              unfold reported. rewrite Es, Ek. split; [reflexivity | lia].
           ++ right. exists j', l'. split; [right; exact Hin | exact Hr].
        -- intros [Hi|(j' & l' & Hin & Hr & Hb)]; [auto|].
           apply elem_of_cons in Hin as [[= -> ->]|Hin].
           ++ left. right. lia.
           ++ right. exists j', l'. auto.
      * rewrite IH. split.
        -- intros [Hi|(j' & l' & Hin & Hr)]; [auto|].
           right. exists j', l'. split; [right; exact Hin | exact Hr].
        -- intros [Hi|(j' & l' & Hin & Hr & Hb)]; [auto|].
           apply elem_of_cons in Hin as [[= -> ->]|Hin].
           ++ unfold reported in Hr. rewrite Es, Ek in Hr. discriminate.
           ++ right. exists j', l'. auto.
Qed.

Lemma find_error_windows_elem lines w i :
  i ∈ find_error_windows search lines w <->
  0 <= i < Z.of_nat (length lines)
  /\ exists j line,
       lines !! j = Some line /\ reported search line = true
       /\ Z.of_nat j - w <= i <= Z.of_nat j + w.
Proof.
  unfold find_error_windows. rewrite scan_spec. split.
  - intros [Hi|(j & line & Hin & Hr & Hb)]; [set_solver|].
    unfold embeddings.enumerate in Hin.
    apply elem_of_lookup_imap in Hin as (j' & l' & [= -> ->] & Hl).
    split; [lia|]. exists j', l'. split; [exact Hl|]. split; [exact Hr | lia].
  - intros (Hi & j & line & Hl & Hr & Hb). right. exists j, line.
    split; [|split; [exact Hr | lia]].
    unfold embeddings.enumerate. apply elem_of_lookup_imap. eauto.
Qed.

Lemma reported_in_window lines w j line :
  0 <= w -> lines !! j = Some line -> reported search line = true ->
  Z.of_nat j ∈ find_error_windows search lines w.
Proof.
  intros Hw Hl Hr. apply find_error_windows_elem.
  pose proof (lookup_lt_Some _ _ _ Hl). split; [lia|].
  exists j, line. split; [exact Hl|]. split; [exact Hr | lia].
Qed.

Lemma negative_window_empty lines w :
  w < 0 -> find_error_windows search lines w = ∅.
Proof.
  intros Hw. apply set_eq. intros i. rewrite find_error_windows_elem.
  split; [|set_solver]. intros (_ & j & line & _ & _ & Hb). lia.
Qed.

Lemma windows_empty_iff lines w :
  find_error_windows search lines w = ∅ <->
  w < 0 \/ Forall (fun line => reported search line = false) lines.
Proof.
  split.
  - intros He. destruct (Z.lt_ge_cases w 0) as [Hw|Hw]; [auto|]. right.
    apply Forall_forall. intros line Hin.
    apply list_elem_of_lookup in Hin as [j Hj].
    destruct (reported search line) eqn:Hr; [|reflexivity].
    pose proof (reported_in_window lines w j line Hw Hj Hr) as Hin.
    rewrite He in Hin. set_solver.
  - intros [Hw|Hall]; [apply negative_window_empty, Hw|].
    apply set_eq. intros i.
    rewrite find_error_windows_elem. split; [|set_solver].
    intros (_ & j & line & Hl & Hr & _).
    rewrite Forall_forall in Hall.
    rewrite (Hall line) in Hr; [discriminate|].
    apply list_elem_of_lookup. eauto.
Qed.

(** X19.  A line number is in the result of [find_error_windows]
    exactly when it is a valid index of [lines] and lies within
    [window_size] of a line that is not skipped and has an error
    keyword.  So the result never holds an index outside the list, a
    reported line is itself in the result when the window is not
    negative, and the result is empty exactly when the window is
    negative or no line is reported. *)
Theorem find_error_windows_spec lines w :
  (forall i, i ∈ find_error_windows search lines w <->
     0 <= i < Z.of_nat (length lines)
     /\ exists j line,
          lines !! j = Some line /\ reported search line = true
          /\ Z.of_nat j - w <= i <= Z.of_nat j + w)
  /\ (0 <= w ->
      forall j line, lines !! j = Some line -> reported search line = true ->
                     Z.of_nat j ∈ find_error_windows search lines w)
  /\ (find_error_windows search lines w = ∅ <->
      w < 0 \/ Forall (fun line => reported search line = false) lines).
Proof.
  split; [apply find_error_windows_elem|]. split.
  - intros Hw j line Hl Hr. apply (reported_in_window lines w j line Hw Hl Hr).
  - apply windows_empty_iff.
Qed.

Lemma seqZ_sorted m n : StronglySorted Z.le (seqZ m n).
Proof.
  destruct (Z.le_gt_cases n 0) as [Hn|Hn];
    [rewrite seqZ_nil by lia; constructor|].
  rewrite <- (Z2Nat.id n) by lia. generalize (Z.to_nat n). clear Hn n.
  intros n. revert m. induction n as [|n IH]; intros m.
  - rewrite seqZ_nil by lia. constructor.
  - rewrite seqZ_cons by lia.
    replace (Z.pred (Z.of_nat (S n))) with (Z.of_nat n) by lia.
    constructor; [apply IH|]. apply Forall_forall. intros x Hx.
    apply elem_of_seqZ in Hx. lia.
Qed.

Lemma filter_sorted (P : Z -> Prop) `{forall x, Decision (P x)} l :
  StronglySorted Z.le l -> StronglySorted Z.le (filter P l).
Proof.
  induction 1 as [|x l Hs IH Hx]; [constructor|].
  rewrite filter_cons. destruct (decide (P x)); [|exact IH].
  constructor; [exact IH|]. apply Forall_forall.
  intros y [_ Hy]%list_elem_of_filter. rewrite Forall_forall in Hx. auto.
Qed.

Lemma sorted_line_numbers (S : gset Z) len :
  (forall i, i ∈ S -> 0 <= i < len) ->
  merge_sort Z.le (elements S) = filter (fun i => i ∈ S) (seqZ 0 len).
Proof.
  intros Hb. apply (StronglySorted_unique Z.le).
  - apply StronglySorted_merge_sort; apply _.
  - apply filter_sorted, seqZ_sorted.
  - rewrite merge_sort_Permutation. apply NoDup_Permutation.
    + apply NoDup_elements.
    + apply NoDup_filter, NoDup_seqZ.
    + intros i. rewrite elem_of_elements, list_elem_of_filter, elem_of_seqZ.
      split; [|tauto]. intros Hi. split; [exact Hi|].
      specialize (Hb i Hi). lia.
Qed.

Lemma getitem_lookup lines (i : nat) line :
  lines !! i = Some line -> getitem lines (Z.of_nat i) = Return line.
Proof.
  intros Hl. unfold getitem.
  destruct (Z.ltb_spec (Z.of_nat i) 0) as [?|_]; [lia|].
  destruct (Z.ltb_spec (Z.of_nat i) 0) as [?|_]; [lia|].
  rewrite Nat2Z.id, Hl. reflexivity.
Qed.

Lemma write_window (ns : gset Z) l2 :
  forall l1 written,
    write_lines (l1 ++ l2)
      (filter (fun i => i ∈ ns)
         (seqZ (Z.of_nat (length l1)) (Z.of_nat (length l2))))
      written
    = (written
       ++ (filter (fun il : nat * string => Z.of_nat il.1 ∈ ns)
             (imap (fun i x => ((length l1 + i)%nat, x)) l2)).*2,
       Return tt).
Proof.
  induction l2 as [|a l2 IH]; intros l1 written.
  - rewrite seqZ_nil by (simpl; lia). simpl. rewrite app_nil_r. reflexivity.
  - rewrite seqZ_cons by (simpl length; lia).
    replace (Z.pred (Z.of_nat (length (a :: l2))))
      with (Z.of_nat (length l2)) by (simpl length; lia).
    replace (Z.succ (Z.of_nat (length l1)))
      with (Z.of_nat (length (l1 ++ [a])))
      by (rewrite length_app; simpl length; lia).
    cbn [imap]. rewrite !filter_cons. cbn [fst].
    rewrite Nat.add_0_r.
    assert (Himap : imap ((fun i x => ((length l1 + i)%nat, x)) ∘ S) l2
                    = imap (fun i x => ((length (l1 ++ [a]) + i)%nat, x)) l2).
    { apply imap_ext. intros i x _. simpl. rewrite length_app. simpl length.
      f_equal. lia. }
    rewrite Himap.
    replace (l1 ++ a :: l2) with ((l1 ++ [a]) ++ l2)
      by (rewrite <- app_assoc; reflexivity).
    destruct (decide (Z.of_nat (length l1) ∈ ns)).
    + cbn [write_lines].
      rewrite (getitem_lookup _ (length l1) a).
      * rewrite IH. rewrite fmap_cons. cbn [snd].
        rewrite <- app_assoc. reflexivity.
      * rewrite <- app_assoc. apply list_lookup_middle. reflexivity.
    + apply IH.
Qed.

(** X20.  [process_log_file] returns [False] and writes no file when no
    line is reported; otherwise it returns [True] and the file holds
    exactly the lines within two lines of a reported one, each once and
    in the order of the input: indexing [lines] never fails, so the
    handler that turns an exception into [False] is not entered for
    it. *)
Theorem process_log_file_spec lines :
  process_log_file search lines
  = (if forallb (fun line => negb (reported search line)) lines
     then (false, None)
     else (true, Some (window_lines search lines 2)))
  /\ window_lines search lines 2 `sublist_of` lines
  /\ (forall j line, lines !! j = Some line -> reported search line = true ->
                     line ∈ window_lines search lines 2).
Proof.
  pose proof (find_error_windows_elem lines 2) as Hel.
  pose proof (windows_empty_iff lines 2) as Hempty.
  split; [|split].
  - unfold process_log_file.
    destruct (decide (find_error_windows search lines 2 = ∅)) as [He|Hne].
    + apply Hempty in He as [?|Hall]; [lia|].
      replace (forallb _ lines) with true; [reflexivity|].
      symmetry. apply forallb_forall. intros x Hx%list_elem_of_In.
      rewrite Forall_forall in Hall. rewrite (Hall x Hx). reflexivity.
    + replace (forallb _ lines) with false.
      2:{ symmetry. apply not_true_is_false. intros Hf. apply Hne, Hempty.
          right. apply Forall_forall. intros x Hx%list_elem_of_In.
          rewrite forallb_forall in Hf. specialize (Hf x Hx).
          apply negb_true_iff, Hf. }
      rewrite (sorted_line_numbers _ (Z.of_nat (length lines)))
        by (intros i Hi; apply Hel in Hi; tauto).
      pose proof (write_window (find_error_windows search lines 2) lines
                    [] []) as Hw.
      cbn [app length] in Hw. change (Z.of_nat 0) with 0 in Hw.
      rewrite Hw. reflexivity.
  - unfold window_lines.
    rewrite <- (numbered_snd (fun i => i) lines) at 2.
    apply fmap_sublist, sublist_filter.
  - intros j line Hl Hr. unfold window_lines.
    apply list_elem_of_fmap. exists (j, line). split; [reflexivity|].
    apply list_elem_of_filter. split.
    + cbn [fst]. apply (reported_in_window lines 2 j line); [lia|assumption..].
    + unfold embeddings.enumerate. apply elem_of_lookup_imap. eauto.
Qed.

End ErrorWindows.

(** ** The whitelist of utility names *)

Section Whitelist.
Import log_patterns update_utilities.
Local Open Scope list_scope.

Lemma LOWER_char_idem c : LOWER_char (LOWER_char c) = LOWER_char c.
Proof.
  destruct c as [[] [] [] [] [] [] [] []]; vm_compute; reflexivity.
Qed.

Lemma LOWER_idem s : LOWER (LOWER s) = LOWER s.
Proof.
  induction s as [|c s IH]; [reflexivity|].
  simpl. rewrite LOWER_char_idem, IH. reflexivity.
Qed.

Lemma set_unknown_self p :
  set_unknown (utility_name p) p
  = {| id := id p; regex := regex p; utility_name := "unknown";
       is_error := is_error p; need_reviewing := true |}.
Proof. unfold set_unknown. rewrite String.eqb_refl. reflexivity. Qed.

Lemma set_unknown_cases u p :
  (utility_name p = u /\ set_unknown u p = set_unknown (utility_name p) p)
  \/ (utility_name p <> u /\ set_unknown u p = p).
Proof.
  unfold set_unknown. rewrite String.eqb_refl.
  destruct (String.eqb_spec (utility_name p) u); auto.
Qed.

Lemma set_unknown_step utils :
  forall rs : list LogPattern,
    foldl (fun rs util => set_unknown util <$> rs) rs utils
    = (fun p => if decide (utility_name p ∈ utils)
                then set_unknown (utility_name p) p else p) <$> rs.
Proof.
  induction utils as [|u utils IH]; intros rs.
  - simpl. rewrite <- (list_fmap_id rs) at 1. apply list_fmap_ext.
    intros i p _. simpl.
    destruct (decide (utility_name p ∈ [])) as [Hin|_]; [inversion Hin|].
    reflexivity.
  - cbn [foldl]. rewrite IH.
    rewrite <- list_fmap_compose. apply list_fmap_ext. intros i p _.
    cbn [compose].
    destruct (set_unknown_cases u p) as [[E Hs]|[E Hs]]; rewrite Hs.
    + rewrite (decide_True (P := utility_name p ∈ u :: utils))
        by (rewrite E; left).
      rewrite (set_unknown_self p). cbn [utility_name].
      destruct (decide ("unknown" ∈ utils)); [|reflexivity].
      unfold set_unknown. cbn [utility_name]. rewrite String.eqb_refl.
      reflexivity.
    + destruct (decide (utility_name p ∈ utils)) as [Hin|Hn].
      * rewrite decide_True by (right; exact Hin). reflexivity.
      * rewrite decide_False; [reflexivity|].
        intros [?|?]%elem_of_cons; congruence.
Qed.

Lemma update_utilities_rows store file :
  rows (update_utilities store (Some file))
  = normalised (load_whitelist file) <$> rows store.
Proof.
  unfold update_utilities.
  set (whitelist := load_whitelist file).
  set (lowered := lower_utility_name <$> (lower_regex <$> rows store)).
  set (bad := list_to_set (utility_name <$> lowered) ∖ whitelist).
  assert (Hl : forall p, p ∈ rows store ->
                 LOWER (utility_name p) ∈ bad
                 <-> LOWER (utility_name p) ∉ whitelist).
  { intros p Hp. unfold bad. rewrite elem_of_difference, elem_of_list_to_set.
    split; [tauto|]. intros Hn. split; [|exact Hn].
    apply list_elem_of_fmap. exists (lower_utility_name (lower_regex p)).
    split; [reflexivity|]. unfold lowered.
    apply list_elem_of_fmap_2, list_elem_of_fmap_2, Hp. }
  destruct (decide (bad = ∅)) as [He|Hne]; cbn [rows].
  - unfold lowered. rewrite <- list_fmap_compose.
    apply list_fmap_ext. intros i p Hp%list_elem_of_lookup_2. cbn [compose].
    unfold normalised. rewrite decide_True; [reflexivity|].
    destruct (decide (LOWER (utility_name p) ∈ whitelist)) as [|Hn]; [auto|].
    apply (Hl p Hp) in Hn. rewrite He in Hn. set_solver.
  - rewrite set_unknown_step.
    unfold lowered. rewrite <- !list_fmap_compose.
    apply list_fmap_ext. intros i p Hp%list_elem_of_lookup_2. cbn [compose].
    unfold normalised, lower_utility_name at 1 2. cbn [utility_name].
    destruct (decide (LOWER (utility_name p) ∈ whitelist)) as [Hw|Hw].
    + rewrite decide_False; [reflexivity|].
      rewrite elem_of_elements, (Hl p Hp). tauto.
    + rewrite decide_True by (rewrite elem_of_elements; apply (Hl p Hp), Hw).
      unfold set_unknown. cbn [utility_name]. rewrite String.eqb_refl.
      reflexivity.
Qed.

Lemma normalised_idem whitelist p :
  normalised whitelist (normalised whitelist p) = normalised whitelist p.
Proof.
  destruct (decide (LOWER (utility_name p) ∈ whitelist)) as [Hw|Hw].
  - assert (E : normalised whitelist p
                = {| id := id p; regex := LOWER (regex p);
                     utility_name := LOWER (utility_name p);
                     is_error := is_error p;
                     need_reviewing := need_reviewing p |}).
    { unfold normalised. rewrite decide_True by exact Hw. reflexivity. }
    rewrite E. unfold normalised.
    cbn [utility_name regex id is_error need_reviewing].
    rewrite !LOWER_idem. rewrite decide_True by exact Hw. reflexivity.
  - assert (E : normalised whitelist p
                = {| id := id p; regex := LOWER (regex p);
                     utility_name := "unknown";
                     is_error := is_error p; need_reviewing := true |}).
    { unfold normalised. rewrite decide_False by exact Hw. reflexivity. }
    rewrite E. unfold normalised.
    cbn [utility_name regex id is_error need_reviewing].
    rewrite LOWER_idem. change (LOWER "unknown") with "unknown".
    destruct (decide ("unknown" ∈ whitelist)); reflexivity.
Qed.

(** X21.  [update_utilities] treats every row on its own, whatever the
    order in which the set of invalid names is gone through: a row
    whose utility name, in lower case, is in the whitelist keeps that
    name and its review flag; any other row is named [unknown] and is
    flagged for review.  So afterwards every utility name is in the
    whitelist or is [unknown], ids and error flags are as before, no
    review flag has been cleared, and a second run with the same
    whitelist changes nothing.  Without the whitelist file nothing is
    changed. *)
Theorem update_utilities_spec store file :
  let store' := update_utilities store (Some file) in
  rows store' = normalised (load_whitelist file) <$> rows store
  /\ Forall (fun p => utility_name p ∈ load_whitelist file
                      \/ utility_name p = "unknown") (rows store')
  /\ id <$> rows store' = id <$> rows store
  /\ is_error <$> rows store' = is_error <$> rows store
  /\ Forall2 (fun p p' => need_reviewing p = true ->
                          need_reviewing p' = true)
             (rows store) (rows store')
  /\ update_utilities store' (Some file) = store'
  /\ update_utilities store None = store.
Proof.
  cbn zeta. pose proof (update_utilities_rows store file) as Hr.
  split; [exact Hr|]. split; [|split; [|split; [|split; [|split]]]].
  - rewrite Hr. apply Forall_fmap, Forall_forall. intros p _. simpl.
    unfold normalised. case_decide; simpl; auto.
  - rewrite Hr, <- list_fmap_compose. apply list_fmap_ext.
    intros i p _. simpl. unfold normalised. case_decide; reflexivity.
  - rewrite Hr, <- list_fmap_compose. apply list_fmap_ext.
    intros i p _. simpl. unfold normalised. case_decide; reflexivity.
  - rewrite Hr. apply Forall2_fmap_r, Forall_Forall2_diag, Forall_forall.
    intros p _. unfold compose, normalised. case_decide; simpl; auto.
  - destruct (update_utilities store (Some file)) as [rs'] eqn:E.
    pose proof (update_utilities_rows {| rows := rs' |} file) as Hr2.
    destruct (update_utilities {| rows := rs' |} (Some file)) as [rs''].
    cbn [rows] in *. f_equal. rewrite Hr2, Hr, <- list_fmap_compose.
    apply list_fmap_ext. intros i p _. simpl. apply normalised_idem.
  - reflexivity.
Qed.

(** X22.  [update_utilities] also puts every stored regex in lower
    case, and that changes what a regex matches: the pattern
    [^\S+: error] matches the line [gcc: error: no input files], and
    after [update_utilities], with any whitelist, the row reads
    [^\s+: error] and no longer matches it. *)
Theorem update_utilities_rewrites_regexes :
  (forall store file,
     regex <$> rows (update_utilities store (Some file))
     = LOWER <$> (regex <$> rows store))
  /\ matches word_pattern word_line = Return true
  /\ forall file,
       Forall (fun p => matches p word_line = Return false)
              (rows (update_utilities {| rows := [word_pattern] |}
                       (Some file))).
Proof.
  split; [|split].
  - intros store file. rewrite update_utilities_rows.
    rewrite <- !list_fmap_compose. apply list_fmap_ext.
    intros i p _. simpl. unfold normalised. case_decide; reflexivity.
  - vm_compute. reflexivity.
  - intros file. rewrite update_utilities_rows. cbn [rows fmap list_fmap].
    apply Forall_cons. split; [|apply Forall_nil; exact I].
    unfold normalised. case_decide; vm_compute; reflexivity.
Qed.

End Whitelist.
